(** * Booster-pack core of [shared/mtg.js]

    A shallow embedding of the range matcher, the collector-exclusivity
    classifier, [fetchWithRetry], the seeded generator, both sealed-pool
    generators and the daily set selection, followed by the properties
    proved about them.

    Conventions of the embedding.
    - A JavaScript number that holds an integer is a [Z]; [NaN] is the
      [None] of [option Z].  Integers are taken exact (collector numbers,
      hashes and 32-bit words are far below 2^53).
    - A number in the unit interval (a result of [random()]) is a [Q];
      [Math.floor (r * n)] is the exact floor [Qfloor].  For the seeded
      generator the values are multiples of 2^-32, so the product is exact
      in double precision for arrays shorter than 2^21.  A constant
      compared with a draw is the exact value of its double: [0.125] is
      1/8, and [(1/7)] is the double nearest to one seventh.
    - A string is a [string] whose characters stand for code units
      below 256.
    - [undefined] and [null] are the [None] of an option; a three-valued
      answer [true | false | null] is an [option bool].
    - An object used as a dictionary is a [gmap string _]; keys inherited
      from [Object.prototype] are outside the model. *)

From Stdlib Require Import ZArith QArith Qround String Ascii List Bool Lia.
From Stdlib Require Import DecimalString.
From stdpp Require Import gmap strings.
Import ListNotations.

Local Open Scope string_scope.
Local Open Scope list_scope.
Local Open Scope Z_scope.

(** ** JavaScript primitives *)

Module Js.

Definition two32 : Z := 4294967296.

(** [x | 0] on an integer-valued number: wrap to a signed 32-bit word. *)
Definition ToInt32 (x : Z) : Z := (x + 2147483648) mod two32 - 2147483648.

(** [x >>> 0]: wrap to an unsigned 32-bit word. *)
Definition ToUint32 (x : Z) : Z := x mod two32.

(** [a | b] *)
Definition bor (a b : Z) : Z := ToInt32 (Z.lor (ToInt32 a) (ToInt32 b)).

(** [a ^ b] *)
Definition bxor (a b : Z) : Z := ToInt32 (Z.lxor (ToInt32 a) (ToInt32 b)).

(** [a << n] *)
Definition shl (a n : Z) : Z := ToInt32 (Z.shiftl (ToInt32 a) (n mod 32)).

(** [a >>> n] *)
Definition ushr (a n : Z) : Z := Z.shiftr (ToUint32 a) (n mod 32).

(** [Math.imul (a, b)] *)
Definition imul (a b : Z) : Z := ToInt32 (ToInt32 a * ToInt32 b).

(** [Math.abs] *)
Definition abs (a : Z) : Z := Z.abs a.

(** [str.charCodeAt (i)] of one character. *)
Definition charCode (c : ascii) : Z := Z.of_nat (nat_of_ascii c).

(** White space skipped by [parseInt]: TAB, LF, VT, FF, CR, SP, NBSP. *)
Definition isWhiteSpace (c : ascii) : bool :=
  let n := charCode c in
  ((9 <=? n) && (n <=? 13)) || (n =? 32) || (n =? 160).

Fixpoint trimStart (s : string) : string :=
  match s with
  | String c s' => if isWhiteSpace c then trimStart s' else s
  | EmptyString => s
  end.

Definition digitValue (c : ascii) : option Z :=
  let n := charCode c in
  if (48 <=? n) && (n <=? 57) then Some (n - 48) else None.

(** The longest prefix of decimal digits, as a number; [acc] is [None]
    until a first digit has been read. *)
Fixpoint parseDigits (acc : option Z) (s : string) : option Z :=
  match s with
  | String c s' =>
      match digitValue c with
      | Some d => parseDigits (Some (10 * default 0 acc + d)) s'
      | None => acc
      end
  | EmptyString => acc
  end.

(** [parseInt (s, 10)]; [None] is [NaN]. *)
Definition parseInt (s : string) : option Z :=
  match trimStart s with
  | String "-"%char s' => Z.opp <$> parseDigits None s'
  | String "+"%char s' => parseDigits None s'
  | s' => parseDigits None s'
  end.

(** Vocabulary for statements about [parseInt]: decimal digits. *)
Definition isDigit (c : ascii) : bool :=
  match digitValue c with Some _ => true | None => false end.

Fixpoint allDigits (s : string) : bool :=
  match s with
  | String c s' => isDigit c && allDigits s'
  | EmptyString => true
  end.

Definition startsWithDigit (s : string) : bool :=
  match s with
  | String c _ => isDigit c
  | EmptyString => false
  end.

(** [a >= b], [a <= b] and [a === b] on numbers; any comparison with
    [NaN] is false. *)
Definition ge (a b : option Z) : bool :=
  match a, b with Some x, Some y => y <=? x | _, _ => false end.

Definition le (a b : option Z) : bool :=
  match a, b with Some x, Some y => x <=? y | _, _ => false end.

Definition strictEq (a b : option Z) : bool :=
  match a, b with Some x, Some y => x =? y | _, _ => false end.

(** [s.includes (c)] for a one-character needle. *)
Fixpoint includesChar (c : ascii) (s : string) : bool :=
  match s with
  | String d s' => Ascii.eqb d c || includesChar c s'
  | EmptyString => false
  end.

(** [s.split (sep)] for a one-character separator. *)
Fixpoint split (sep : ascii) (s : string) : list string :=
  match s with
  | EmptyString => [EmptyString]
  | String c s' =>
      if Ascii.eqb c sep then EmptyString :: split sep s'
      else match split sep s' with
           | hd :: tl => String c hd :: tl
           | [] => [String c EmptyString]
           end
  end.

(** [s.replace (pat, rep)] with a string pattern: the first occurrence
    only. *)
Fixpoint replace (pat rep s : string) : string :=
  if String.prefix pat s
  then (rep ++ String.substring (String.length pat)
                 (String.length s - String.length pat) s)%string
  else match s with
       | String c s' => String c (replace pat rep s')
       | EmptyString => EmptyString
       end.

(** [arr.includes (x)] on an array of strings. *)
Definition includes (x : string) (arr : list string) : bool :=
  existsb (String.eqb x) arr.

(** [arr[i]] for a number [i]; [None] is [undefined]. *)
Definition index {A} (arr : list A) (i : option Z) : option A :=
  match i with
  | Some n => if n <? 0 then None else arr !! Z.to_nat n
  | None => None
  end.

(** [a % b]; [NaN] when the divisor is zero. *)
Definition rem (a b : Z) : option Z :=
  if b =? 0 then None else Some (Z.rem a b).

(** [a < b] on numbers of the unit interval. *)
Definition Qltb (a b : Q) : bool := negb (Qle_bool b a).

(** Errors that the modelled code throws or receives. *)
Inductive Error :=
| HttpError (status : Z)      (* new Error ('HTTP ' + response.status) *)
| Rejected (reason : string)  (* a rejected fetch or json () promise *)
| RangeError.                 (* toISOString of an invalid Date *)

(** How a call ends. *)
Inductive Completion (A : Type) :=
| Normal (v : A)
| Throw (e : Error).
Arguments Normal {A} v.
Arguments Throw {A} e.

End Js.

(** ** Range matcher *)

Module Range.
Import Js.

(** [isInRange (cn, rangeStr)] *)
Definition isInRange (cn rangeStr : string) : bool :=
  let cnNum := parseInt cn in
  match cnNum with
  | None => false
  | Some _ =>
      if includesChar "-" rangeStr then
        match map parseInt (split "-" rangeStr) with
        | start :: end_ :: _ => ge cnNum start && le cnNum end_
        | _ => false
        end
      else strictEq cnNum (parseInt rangeStr)
  end.

End Range.

(** ** Cards and the exclusivity classifier *)

Module Classifier.
Import Js Range.

Record Card := {
  id : string;
  collector_number : string;
  rarity : string;
  promo_types : option (list string);
  frame_effects : option (list string);
  booster : bool
}.

Record PlayBooster := { includeCollectorNumbers : option (list string) }.
Record CollectorExclusive := { collectorNumbers : option (list string) }.

Record SetConfig := {
  playBooster : option PlayBooster;
  collectorExclusive : option CollectorExclusive
}.

Definition COLLECTOR_EXCLUSIVE_PROMOS : list string :=
  ["fracturefoil"; "texturedfoil"; "ripplefoil";
   "halofoil"; "confettifoil"; "galaxyfoil"; "surgefoil";
   "raisedfoil"; "headliner"].

Definition COLLECTOR_EXCLUSIVE_FRAMES : list string :=
  ["inverted"; "extendedart"].

(** [isInPlayBooster (card, setConfig)]; [None] is [null]. *)
Definition isInPlayBooster (card : Card) (setConfig : option SetConfig)
  : option bool :=
  match (setConfig ≫= playBooster) ≫= includeCollectorNumbers
        : option (list string) with
  | None => None
  | Some ranges =>
      let cn := collector_number card in
      Some (existsb (fun range => isInRange cn range) ranges)
  end.

(** [isCollectorExclusiveByConfig (card, setConfig)]; [None] is [null]. *)
Definition isCollectorExclusiveByConfig (card : Card)
  (setConfig : option SetConfig) : option bool :=
  match (setConfig ≫= collectorExclusive) ≫= collectorNumbers
        : option (list string) with
  | None => None
  | Some ranges =>
      let cn := collector_number card in
      Some (existsb (fun range => isInRange cn range) ranges)
  end.

(** The generic rule at the end of [isCollectorExclusive]. *)
Definition genericExclusive (card : Card) : bool :=
  let promos := default [] (promo_types card) in
  let frames := default [] (frame_effects card) in
  let hasExclusivePromo :=
    existsb (fun p => includes p COLLECTOR_EXCLUSIVE_PROMOS) promos in
  let hasExclusiveFrame :=
    existsb (fun f => includes f COLLECTOR_EXCLUSIVE_FRAMES) frames in
  hasExclusivePromo || hasExclusiveFrame.

(** [isCollectorExclusive (card, setConfig = null)] *)
Definition isCollectorExclusive (card : Card) (setConfig : option SetConfig)
  : bool :=
  match setConfig with
  | Some _ =>
      match isInPlayBooster card setConfig with
      | Some true => false
      | Some false =>
          match isCollectorExclusiveByConfig card setConfig with
          | Some true => true
          | _ => genericExclusive card
          end
      | None => genericExclusive card
      end
  | None => genericExclusive card
  end.

End Classifier.

(** ** [fetchWithRetry] *)

Module Retry.
Import Js.

Section WithData.
Context {Data : Type}.

(** What one [fetch (url)] yields: a response with its status and the
    outcome of [response.json ()], or a rejection. *)
Inductive Response :=
| HttpResponse (status : Z) (json : Completion Data)
| FetchRejected (e : Error).

(** [response.ok] *)
Definition ok (status : Z) : bool := (200 <=? status) && (status <=? 299).

Inductive Event :=
| EvFetch (url : string)
| EvDelay (ms : Z).

(** The network seen by one call: how many fetches were issued, and the
    fetches and pauses in order. *)
Record World := { fetched : nat; trace : list Event }.

Definition fetch (net : nat -> Response) (url : string) (w : World)
  : Response * World :=
  (net (fetched w),
   {| fetched := S (fetched w); trace := trace w ++ [EvFetch url] |}).

Definition delay (ms : Z) (w : World) : World :=
  {| fetched := fetched w; trace := trace w ++ [EvDelay ms] |}.

(** The [for (let i = 0; i < retries; i++)] loop, entered at counter [i]
    with [left = retries - i] iterations to go.  Both [continue] and a
    caught error that is not rethrown reach the loop's [i++]. *)
Fixpoint fetchWithRetry_from (net : nat -> Response) (url : string)
  (retries left i : nat) (w : World) : Completion (option Data) * World :=
  match left with
  | O => (Normal None, w)
  | S left' =>
      let (response, w1) := fetch net url w in
      let catch (error : Error) :=
        if Z.of_nat i =? Z.of_nat retries - 1 then (Throw error, w1)
        else fetchWithRetry_from net url retries left' (S i)
               (delay (100 * (Z.of_nat i + 1)) w1) in
      match response with
      | FetchRejected e => catch e
      | HttpResponse status json =>
          if status =? 429 then
            fetchWithRetry_from net url retries left' (S i) (delay 1000 w1)
          else if negb (ok status) then catch (HttpError status)
          else match json with
               | Normal d => (Normal (Some d), w1)
               | Throw e => catch e
               end
      end
  end.

(** [fetchWithRetry (url, retries = 3)] *)
Definition fetchWithRetry (net : nat -> Response) (url : string)
  (retries : nat) (w : World) : Completion (option Data) * World :=
  fetchWithRetry_from net url retries retries 0 w.

(** The error a response hands to the [catch] block, if any: a rejected
    fetch, a status that is neither 429 nor ok, or a rejected [json ()]. *)
Definition genericFailure (r : Response) : option Error :=
  match r with
  | FetchRejected e => Some e
  | HttpResponse status json =>
      if status =? 429 then None
      else if negb (ok status) then Some (HttpError status)
      else match json with
           | Normal _ => None
           | Throw e => Some e
           end
  end.

(** What [n] rate-limited attempts leave in the trace. *)
Definition rateLimitedTrace (url : string) (n : nat) : list Event :=
  concat (repeat [EvFetch url; EvDelay 1000] n).

End WithData.
Arguments Response Data : clear implicits.

End Retry.

(** ** Seeded generator *)

Module Rng.
Import Js.

Inductive Seed :=
| SeedNumber (n : Z)
| SeedString (s : string).

(** Truthiness of the [seed] argument ([null] by default). *)
Definition truthy (seed : option Seed) : bool :=
  match seed with
  | Some (SeedNumber n) => negb (n =? 0)
  | Some (SeedString s) => negb (String.eqb s "")
  | None => false
  end.

Fixpoint hashString_from (hash : Z) (str : string) : Z :=
  match str with
  | EmptyString => hash
  | String c str' =>
      let char := charCode c in
      let hash := (shl hash 5 - hash) + char in
      hashString_from (bor hash 0) str'
  end.

(** [hashString (str)] *)
Definition hashString (str : string) : Z := hashString_from 0 str.

(** One call of the closure returned by [seededRandom]: the number
    returned and the new value of the captured [seed]. *)
Definition mulberry32 (seed : Z) : Q * Z :=
  let seed := bor seed 0 in
  let seed := bor (seed + 1831565813) 0 in
  let t := imul (bxor seed (ushr seed 15)) (bor 1 seed) in
  let t := bxor (t + imul (bxor t (ushr t 7)) (bor 61 t)) t in
  (Qmake (ushr (bxor t (ushr t 14)) 0) 4294967296, seed).

(** The function bound to [random]: the seeded closure with its captured
    state, or [Math.random], of which the successive results are given
    by [draws]. *)
Inductive Random :=
| Seeded (seed : Z)
| MathRandom (draws : nat -> Q) (calls : nat).

(** [seededRandom (seed)] *)
Definition seededRandom (seed : Seed) : Random :=
  Seeded (match seed with
          | SeedString s => hashString s
          | SeedNumber n => n
          end).

(** [random ()] *)
Definition call (random : Random) : Q * Random :=
  match random with
  | Seeded seed => let (r, seed') := mulberry32 seed in (r, Seeded seed')
  | MathRandom draws n => (draws n, MathRandom draws (S n))
  end.

(** [seed ? seededRandom (seed) : Math.random] *)
Definition randomSource (seed : option Seed) (ambient : nat -> Q) : Random :=
  match seed with
  | Some s => if truthy seed then seededRandom s else MathRandom ambient 0
  | None => MathRandom ambient 0
  end.

End Rng.

(** ** Sealed-pool generators *)

Module Sealed.
Import Js Range Classifier Rng.

(** The generator's local state: the [random] function and the [pool]
    array, whose elements may be [undefined]. *)
Record Gen := { random : Random; pool : list (option Card) }.

(** [pickRandom (arr, random)] *)
Definition pickRandom (arr : list Card) (random : Random)
  : option Card * Random :=
  let (r, random') := call random in
  (index arr (Some (Qfloor (r * inject_Z (Z.of_nat (length arr))))), random').

(** [pool.push (pickRandom (arr, random))] *)
Definition pushPick (arr : list Card) (st : Gen) : Gen :=
  let (card, random') := pickRandom arr (random st) in
  {| random := random'; pool := pool st ++ [card] |}.

(** [if (arr.length > 0) pool.push (pickRandom (arr, random))] *)
Definition pushIfAny (arr : list Card) (st : Gen) : Gen :=
  if (0 <? length arr)%nat then pushPick arr st else st.

Record ByRarity := {
  common : list Card;
  uncommon : list Card;
  rare : list Card;
  mythic : list Card
}.

Definition hasRarity (r : string) (c : Card) : bool := String.eqb (rarity c) r.

Definition groupByRarity (cards : list Card) : ByRarity :=
  {| common := List.filter (hasRarity "common") cards;
     uncommon := List.filter (hasRarity "uncommon") cards;
     rare := List.filter (hasRarity "rare") cards;
     mythic := List.filter (hasRarity "mythic") cards |}.

(** The rare-or-mythic draw that opens each pack; [chance] is the
    constant the draw is compared with. *)
Definition rareSlot (chance : Q) (byRarity : ByRarity) (st : Gen) : Gen :=
  let (r, random') := call (random st) in
  let isMythic := Qltb r chance && (0 <? length (mythic byRarity))%nat in
  let rarePool := if isMythic then mythic byRarity else rare byRarity in
  pushIfAny rarePool {| random := random'; pool := pool st |}.

(** One iteration of the pack loop. *)
Definition legacyPack (chance : Q) (byRarity : ByRarity) (st : Gen) : Gen :=
  let st := rareSlot chance byRarity st in
  let st := Nat.iter 3 (pushIfAny (uncommon byRarity)) st in
  Nat.iter 10 (pushIfAny (common byRarity)) st.

Definition generateSealedPoolWith (chance : Q) (cards : list Card)
  (seed : option Seed) (ambient : nat -> Q) : list (option Card) :=
  let random := randomSource seed ambient in
  let byRarity := groupByRarity cards in
  pool (Nat.iter 6 (legacyPack chance byRarity) {| random := random; pool := [] |}).

(** [generateSealedPool (cards, seed = null)], the legacy generator. *)
Definition generateSealedPool := generateSealedPoolWith (1 # 8).

(** The value of the expression [(1/7)]: the double nearest to one
    seventh, [0x1.2492492492492p-3]. *)
Definition oneSeventh : Q := 2573485501354569 # 18014398509481984.

(** The copy of [generateSealedPool] in [src/shared/mtg.js], which
    compares the draw with [(1/7)]. *)
Definition generateSealedPool_shared := generateSealedPoolWith oneSeventh.

(** *** Booster data *)

Record BoosterSlot := {
  name : option string;
  count : option nat;
  rarities : option (list string);
  mythicRate : option Q;
  slotPool : option (list (string * list string))  (* slot.pool: finish -> ranges *)
}.

Record BoosterFile := {
  setName : string;
  source : string;
  slots : option (list BoosterSlot)
}.

Record BoosterIndex := {
  version : string;
  boosters : gmap string (list string)
}.

(** What [loadBoosterIndex] and [loadBoosterFile] resolve to: the index
    and the files by cache key [setCode + '-' + boosterType]. *)
Record BoosterData := {
  boosterIndex : BoosterIndex;
  boosterFiles : gmap string BoosterFile
}.

Definition loadBoosterFile (data : BoosterData) (setCode boosterType : string)
  : option BoosterFile :=
  let key := (setCode ++ "-" ++ boosterType)%string in
  boosterFiles data !! key.

(** All ranges of a slot's pool: [Object.values (slot.pool)], spread. *)
Definition slotRanges (p : list (string * list string)) : list string :=
  concat (map snd p).

Definition inRanges (ranges : list string) (card : Card) : bool :=
  existsb (fun range => isInRange (collector_number card) range) ranges.

(** The "add unique cards" loop. *)
Definition addUnique (matching bucket : list Card) : list Card :=
  fold_left
    (fun bucket card =>
       if existsb (fun c => String.eqb (id c) (id card)) bucket
       then bucket else bucket ++ [card])
    matching bucket.

(** The body of [for (const rarity of slot.rarities)]. *)
Definition addRarity (cards : list Card) (ranges : list string)
  (byRarity : gmap string (list Card)) (rarity_ : string)
  : gmap string (list Card) :=
  let byRarity :=
    match byRarity !! rarity_ with
    | None => <[rarity_ := []]> byRarity
    | Some _ => byRarity
    end in
  let matching :=
    List.filter (fun card => hasRarity rarity_ card && inRanges ranges card)
      cards in
  <[rarity_ := addUnique matching (default [] (byRarity !! rarity_))]> byRarity.

(** [cardsByRarityInPool] *)
Definition cardsByRarityInPool (cards : list Card) (slots : list BoosterSlot)
  : gmap string (list Card) :=
  fold_left
    (fun byRarity slot =>
       match slotPool slot, rarities slot with
       | Some p, Some rs => fold_left (addRarity cards (slotRanges p)) rs byRarity
       | _, _ => byRarity
       end)
    slots ∅.

(** [allInPool] *)
Definition allInPool (cards : list Card) (slots : list BoosterSlot)
  : list Card :=
  List.filter
    (fun card =>
       existsb
         (fun slot =>
            match slotPool slot with
            | None => false
            | Some p => inRanges (slotRanges p) card
            end)
         slots)
    cards.

(** [card = pickRandom (arr, random)] guarded by [arr.length > 0]. *)
Definition pickIfAny (arr : list Card) (random : Random)
  : option Card * Random :=
  if (0 <? length arr)%nat then pickRandom arr random else (None, random).

(** The rarity of one card of a slot that declares rarities. *)
Definition chooseRarity (byRarity : gmap string (list Card))
  (slot : BoosterSlot) (rs : list string) (random : Random)
  : string * Random :=
  if includes "mythic" rs && includes "rare" rs then
    let rate := default (1 # 8) (mythicRate slot) in
    let hasMythics := (0 <? length (default [] (byRarity !! "mythic")))%nat in
    if hasMythics then
      let (r, random') := call random in
      (if Qltb r rate then "mythic" else "rare", random')
    else ("rare", random)
  else
    let (r, random') := call random in
    let i := Qfloor (r * inject_Z (Z.of_nat (length rs))) in
    (default "undefined" (index rs (Some i)), random').

(** The body of [for (let i = 0; i < count; i++)]. *)
Definition drawItem (byRarity : gmap string (list Card))
  (inPool : list Card) (slot : BoosterSlot)
  (p : list (string * list string)) (st : Gen) : Gen :=
  let (card, random') :=
    match rarities slot with
    | Some rs =>
        let (rarity_, random1) := chooseRarity byRarity slot rs (random st) in
        let rarityPool := default [] (byRarity !! rarity_) in
        pickIfAny rarityPool random1
    | None =>
        let slotCards := List.filter (inRanges (slotRanges p)) inPool in
        pickIfAny slotCards (random st)
    end in
  {| random := random';
     pool := match card with
             | Some c => pool st ++ [Some c]
             | None => pool st
             end |}.

(** The body of [for (const slot of boosterFile.slots)]. *)
Definition fillSlot (byRarity : gmap string (list Card))
  (inPool : list Card) (st : Gen) (slot : BoosterSlot) : Gen :=
  match slotPool slot, count slot with
  | Some p, Some (S _ as n) => Nat.iter n (drawItem byRarity inPool slot p) st
  | _, _ => st
  end.

Definition structuredPack (byRarity : gmap string (list Card))
  (inPool : list Card) (slots : list BoosterSlot) (st : Gen) : Gen :=
  fold_left (fillSlot byRarity inPool) slots st.

(** [generateSealedPoolFromBoosterData (setCode, cards, numPacks = 6,
    seed = null)] *)
Definition generateSealedPoolFromBoosterData (data : BoosterData)
  (setCode : string) (cards : list Card) (numPacks : nat)
  (seed : option Seed) (ambient : nat -> Q) : list (option Card) :=
  let random := randomSource seed ambient in
  match boosters (boosterIndex data) !! setCode with
  | None => generateSealedPool cards seed ambient
  | Some types =>
      let boosterType :=
        if includes "play" types then Some "play"
        else if includes "draft" types then Some "draft" else None in
      match boosterType with
      | None => generateSealedPool cards seed ambient
      | Some boosterType =>
          match loadBoosterFile data setCode boosterType ≫= slots with
          | None => generateSealedPool cards seed ambient
          | Some slots =>
              let byRarity := cardsByRarityInPool cards slots in
              let inPool := allInPool cards slots in
              pool (Nat.iter numPacks (structuredPack byRarity inPool slots)
                      {| random := random; pool := [] |})
          end
      end
  end.

(** *** Vocabulary of the statements *)

(** A result of [random ()] lies in the unit interval. *)
Definition unitDraw (r : Q) : Prop := (0 <= r)%Q /\ (r < 1)%Q.

(** Every result of the function bound to [random] lies in the unit
    interval: an assumption on [Math.random], a fact for the seeded
    closure. *)
Definition unitSource (random : Random) : Prop :=
  match random with
  | Seeded _ => True
  | MathRandom draws _ => forall n, unitDraw (draws n)
  end.

(** The pool element [v] is one of the cards of [bucket]. *)
Definition drawnFrom (bucket : list Card) (v : option Card) : Prop :=
  exists c, v = Some c /\ In c bucket.

(** The invariant of the legacy loops: the source stays in the unit
    interval and the pool holds cards of the catalogue only. *)
Definition legacyInvariant (cards : list Card) (st : Gen) : Prop :=
  unitSource (random st) /\ Forall (drawnFrom cards) (pool st).

(** The invariant of the structured branch's table: every bucket holds
    cards of the catalogue only. *)
Definition bucketsWithin (cards : list Card)
  (byRarity : gmap string (list Card)) : Prop :=
  map_Forall (fun _ bucket => incl bucket cards) byRarity.

End Sealed.

(** ** Daily seed and daily set *)

Module Daily.
Import Js.

Record MtgSet := {
  code : string;
  released : option string
}.

(** A [Date]: the text [toISOString] returns, or none for an invalid
    date, on which [toISOString] throws. *)
Record Date := { isoString : option string }.

Definition toISOString (date : Date) : Completion string :=
  match isoString date with
  | Some s => Normal s
  | None => Throw RangeError
  end.

(** [getDailySeed (date)] *)
Definition getDailySeed (date : Date) : Completion string :=
  match toISOString date with
  | Throw e => Throw e
  | Normal iso =>
      let dateStr := default "undefined" (head (split "T" iso)) in
      Normal ("daily-" ++ dateStr)%string
  end.

Fixpoint hashDate_from (hash : Z) (dateStr : string) : Z :=
  match dateStr with
  | EmptyString => hash
  | String c dateStr' =>
      let hash := (shl hash 5 - hash) + charCode c in
      hashDate_from (bor hash 0) dateStr'
  end.

(** [hashDate (dateStr)] *)
Definition hashDate (dateStr : string) : Z := abs (hashDate_from 0 dateStr).

(** [s.released && s.released >= '2020-01-01'] *)
Definition isRecent (s : MtgSet) : bool :=
  match released s with
  | Some r => negb (String.eqb r "") && String.leb "2020-01-01" r
  | None => false
  end.

(** [pickDailySet (sets, date = new Date ())]; [now] is what [new Date ()]
    would give. *)
Definition pickDailySet (now : Date) (sets : list MtgSet) (date : option Date)
  : Completion (option MtgSet) :=
  let date := default now date in
  match getDailySeed date with
  | Throw e => Throw e
  | Normal seed =>
      let dateStr := replace "daily-" "" seed in
      let recentSets := List.filter isRecent sets in
      let dayIndex := rem (hashDate dateStr) (Z.of_nat (length recentSets)) in
      Normal (index recentSets dayIndex)
  end.

End Daily.

(** ** Sample data used by the examples *)

Module Samples.
Import Js Classifier Retry Rng Sealed Daily.

Definition extendedArtCard (cn : string) : Card :=
  {| id := "card-1"; collector_number := cn; rarity := "rare";
     promo_types := None; frame_effects := Some ["extendedart"];
     booster := false |}.

Definition plainCard (cn : string) : Card :=
  {| id := "card-2"; collector_number := cn; rarity := "rare";
     promo_types := None; frame_effects := None; booster := true |}.

Definition sampleConfig : SetConfig :=
  {| playBooster := Some {| includeCollectorNumbers := Some ["1-261"; "342"] |};
     collectorExclusive := Some {| collectorNumbers := Some ["300-341"] |} |}.

Definition searchUrl : string := "https://api.scryfall.com/cards/search?q=set%3Amkm".

Definition idle : World := {| fetched := 0; trace := [] |}.

(** Three rate-limit responses, then the page of cards. *)
Definition rateLimitedThrice (k : nat) : Response string :=
  if (k <? 3)%nat then HttpResponse 429 (Throw (Rejected "no body"))
  else HttpResponse 200 (Normal "cards").

(** One rate-limit response, then server errors. *)
Definition rateLimitedThenFailing (k : nat) : Response string :=
  if (k <? 1)%nat then HttpResponse 429 (Throw (Rejected "no body"))
  else HttpResponse 500 (Throw (Rejected "no body")).

(** Rate-limit responses for ever. *)
Definition alwaysRateLimited (k : nat) : Response string :=
  HttpResponse 429 (Throw (Rejected "no body")).

Definition newYear2024 : Date := {| isoString := Some "2024-01-01T10:30:00.000Z" |}.

Definition invalidDate : Date := {| isoString := None |}.

Definition oldSets : list MtgSet :=
  [ {| code := "eld"; released := Some "2019-10-04" |};
    {| code := "m20"; released := Some "2019-07-12" |} ].

Definition mixedSets : list MtgSet :=
  [ {| code := "eld"; released := Some "2019-10-04" |};
    {| code := "znr"; released := Some "2020-09-25" |};
    {| code := "mkm"; released := Some "2024-02-09" |} ].

Definition sampleCard (i cn r : string) : Card :=
  {| id := i; collector_number := cn; rarity := r;
     promo_types := None; frame_effects := None; booster := true |}.

Definition sampleCatalog : list Card :=
  [ sampleCard "c1" "1" "common"; sampleCard "c2" "2" "common";
    sampleCard "u1" "3" "uncommon"; sampleCard "r1" "4" "rare";
    sampleCard "m1" "5" "mythic"; sampleCard "r2" "6" "rare" ].

Definition zeros (n : nat) : Q := 0%Q.
Definition halves (n : nat) : Q := (1 # 2)%Q.
Definition sevenths (n : nat) : Q := (13 # 100)%Q.

Definition rareMythicSlot : BoosterSlot :=
  {| name := Some "rare"; count := Some 1%nat;
     rarities := Some ["rare"; "mythic"]; mythicRate := None;
     slotPool := Some [("nonfoil", ["1-10"])] |}.

Definition wildcardSlot : BoosterSlot :=
  {| name := Some "wildcard"; count := Some 2%nat;
     rarities := None; mythicRate := None;
     slotPool := Some [("nonfoil", ["1-3"]); ("foil", ["5"])] |}.

Definition sampleBoosterData : BoosterData :=
  {| boosterIndex :=
       {| version := "1.0.0";
          boosters := <["mkm" := ["play"; "collector"]]> ∅ |};
     boosterFiles :=
       <["mkm-play" := {| setName := "Murders at Karlov Manor";
                          source := "booster-data";
                          slots := Some [rareMythicSlot; wildcardSlot] |}]> ∅ |}.

End Samples.

(** ** Vocabulary of the statements on the legacy generator *)

Module LegacySpec.
Import Js Classifier Rng Sealed.

(** The pool element [v] is a card of the catalogue whose rarity is one
    of [rs]. *)
Definition dealt (cards : list Card) (rs : list string) (v : option Card)
  : Prop :=
  exists c, v = Some c /\ In c cards /\ In (rarity c) rs.

(** What one pack adds to the pool when no draw is skipped: one rare or
    mythic card, then three uncommons, then ten commons. *)
Definition fullPack (cards : list Card) (pack : list (option Card)) : Prop :=
  exists r us cs,
    pack = r :: us ++ cs /\
    dealt cards ["rare"; "mythic"] r /\
    length us = 3%nat /\ Forall (dealt cards ["uncommon"]) us /\
    length cs = 10%nat /\ Forall (dealt cards ["common"]) cs.

(** The generator's local state when pack [k] begins, that is after [k]
    iterations of [for (let pack = 0; pack < 6; pack++)]; [chance] is the
    constant the copy at hand compares the draw with. *)
Definition packStart (chance : Q) (cards : list Card) (seed : option Seed)
  (ambient : nat -> Q) (k : nat) : Gen :=
  Nat.iter k (legacyPack chance (groupByRarity cards))
    {| random := randomSource seed ambient; pool := [] |}.

(** The function bound to [random] once it has been called [n] more
    times. *)
Definition advance (n : nat) (random : Random) : Random :=
  Nat.iter n (fun random => snd (call random)) random.

End LegacySpec.

(** A catalogue's booster data when the booster file failed to load:
    the index lists the set, [loadBoosterFile] resolves to [null]. *)
Module LoadSamples.
Import Sealed Samples.

Definition fileNotLoaded : BoosterData :=
  {| boosterIndex := boosterIndex sampleBoosterData; boosterFiles := ∅ |}.

End LoadSamples.

(** ** Booster eras *)

Module Era.
Import Js.

Definition COLLECTOR_BOOSTER_START : string := "2019-10-04".
Definition SET_BOOSTER_START : string := "2020-09-25".
Definition PLAY_BOOSTER_START : string := "2024-02-09".
Definition FOIL_START : string := "1999-02-15".

Definition JUMPSTART_SETS : list string := ["jmp"; "j22"; "j25"].

(** [a >= b] on strings: the code units are compared in order. *)
Definition geString (a b : string) : bool := String.leb b a.

(** [getBoosterEra (releaseDate)] *)
Definition getBoosterEra (releaseDate : string) : string :=
  if geString releaseDate PLAY_BOOSTER_START then "play"
  else if geString releaseDate SET_BOOSTER_START then "set"
  else if geString releaseDate COLLECTOR_BOOSTER_START then "collector-era"
  else "draft".

(** [hasCollectorBoosters (releaseDate)] *)
Definition hasCollectorBoosters (releaseDate : string) : bool :=
  geString releaseDate COLLECTOR_BOOSTER_START.

(** [hasFoils (releaseDate)] *)
Definition hasFoils (releaseDate : string) : bool :=
  geString releaseDate FOIL_START.

(** [isJumpstartSet (setCode)] *)
Definition isJumpstartSet (setCode : string) : bool :=
  includes setCode JUMPSTART_SETS.

(** [getAvailableBoosterTypes (setCode, releaseDate)] *)
Definition getAvailableBoosterTypes (setCode releaseDate : string)
  : list string :=
  if includes setCode JUMPSTART_SETS then ["jumpstart"]
  else if geString releaseDate PLAY_BOOSTER_START then ["play"; "collector"]
  else if geString releaseDate COLLECTOR_BOOSTER_START
       then ["draft"; "collector"]
  else ["draft"].

(** The place of an era in the order draft, collector-era, set, play. *)
Definition eraRank (era : string) : nat :=
  if String.eqb era "play" then 3
  else if String.eqb era "set" then 2
  else if String.eqb era "collector-era" then 1
  else 0.

End Era.

(** ** Vocabulary for the outcome of [fetchWithRetry] *)

Module RetryOutcome.
Import Js Retry.

(** The data a response makes [fetchWithRetry] return, if any: its status
    is ok and its [json ()] resolves. *)
Definition success {Data : Type} (r : Response Data) : option Data :=
  match r with
  | HttpResponse status (Normal d) =>
      if status =? 429 then None else if ok status then Some d else None
  | _ => None
  end.

(** The response is a rate-limit signal. *)
Definition rateLimited {Data : Type} (r : Response Data) : bool :=
  match r with
  | HttpResponse status _ => status =? 429
  | FetchRejected _ => false
  end.

End RetryOutcome.

(** ** Set configuration derived from the booster data *)

Module Config.
Import Js Classifier Sealed.

(** [[...new Set (arr)]]: the first occurrence of each element, in
    order. *)
Definition dedupe (arr : list string) : list string :=
  fold_left (fun seen x => if includes x seen then seen else seen ++ [x])
    arr [].

(** [pool[finish]] in an object given by its entries (each key once). *)
Definition finishOf (finish : string) (p : list (string * list string))
  : option (list string) :=
  snd <$> List.find (fun entry => String.eqb (fst entry) finish) p.

(** [slot.pool?.[finish]] *)
Definition slotFinish (finish : string) (slot : BoosterSlot)
  : option (list string) :=
  slotPool slot ≫= finishOf finish.

(** What one slot adds to [playRanges]. *)
Definition slotPlayRanges (slot : BoosterSlot) : list string :=
  default [] (slotFinish "nonfoil" slot) ++ default [] (slotFinish "foil" slot).

(** What one slot adds to [collectorRanges]. *)
Definition slotCollectorRanges (slot : BoosterSlot) : list string :=
  match name slot, slotPool slot with
  | Some n, Some p =>
      if String.eqb n "collectorExclusive" then slotRanges p else []
  | _, _ => []
  end.

(** The object [fetchSetConfig] builds: [name], [source] and the two
    range fields read by the classifier. *)
Record LoadedConfig := {
  configName : string;
  configSource : string;
  configRanges : SetConfig
}.

(** The [TypeError] of [for (const slot of file.slots)] on a file
    without [slots]; as the functions are [async] it is a rejection. *)
Definition slotsNotIterable : Error := Rejected "file.slots is not iterable".

(** The part of [fetchSetConfig] under [if (types.includes ('collector'))]:
    the value of [config.collectorExclusive]. *)
Definition loadCollectorExclusive (data : BoosterData) (setCode : string)
  : Completion (option CollectorExclusive) :=
  match loadBoosterFile data setCode "collector" with
  | None => Normal None
  | Some collectorFile =>
      match slots collectorFile with
      | None => Throw slotsNotIterable
      | Some sl =>
          let collectorRanges := flat_map slotCollectorRanges sl in
          if (0 <? length collectorRanges)%nat
          then Normal (Some {| collectorNumbers := Some (dedupe collectorRanges) |})
          else Normal None
      end
  end.

(** [fetchSetConfig (setCode)] *)
Definition fetchSetConfig (data : BoosterData) (setCode : string)
  : Completion (option LoadedConfig) :=
  match boosters (boosterIndex data) !! setCode with
  | None => Normal None
  | Some types =>
      let playType :=
        if includes "play" types then Some "play"
        else if includes "draft" types then Some "draft" else None in
      match playType with
      | None => Normal None
      | Some playType =>
          match loadBoosterFile data setCode playType with
          | None => Normal None
          | Some playFile =>
              match slots playFile with
              | None => Throw slotsNotIterable
              | Some sl =>
                  let playRanges := flat_map slotPlayRanges sl in
                  let play :=
                    {| includeCollectorNumbers := Some (dedupe playRanges) |} in
                  let config (exclusive : option CollectorExclusive) :=
                    {| configName := setName playFile;
                       configSource := source playFile;
                       configRanges :=
                         {| playBooster := Some play;
                            collectorExclusive := exclusive |} |} in
                  if includes "collector" types then
                    match loadCollectorExclusive data setCode with
                    | Throw e => Throw e
                    | Normal exclusive => Normal (Some (config exclusive))
                    end
                  else Normal (Some (config None))
              end
          end
      end
  end.

(** The body of the loop over [Object.entries (slot.pool)] in
    [getBoosterPools]. *)
Definition addFinish (pools : gmap string (list string))
  (entry : string * list string) : gmap string (list string) :=
  let (finish, ranges) := entry in
  <[finish := default [] (pools !! finish) ++ ranges]> pools.

(** [getBoosterPools (setCode, boosterType)] *)
Definition getBoosterPools (data : BoosterData) (setCode boosterType : string)
  : Completion (option (gmap string (list string))) :=
  match loadBoosterFile data setCode boosterType with
  | None => Normal None
  | Some boosterFile =>
      match slots boosterFile with
      | None => Throw slotsNotIterable
      | Some sl =>
          let pools :=
            fold_left
              (fun pools slot =>
                 match slotPool slot with
                 | None => pools
                 | Some p => fold_left addFinish p pools
                 end)
              sl ∅ in
          Normal (Some (dedupe <$> pools))
      end
  end.

(** [getBoosterTypes (setCode)] *)
Definition getBoosterTypes (data : BoosterData) (setCode : string)
  : list string :=
  default [] (boosters (boosterIndex data) !! setCode).

(** [hasBoosterData (setCode)] *)
Definition hasBoosterData (data : BoosterData) (setCode : string) : bool :=
  bool_decide (is_Some (boosters (boosterIndex data) !! setCode)).

End Config.

(** ** Vocabulary for the statements about the configuration *)

Module ConfigSpec.
Import Js Classifier Sealed Config.

(** The booster type [fetchSetConfig] and the structured generator read
    the slots of: play if listed, else draft. *)
Definition playTypeOf (types : list string) : option string :=
  if includes "play" types then Some "play"
  else if includes "draft" types then Some "draft" else None.

(** The slots of the play (or draft) file of a set, when the index lists
    the set, the file is loaded and it has slots. *)
Definition playSlots (data : BoosterData) (setCode : string)
  : option (list BoosterSlot) :=
  boosters (boosterIndex data) !! setCode ≫= fun types =>
  playTypeOf types ≫= fun playType =>
  loadBoosterFile data setCode playType ≫= slots.

(** All entries [finish, ranges] of the pools of a list of slots. *)
Definition poolEntries (sl : list BoosterSlot) : list (string * list string) :=
  flat_map (fun slot => default [] (slotPool slot)) sl.

(** The ranges listed under [finish], over all entries, in order. *)
Definition rangesUnder (finish : string) (entries : list (string * list string))
  : list string :=
  flat_map (fun entry => if String.eqb (fst entry) finish then snd entry else [])
    entries.

Definition hasFinish (finish : string) (entries : list (string * list string))
  : bool :=
  existsb (fun entry => String.eqb (fst entry) finish) entries.

End ConfigSpec.

(** ** More sample data *)

Module MoreSamples.
Import Js Classifier Sealed Config.

Definition showcaseSlot : BoosterSlot :=
  {| name := Some "collectorExclusive"; count := Some 1%nat;
     rarities := None; mythicRate := None;
     slotPool := Some [("foil", ["300-341"; "400"]); ("etched", ["400"])] |}.

Definition commonSlot : BoosterSlot :=
  {| name := Some "common"; count := Some 2%nat;
     rarities := Some ["common"]; mythicRate := None;
     slotPool := Some [("nonfoil", ["1-3"]); ("foil", ["1-3"; "6"])] |}.

Definition notesSlot : BoosterSlot :=
  {| name := Some "notes"; count := None; rarities := None;
     mythicRate := None; slotPool := None |}.

Definition fullBoosterData : BoosterData :=
  {| boosterIndex :=
       {| version := "1.0.0";
          boosters := <["mkm" := ["play"; "collector"]]>
                        (<["mh2" := ["draft"]]> ∅) |};
     boosterFiles :=
       <["mkm-play" := {| setName := "Murders at Karlov Manor";
                          source := "booster-data";
                          slots := Some [Samples.rareMythicSlot; commonSlot;
                                         notesSlot] |}]>
       (<["mkm-collector" := {| setName := "Murders at Karlov Manor";
                                source := "booster-data";
                                slots := Some [showcaseSlot] |}]>
       (<["mh2-draft" := {| setName := "Modern Horizons 2";
                            source := "booster-data";
                            slots := None |}]> ∅)) |}.

(** What [fetchSetConfig] gives for the sample set. *)
Definition mkmConfig : LoadedConfig :=
  {| configName := "Murders at Karlov Manor";
     configSource := "booster-data";
     configRanges :=
       {| playBooster :=
            Some {| includeCollectorNumbers := Some ["1-10"; "1-3"; "6"] |};
          collectorExclusive :=
            Some {| collectorNumbers := Some ["300-341"; "400"] |} |} |}.

(** What the loaders give for a play file made of the common slot. *)
Definition mkmConfigCommons : LoadedConfig :=
  {| configName := "Murders at Karlov Manor";
     configSource := "booster-data";
     configRanges :=
       {| playBooster :=
            Some {| includeCollectorNumbers := Some ["1-3"; "6"] |};
          collectorExclusive :=
            Some {| collectorNumbers := Some ["300-341"; "400"] |} |} |}.

End MoreSamples.

(** ** Card acquisition *)

Module Acquire.
Import Js Classifier Retry Sealed Era Config.

Definition SCRYFALL_API : string := "https://api.scryfall.com".

(** One page of search results: [data], [has_more], [next_page]. *)
Record Page := {
  data : option (list Card);
  has_more : bool;
  next_page : option string
}.

(** An integer-valued number as a string. *)
Definition numberToString (n : Z) : string :=
  NilZero.string_of_int (Z.to_int n).

(** [error.message] *)
Definition message (e : Error) : string :=
  match e with
  | HttpError status => ("HTTP " ++ numberToString status)%string
  | Rejected reason => reason
  | RangeError => "Invalid time value"
  end.

(** The [TypeError] of reading [data.data] when [fetchWithRetry]
    returned [undefined]. *)
Definition dataOfUndefined : Error :=
  Rejected "Cannot read properties of undefined (reading 'data')".

(** [data.data || []] *)
Definition pageCards (p : Page) : list Card := default [] (data p).

(** [data.has_more && data.next_page]: the next address, when truthy. *)
Definition nextPage (p : Page) : option string :=
  if has_more p then
    match next_page p with
    | Some next => if String.eqb next "" then None else Some next
    | None => None
    end
  else None.

(** The [while (data.has_more && data.next_page)] loop; it ends with the
    cards gathered so far and the error thrown, if any.  [fuel] bounds
    the number of further pages; [None] is out of fuel. *)
Fixpoint morePages (fuel : nat) (net : nat -> Response Page) (page : Page)
  (cards : list Card) (w : World)
  : option (list Card * option Error * World) :=
  match nextPage page with
  | None => Some (cards, None, w)
  | Some next =>
      match fuel with
      | O => None
      | S fuel' =>
          match fetchWithRetry net next 3 (delay 100 w) with
          | (Throw e, w') => Some (cards, Some e, w')
          | (Normal None, w') => Some (cards, Some dataOfUndefined, w')
          | (Normal (Some page'), w') =>
              morePages fuel' net page' (cards ++ pageCards page') w'
          end
      end
  end.

(** The body of the [try] block shared by [fetchSetCards] and
    [fetchAllSetCards]. *)
Definition fetchPages (fuel : nat) (net : nat -> Response Page) (url : string)
  (w : World) : option (list Card * option Error * World) :=
  match fetchWithRetry net url 3 w with
  | (Throw e, w') => Some ([], Some e, w')
  | (Normal None, w') => Some ([], Some dataOfUndefined, w')
  | (Normal (Some page), w') => morePages fuel net page (pageCards page) w'
  end.

(** [catch (error) { if (error.message !== 'HTTP 404') throw error; }],
    after which [cards] is what was gathered. *)
Definition catch404 (cards : list Card) (error : option Error)
  : Completion (list Card) :=
  match error with
  | None => Normal cards
  | Some e => if String.eqb (message e) "HTTP 404" then Normal cards else Throw e
  end.

(** [setConfig?.playBooster?.includeCollectorNumbers], as a condition. *)
Definition hasSetConfig (setConfig : option SetConfig) : bool :=
  match (setConfig ≫= playBooster) ≫= includeCollectorNumbers
        : option (list string) with
  | Some _ => true
  | None => false
  end.

(** The filter at the end of [fetchAllSetCards]. *)
Definition filterForBooster (boosterType : string)
  (setConfig : option SetConfig) (cards : list Card) : list Card :=
  if negb (String.eqb boosterType "collector") then
    if hasSetConfig setConfig then
      List.filter
        (fun card =>
           match isInPlayBooster card setConfig with
           | Some true => true
           | _ =>
               match isCollectorExclusiveByConfig card setConfig with
               | Some true => false
               | _ => booster card && negb (isCollectorExclusive card None)
               end
           end)
        cards
    else List.filter (fun card => negb (isCollectorExclusive card None)) cards
  else cards.

Section WithEncoder.
(** [encodeURIComponent], a function of the platform. *)
Variable encodeURIComponent : string -> string.

(** The address [fetchAllSetCards] asks first. *)
Definition allSetCardsUrl (setConfig : option SetConfig)
  (setCode boosterType : string) : string :=
  let query := ("set:" ++ setCode ++ " lang:en")%string in
  let query :=
    if negb (hasSetConfig setConfig)
       && negb (String.eqb boosterType "collector")
       && negb (includes setCode JUMPSTART_SETS)
    then (query ++ " is:booster")%string else query in
  (SCRYFALL_API ++ "/cards/search?q=" ++ encodeURIComponent query
   ++ "&unique=prints")%string.

(** [fetchAllSetCards (setCode, boosterType = 'play')] *)
Definition fetchAllSetCards (fuel : nat) (boosterData : BoosterData)
  (net : nat -> Response Page) (setCode boosterType : string) (w : World)
  : option (Completion (list Card) * World) :=
  match fetchSetConfig boosterData setCode with
  | Throw e => Some (Throw e, w)
  | Normal loaded =>
      let setConfig := configRanges <$> loaded in
      let url := allSetCardsUrl setConfig setCode boosterType in
      match fetchPages fuel net url w with
      | None => None
      | Some (cards, error, w') =>
          match catch404 cards error with
          | Throw e => Some (Throw e, w')
          | Normal cards =>
              Some (Normal (filterForBooster boosterType setConfig cards), w')
          end
      end
  end.

End WithEncoder.

(** *** Vocabulary of the statements *)

(** From fetch number [start] on, the network answers the successive
    requests with the pages of [pages], each with an ok status. *)
Definition serves (net : nat -> Response Page) (start : nat)
  (pages : list Page) : Prop :=
  forall k page, pages !! k = Some page ->
                 RetryOutcome.success (net (start + k)%nat) = Some page.

(** Every page but the last announces a next page. *)
Fixpoint chained (pages : list Page) : Prop :=
  match pages with
  | [] => False
  | [page] => nextPage page = None
  | page :: rest => nextPage page <> None /\ chained rest
  end.

End Acquire.

(** ** Sample network *)

Module NetSamples.
Import Js Classifier Retry Sealed Config Acquire.

Definition firstPage : Page :=
  {| data := Some [Samples.sampleCard "c1" "1" "common";
                   Samples.extendedArtCard "6"];
     has_more := true;
     next_page := Some "https://api.scryfall.com/cards/search?page=2" |}.

Definition lastPage : Page :=
  {| data := Some [Samples.extendedArtCard "280"; Samples.plainCard "7"];
     has_more := false; next_page := None |}.

(** Two pages, served at once. *)
Definition twoPages (k : nat) : Response Page :=
  match k with
  | O => HttpResponse 200 (Normal firstPage)
  | _ => HttpResponse 200 (Normal lastPage)
  end.

(** The set is unknown to the provider. *)
Definition notFound (k : nat) : Response Page :=
  HttpResponse 404 (Throw (Rejected "no body")).

(** The provider rate-limits every request. *)
Definition throttled (k : nat) : Response Page :=
  HttpResponse 429 (Throw (Rejected "no body")).

(** One page, then the provider loses the next one. *)
Definition secondPageLost (k : nat) : Response Page :=
  match k with
  | O => HttpResponse 200 (Normal firstPage)
  | _ => HttpResponse 404 (Throw (Rejected "no body"))
  end.

Definition encode (query : string) : string := query.

End NetSamples.

(** ** Priced search and Special Guests *)

Module Guests.
Import Js Classifier Retry Sealed Era Config Acquire.

Definition SPECIAL_GUESTS_RANGES : gmap string (Z * Z) :=
  list_to_map
    [("lci", (1, 18)); ("mkm", (19, 28)); ("otj", (29, 38));
     ("mh3", (39, 53)); ("blb", (54, 63)); ("dsk", (64, 73));
     ("fdn", (74, 83)); ("dft", (84, 103)); ("tdm", (104, 118));
     ("eoe", (119, 128)); ("fin", (129, 148))].

Definition SETS_WITH_BIG_SCORE : list string := ["otj"].

(** [SETS_WITH_SPECIAL_GUESTS.has (setCode)]: the keys of the ranges. *)
Definition hasSpecialGuests (setCode : string) : bool :=
  bool_decide (is_Some (SPECIAL_GUESTS_RANGES !! setCode)).

(** The price clause appended to a query when [minPrice > 0]; prices are
    whole numbers here. *)
Definition priceClause (minPrice : Z) : string :=
  if 0 <? minPrice
  then (" (usd>=" ++ numberToString minPrice ++ " OR usd_foil>="
        ++ numberToString minPrice ++ ")")%string
  else "".

(** One [try { ... } catch (e) { }] block of [fetchSpecialGuestsCards]:
    the cards of the first page, or nothing on any error. *)
Definition firstPageOrNothing (net : nat -> Response Page) (url : string)
  (w : World) : list Card * World :=
  match fetchWithRetry net url 3 w with
  | (Normal (Some page), w') => (pageCards page, w')
  | (Normal None, w') => ([], w')
  | (Throw _, w') => ([], w')
  end.

Section WithEncoder.
Variable encodeURIComponent : string -> string.

Definition searchUrl (query : string) : string :=
  (SCRYFALL_API ++ "/cards/search?q=" ++ encodeURIComponent query)%string.

(** [fetchSpecialGuestsCards (setCode, minPrice = 0)] *)
Definition fetchSpecialGuestsCards (net : nat -> Response Page)
  (setCode : string) (minPrice : Z) (w : World) : list Card * World :=
  let (allCards, w1) :=
    match SPECIAL_GUESTS_RANGES !! setCode with
    | Some range =>
        let query :=
          ("set:spg cn>=" ++ numberToString (fst range) ++ " cn<="
           ++ numberToString (snd range) ++ priceClause minPrice)%string in
        firstPageOrNothing net (searchUrl query) w
    | None => ([], w)
    end in
  if includes setCode SETS_WITH_BIG_SCORE then
    let query := ("set:big" ++ priceClause minPrice)%string in
    let (bigScore, w2) := firstPageOrNothing net (searchUrl query) w1 in
    (allCards ++ bigScore, w2)
  else (allCards, w1).

(** The address [fetchSetCards] asks first. *)
Definition setCardsUrl (setCode boosterType : string) (minPrice : Z) : string :=
  let query := ("set:" ++ setCode ++ " lang:en")%string in
  let query :=
    if negb (String.eqb boosterType "collector")
       && negb (includes setCode JUMPSTART_SETS)
    then (query ++ " is:booster -is:boosterfun")%string else query in
  let query := (query ++ priceClause minPrice)%string in
  (searchUrl query ++ "&unique=prints&order=usd&dir=desc")%string.

(** [fetchSetCards (setCode, boosterType = 'play', { minPrice = 0,
    includeSpecialGuests = false })] *)
Definition fetchSetCards (fuel : nat) (net : nat -> Response Page)
  (setCode boosterType : string) (minPrice : Z) (includeSpecialGuests : bool)
  (w : World) : option (Completion (list Card) * World) :=
  let url := setCardsUrl setCode boosterType minPrice in
  match fetchPages fuel net url w with
  | None => None
  | Some (cards, error, w1) =>
      match catch404 cards error with
      | Throw e => Some (Throw e, w1)
      | Normal cards =>
          let cards :=
            if negb (String.eqb boosterType "collector")
            then List.filter (fun card => negb (isCollectorExclusive card None))
                   cards
            else cards in
          if includeSpecialGuests && hasSpecialGuests setCode then
            let (specialGuests, w2) :=
              fetchSpecialGuestsCards net setCode minPrice w1 in
            Some (Normal (cards ++ specialGuests), w2)
          else Some (Normal cards, w1)
      end
  end.

End WithEncoder.

(** The number of side sheets asked for a set: its Special Guests range
    and The Big Score. *)
Definition sideSheets (setCode : string) : nat :=
  ((if hasSpecialGuests setCode then 1 else 0)
   + (if includes setCode SETS_WITH_BIG_SCORE then 1 else 0))%nat.

End Guests.

(** ** Vocabulary for the statements about the structured generator *)

Module SealedSpec.
Import Js Range Classifier Rng Sealed Config.

(** Some slot of [sl] has a pool whose ranges contain the card's
    collector number. *)
Definition slotCovers (sl : list BoosterSlot) (card : Card) : Prop :=
  exists slot p,
    In slot sl /\ slotPool slot = Some p /\ inRanges (slotRanges p) card = true.

(** The number of cards a pack asks for: the counts of the slots that
    have a pool. *)
Definition packSize (sl : list BoosterSlot) : nat :=
  list_sum
    (map (fun slot =>
            match slotPool slot, count slot with
            | Some _, Some n => n
            | _, _ => 0%nat
            end) sl).

(** The pool of a slot lists its ranges under [nonfoil] and [foil] only,
    each at most once. *)
Definition standardFinishes (p : list (string * list string)) : Prop :=
  NoDup (map fst p) /\
  forall entry, In entry p -> fst entry = "nonfoil" \/ fst entry = "foil".

End SealedSpec.

(** ** Vocabulary for the statements about the hashes *)

Module HashSpec.
Import Js.

(** The polynomial [h * 31^n + c1 * 31^(n-1) + ... + cn] over the code
    units of a string, without truncation. *)
Fixpoint polyFrom (h : Z) (s : string) : Z :=
  match s with
  | EmptyString => h
  | String c s' => polyFrom (31 * h + charCode c) s'
  end.

End HashSpec.

(** ** [fetchSetConfigs], the loader of all configurations *)

Module AllConfigs.
Import Js Classifier Sealed Config ConfigSpec.

(** The value of [configs[setCode].collectorExclusive] that the loop of
    [fetchSetConfigs] computes from the collector file, loaded whether
    or not the index lists a collector booster. *)
Definition collectorOfFile (collectorFile : option BoosterFile)
  : Completion (option CollectorExclusive) :=
  match collectorFile with
  | None => Normal None
  | Some file =>
      match slots file with
      | None => Throw slotsNotIterable
      | Some sl =>
          let collectorRanges := flat_map slotCollectorRanges sl in
          if (0 <? length collectorRanges)%nat
          then Normal (Some {| collectorNumbers := Some (dedupe collectorRanges) |})
          else Normal None
      end
  end.

(** One iteration of [for (const setCode of Object.keys (index.boosters))]:
    the entry written to [configs], if any. *)
Definition configOfSet (data : BoosterData) (setCode : string)
  (types : list string) : Completion (option LoadedConfig) :=
  let playType :=
    if includes "play" types then Some "play"
    else if includes "draft" types then Some "draft" else None in
  match playType with
  | None => Normal None
  | Some playType =>
      let playFile := loadBoosterFile data setCode playType in
      let collectorFile := loadBoosterFile data setCode "collector" in
      match playFile with
      | None => Normal None
      | Some playFile =>
          match slots playFile with
          | None => Throw slotsNotIterable
          | Some sl =>
              let playRanges := flat_map slotPlayRanges sl in
              let play :=
                {| includeCollectorNumbers := Some (dedupe playRanges) |} in
              match collectorOfFile collectorFile with
              | Throw e => Throw e
              | Normal exclusive =>
                  Normal (Some {| configName := setName playFile;
                                  configSource := source playFile;
                                  configRanges :=
                                    {| playBooster := Some play;
                                       collectorExclusive := exclusive |} |})
              end
          end
      end
  end.

Definition addConfig (data : BoosterData)
  (acc : Completion (gmap string LoadedConfig)) (entry : string * list string)
  : Completion (gmap string LoadedConfig) :=
  match acc with
  | Throw e => Throw e
  | Normal configs =>
      match configOfSet data (fst entry) (snd entry) with
      | Throw e => Throw e
      | Normal None => Normal configs
      | Normal (Some config) => Normal (<[fst entry := config]> configs)
      end
  end.

(** [fetchSetConfigs ()].  The sets are visited in the order of
    [map_to_list]; the order is immaterial, as each set writes its own
    key and every error thrown is the same. *)
Definition fetchSetConfigs (data : BoosterData)
  : Completion (gmap string LoadedConfig) :=
  fold_left (addConfig data) (map_to_list (boosters (boosterIndex data)))
    (Normal ∅).

End AllConfigs.

Module AllConfigsSamples.
Import Js Classifier Sealed Config.

(** The index lists no collector booster for the set, yet a collector
    file is there. *)
Definition unlistedCollectorData : BoosterData :=
  {| boosterIndex :=
       {| version := "1.0.0"; boosters := <["mkm" := ["play"]]> ∅ |};
     boosterFiles :=
       <["mkm-play" := {| setName := "Murders at Karlov Manor";
                          source := "booster-data";
                          slots := Some [MoreSamples.commonSlot] |}]>
       (<["mkm-collector" := {| setName := "Murders at Karlov Manor";
                                source := "booster-data";
                                slots := Some [MoreSamples.showcaseSlot] |}]> ∅) |}.

Definition listedData : BoosterData :=
  {| boosterIndex :=
       {| version := "1.0.0";
          boosters := <["mkm" := ["play"; "collector"]]> ∅ |};
     boosterFiles := boosterFiles unlistedCollectorData |}.

Definition listedConfigs : gmap string LoadedConfig :=
  <["mkm" := MoreSamples.mkmConfigCommons]> ∅.

End AllConfigsSamples.

(** ** The weekly blurb of the game-history script *)

Module League.
Import Js Acquire.

Record Participant := { puuid : string; win : bool }.

(** A match, as far as [buildBlurb] reads it: [m.info.queueId] and
    [m.info.participants]. *)
Record Match := { queueId : Z; participants : list Participant }.

(** [queueLabel (queueId)]: [QUEUE_NAMES[queueId] || 'other'] *)
Definition queueLabel (queueId : Z) : string :=
  if queueId =? 420 then "ranked"
  else if queueId =? 440 then "ranked flex"
  else if (queueId =? 450) || (queueId =? 720) then "aram"
  else if (queueId =? 400) || (queueId =? 490) then "normal"
  else "other".

(** The locals of the loop of [buildBlurb]; [groups] keeps its keys in
    the order they were first written. *)
Record Tally := {
  groups : list (string * Z);
  totalWins : Z;
  totalLosses : Z
}.

(** [groups[mode] = (groups[mode] || 0) + 1] *)
Fixpoint bump (mode : string) (groups : list (string * Z))
  : list (string * Z) :=
  match groups with
  | [] => [(mode, 1)]
  | (m, count) :: rest =>
      if String.eqb m mode then (m, count + 1) :: rest
      else (m, count) :: bump mode rest
  end.

(** [m.info.participants.find (p => p.puuid === puuid)] *)
Definition findMe (m : Match) (me : string) : option Participant :=
  List.find (fun p => String.eqb (puuid p) me) (participants m).

(** The body of [for (const m of matches)]. *)
Definition tallyMatch (me : string) (t : Tally) (m : Match) : Tally :=
  match findMe m me with
  | None => t
  | Some p =>
      let mode := queueLabel (queueId m) in
      {| groups := bump mode (groups t);
         totalWins := if win p then totalWins t + 1 else totalWins t;
         totalLosses := if win p then totalLosses t else totalLosses t + 1 |}
  end.

Definition tally (matches : list Match) (me : string) : Tally :=
  fold_left (tallyMatch me) matches
    {| groups := []; totalWins := 0; totalLosses := 0 |}.

(** [entries.sort ((a, b) => b[1] - a[1])]: the sort is stable, so an
    entry goes before the first entry with a smaller count. *)
Fixpoint insertByCount (entry : string * Z) (sorted : list (string * Z))
  : list (string * Z) :=
  match sorted with
  | [] => [entry]
  | e :: rest =>
      if snd e <? snd entry then entry :: e :: rest
      else e :: insertByCount entry rest
  end.

Definition sortByCount (entries : list (string * Z)) : list (string * Z) :=
  fold_left (fun sorted entry => insertByCount entry sorted) entries [].

(** [`${count} ${mode} game${count === 1 ? '' : 's'}`] *)
Definition part (entry : string * Z) : string :=
  let (mode, count) := entry in
  let plural := if count =? 1 then "" else "s" in
  (numberToString count ++ " " ++ mode ++ " game" ++ plural)%string.

(** [parts.join (sep)] *)
Fixpoint join (sep : string) (parts : list string) : string :=
  match parts with
  | [] => ""
  | [p] => p
  | p :: rest => (p ++ sep ++ join sep rest)%string
  end.

(** [buildBlurb (matches, puuid)] *)
Definition buildBlurb (matches : list Match) (me : string) : string :=
  if (length matches =? 0)%nat then "no games this week"
  else
    let t := tally matches me in
    let parts := map part (sortByCount (groups t)) in
    let gamesStr :=
      if (length parts =? 1)%nat then default "undefined" (head parts)
      else (join ", " (removelast parts) ++ " and "
            ++ default "undefined" (last parts))%string in
    let record :=
      (numberToString (totalWins t) ++ "-" ++ numberToString (totalLosses t))%string in
    let suffix := if (1 <? length parts)%nat then " overall" else "" in
    ("played " ++ gamesStr ++ " in the last week, went " ++ record ++ suffix)%string.

(** The number of matches the player took part in. *)
Definition played (matches : list Match) (me : string) : Z :=
  Z.of_nat (length (List.filter (fun m => bool_decide (is_Some (findMe m me)))
                      matches)).

Definition sumCounts (groups : list (string * Z)) : Z :=
  fold_right Z.add 0 (map snd groups).

End League.

Module LeagueSamples.
Import League.

Definition rival : Participant := {| puuid := "rival"; win := true |}.
Definition meWinning : Participant := {| puuid := "me"; win := true |}.
Definition meLosing : Participant := {| puuid := "me"; win := false |}.

Definition week : list Match :=
  [ {| queueId := 450; participants := [rival; meWinning] |};
    {| queueId := 420; participants := [meLosing; rival] |};
    {| queueId := 720; participants := [meWinning] |};
    {| queueId := 420; participants := [rival] |} ].

Definition strangersWeek : list Match :=
  [ {| queueId := 450; participants := [rival] |};
    {| queueId := 420; participants := [] |} ].

End LeagueSamples.

(** * Properties *)

(** ** Range matcher *)

Section RangeFacts.
Import Js Range.

Lemma split_no_separator (sep : ascii) (s : string) :
  includesChar sep s = false -> split sep s = [s].
Proof.
  induction s as [|c s IH]; simpl; [reflexivity|].
  intros H. apply orb_false_iff in H as [Hc Hs].
  rewrite Hc, (IH Hs). reflexivity.
Qed.

Lemma split_at_first_separator (sep : ascii) (lo hi : string) :
  includesChar sep lo = false ->
  split sep (lo ++ String sep hi)%string = lo :: split sep hi.
Proof.
  induction lo as [|c lo IH]; simpl.
  - intros _. rewrite Ascii.eqb_refl. reflexivity.
  - intros H. apply orb_false_iff in H as [Hc Hs].
    rewrite Hc, (IH Hs). reflexivity.
Qed.

Lemma includesChar_app (sep : ascii) (lo hi : string) :
  includesChar sep (lo ++ String sep hi)%string = true.
Proof.
  induction lo as [|c lo IH]; simpl.
  - rewrite Ascii.eqb_refl. reflexivity.
  - rewrite IH. apply orb_true_r.
Qed.

Lemma parseDigits_app (acc : option Z) (ds rest : string) :
  allDigits ds = true ->
  parseDigits acc (ds ++ rest)%string = parseDigits (parseDigits acc ds) rest.
Proof.
  revert acc. induction ds as [|c ds IH]; intros acc; simpl; [reflexivity|].
  unfold isDigit. destruct (digitValue c) as [d|]; [|discriminate].
  intros H. apply IH. exact H.
Qed.

Lemma parseDigits_stop (acc : option Z) (rest : string) :
  startsWithDigit rest = false -> parseDigits acc rest = acc.
Proof.
  destruct rest as [|c rest]; simpl; [reflexivity|].
  unfold isDigit. destruct (digitValue c); [discriminate|reflexivity].
Qed.

Lemma parseDigits_started (x : Z) (s : string) :
  exists n, parseDigits (Some x) s = Some n.
Proof.
  revert x. induction s as [|c s IH]; intros x; simpl; [eauto|].
  destruct (digitValue c); [apply IH|eauto].
Qed.

Lemma parseInt_digit_head (c : ascii) (s : string) :
  isDigit c = true -> parseInt (String c s) = parseDigits None (String c s).
Proof.
  destruct c as [[] [] [] [] [] [] [] []]; try discriminate; reflexivity.
Qed.

Lemma parseInt_leading_integer (ds rest : string) :
  ds <> "" -> allDigits ds = true -> startsWithDigit rest = false ->
  exists n, parseInt ds = Some n /\ parseInt (ds ++ rest)%string = Some n.
Proof.
  intros Hne Hds Hrest. destruct ds as [|c ds]; [congruence|].
  simpl in Hds. apply andb_true_iff in Hds as [Hc Hds].
  change (String c ds ++ rest)%string with (String c (ds ++ rest)%string).
  rewrite !(parseInt_digit_head _ _ Hc). simpl.
  unfold isDigit in Hc. destruct (digitValue c) as [d|]; [|discriminate].
  rewrite (parseDigits_app _ _ _ Hds), (parseDigits_stop _ _ Hrest).
  destruct (parseDigits_started (10 * default 0 None + d) ds) as [n Hn].
  exists n. auto.
Qed.

Lemma isInRange_NaN (cn rangeStr : string) :
  parseInt cn = None -> isInRange cn rangeStr = false.
Proof. intros H. unfold isInRange. rewrite H. reflexivity. Qed.

Lemma isInRange_single (cn rangeStr : string) (n : Z) :
  parseInt cn = Some n ->
  includesChar "-" rangeStr = false ->
  isInRange cn rangeStr = true <-> parseInt rangeStr = Some n.
Proof.
  intros Hcn Hdash. unfold isInRange. rewrite Hcn, Hdash.
  destruct (parseInt rangeStr) as [m|]; simpl.
  - rewrite Z.eqb_eq. split; congruence.
  - split; discriminate.
Qed.

Lemma isInRange_dashed (cn lo hi : string) (n : Z) :
  parseInt cn = Some n ->
  includesChar "-" lo = false ->
  includesChar "-" hi = false ->
  isInRange cn (lo ++ String "-" hi)%string = true <->
  exists a b, parseInt lo = Some a /\ parseInt hi = Some b /\ a <= n <= b.
Proof.
  intros Hcn Hlo Hhi. unfold isInRange.
  rewrite Hcn, includesChar_app, (split_at_first_separator _ _ _ Hlo).
  rewrite (split_no_separator _ _ Hhi). simpl.
  destruct (parseInt lo) as [a|], (parseInt hi) as [b|]; simpl.
  - rewrite andb_true_iff, !Z.leb_le. split.
    + intros [? ?]. exists a, b. auto.
    + intros (a' & b' & Ha & Hb & ? & ?). split; congruence.
  - rewrite andb_false_r. split; [discriminate|].
    intros (a' & b' & _ & Hb & _). discriminate.
  - split; [discriminate|]. intros (a' & b' & Ha & _). discriminate.
  - split; [discriminate|]. intros (a' & b' & Ha & _). discriminate.
Qed.

(** C8: [isInRange] reads the leading integer of the collector number and
    answers false when there is none; a range without a dash is matched
    by equality, a range [lo-hi] by [lo <= n <= hi], bounds included; the
    four sample calls of the specification evaluate as it says. *)
Theorem isInRange_semantics :
  (isInRange "7" "1-10" = true /\ isInRange "11" "1-10" = false /\
   isInRange "7" "7" = true /\ isInRange "abc" "1-10" = false) /\
  (forall ds rest,
     ds <> "" -> allDigits ds = true -> startsWithDigit rest = false ->
     exists n, parseInt ds = Some n /\ parseInt (ds ++ rest)%string = Some n) /\
  (forall cn rangeStr, parseInt cn = None -> isInRange cn rangeStr = false) /\
  (forall cn rangeStr n,
     parseInt cn = Some n -> includesChar "-" rangeStr = false ->
     (isInRange cn rangeStr = true <-> parseInt rangeStr = Some n)) /\
  (forall cn lo hi n,
     parseInt cn = Some n ->
     includesChar "-" lo = false -> includesChar "-" hi = false ->
     (isInRange cn (lo ++ String "-" hi)%string = true <->
      exists a b, parseInt lo = Some a /\ parseInt hi = Some b /\ a <= n <= b)).
Proof.
  split; [repeat split; reflexivity|].
  split; [exact parseInt_leading_integer|].
  split; [exact isInRange_NaN|].
  split; [exact isInRange_single | exact isInRange_dashed].
Qed.

Lemma isInRange_semantics_witness :
  isInRange "a12" "12" = false /\
  (isInRange "12a" "12" = true <-> parseInt "12" = Some 12) /\
  (isInRange "12a" "10-20" = true <->
   exists a b, parseInt "10" = Some a /\ parseInt "20" = Some b /\ a <= 12 <= b).
Proof.
  destruct isInRange_semantics as (_ & _ & Hnan & Hsingle & Hdashed).
  split; [apply Hnan; reflexivity|]. split.
  - apply (Hsingle "12a" "12" 12); reflexivity.
  - apply (Hdashed "12a" "10" "20" 12); reflexivity.
Defined.

End RangeFacts.

(** ** Exclusivity classifier *)

Section ClassifierFacts.
Import Js Range Classifier Samples.

Lemma isInPlayBooster_ranges (card : Card) (cfg : SetConfig)
  (pb : PlayBooster) (ranges : list string) :
  playBooster cfg = Some pb ->
  includeCollectorNumbers pb = Some ranges ->
  isInPlayBooster card (Some cfg) =
  Some (existsb (isInRange (collector_number card)) ranges).
Proof.
  intros Hpb Hr. unfold isInPlayBooster. simpl. rewrite Hpb. simpl.
  rewrite Hr. reflexivity.
Qed.

(** C2: when the play-booster ranges of the supplied configuration include
    the card's collector number, [isCollectorExclusive] answers false,
    whatever promo types and frame effects the card carries. *)
Theorem config_play_range_overrides_generic (card : Card) (cfg : SetConfig)
  (pb : PlayBooster) (ranges : list string) (range : string) :
  playBooster cfg = Some pb ->
  includeCollectorNumbers pb = Some ranges ->
  In range ranges ->
  isInRange (collector_number card) range = true ->
  isCollectorExclusive card (Some cfg) = false.
Proof.
  intros Hpb Hr Hin Hrange. unfold isCollectorExclusive.
  rewrite (isInPlayBooster_ranges _ _ _ _ Hpb Hr).
  replace (existsb _ ranges) with true; [reflexivity|].
  symmetry. apply existsb_exists. exists range. auto.
Qed.

Lemma config_play_range_overrides_generic_witness :
  genericExclusive (extendedArtCard "342") = true /\
  isCollectorExclusive (extendedArtCard "342") (Some sampleConfig) = false.
Proof.
  split; [reflexivity|].
  apply (config_play_range_overrides_generic (extendedArtCard "342")
           sampleConfig {| includeCollectorNumbers := Some ["1-261"; "342"] |}
           ["1-261"; "342"] "342").
  - reflexivity.
  - reflexivity.
  - simpl. auto.
  - reflexivity.
Defined.

(** C6, as stated, fails: collector number 280 lies outside the present
    collector-exclusive ranges (the configuration answers false), yet the
    answer is taken from the generic rule: two cards with that number get
    different answers according to their frame effects. *)
Lemma generic_rule_consulted_after_config_false :
  isInPlayBooster (extendedArtCard "280") (Some sampleConfig) = Some false /\
  isCollectorExclusiveByConfig (extendedArtCard "280") (Some sampleConfig)
    = Some false /\
  isCollectorExclusive (extendedArtCard "280") (Some sampleConfig) = true /\
  isCollectorExclusive (plainCard "280") (Some sampleConfig) = false.
Proof. repeat split; reflexivity. Qed.

(** C6, amended: the configuration decides only when the play-booster
    ranges include the card (answer false) or, those ranges being present
    and not including it, the collector-exclusive ranges include it
    (answer true).  In every other case the generic rule decides: when the
    collector-exclusive ranges answer false or are absent, and when the
    play-booster ranges are absent. *)
Theorem isCollectorExclusive_two_tier (card : Card) (cfg : SetConfig) :
  (isInPlayBooster card (Some cfg) = Some true ->
   isCollectorExclusive card (Some cfg) = false) /\
  (isInPlayBooster card (Some cfg) = Some false ->
   isCollectorExclusiveByConfig card (Some cfg) = Some true ->
   isCollectorExclusive card (Some cfg) = true) /\
  (isInPlayBooster card (Some cfg) = Some false ->
   isCollectorExclusiveByConfig card (Some cfg) <> Some true ->
   isCollectorExclusive card (Some cfg) = genericExclusive card) /\
  (isInPlayBooster card (Some cfg) = None ->
   isCollectorExclusive card (Some cfg) = genericExclusive card) /\
  isCollectorExclusive card None = genericExclusive card.
Proof.
  unfold isCollectorExclusive. repeat split.
  - intros ->. reflexivity.
  - intros -> ->. reflexivity.
  - intros -> H.
    destruct (isCollectorExclusiveByConfig card (Some cfg)) as [[|]|];
      congruence.
  - intros ->. reflexivity.
Qed.

Lemma isCollectorExclusive_two_tier_witness :
  isCollectorExclusive (extendedArtCard "280") (Some sampleConfig)
  = genericExclusive (extendedArtCard "280").
Proof.
  destruct (isCollectorExclusive_two_tier (extendedArtCard "280") sampleConfig)
    as (_ & _ & Hfalse & _).
  apply Hfalse.
  - reflexivity.
  - discriminate.
Defined.

End ClassifierFacts.

(** ** [fetchWithRetry] *)

Section RetryFacts.
Import Js Retry Samples.
Context {Data : Type}.
Variable net : nat -> Response Data.
Variable url : string.

Lemma fetchWithRetry_from_rate_limited (retries left i : nat) (w : World)
  (json : Completion Data) :
  net (fetched w) = HttpResponse 429 json ->
  fetchWithRetry_from net url retries (S left) i w =
  fetchWithRetry_from net url retries left (S i)
    (delay 1000 (snd (fetch net url w))).
Proof. intros H. simpl. rewrite H. reflexivity. Qed.

Lemma fetchWithRetry_from_failure (retries left i : nat) (w : World)
  (e : Error) :
  genericFailure (net (fetched w)) = Some e ->
  fetchWithRetry_from net url retries (S left) i w =
  if Z.of_nat i =? Z.of_nat retries - 1
  then (Throw e, snd (fetch net url w))
  else fetchWithRetry_from net url retries left (S i)
         (delay (100 * (Z.of_nat i + 1)) (snd (fetch net url w))).
Proof.
  intros H. simpl. unfold genericFailure in H.
  destruct (net (fetched w)) as [status json|e'].
  - destruct (status =? 429); [discriminate|].
    destruct (negb (ok status)).
    + injection H as <-. reflexivity.
    + destruct json; [discriminate|]. injection H as <-. reflexivity.
  - injection H as <-. reflexivity.
Qed.

Lemma fetchWithRetry_from_bounded (retries left i : nat) (w : World) :
  (fetched (snd (fetchWithRetry_from net url retries left i w))
   <= fetched w + left)%nat.
Proof.
  revert i w. induction left as [|left IH]; intros i w; simpl; [lia|].
  assert (Hnext : forall ms,
    (fetched (snd (fetchWithRetry_from net url retries left (S i)
       (delay ms
          {| fetched := S (fetched w); trace := trace w ++ [EvFetch url] |})))
     <= fetched w + S left)%nat).
  { intros ms. etransitivity; [apply IH|]. simpl. lia. }
  destruct (net (fetched w)) as [status json|e].
  - destruct (status =? 429); [apply Hnext|].
    destruct (negb (ok status)).
    + destruct (Z.of_nat i =? Z.of_nat retries - 1); [simpl; lia|apply Hnext].
    + destruct json; [simpl; lia|].
      destruct (Z.of_nat i =? Z.of_nat retries - 1); [simpl; lia|apply Hnext].
  - destruct (Z.of_nat i =? Z.of_nat retries - 1); [simpl; lia|apply Hnext].
Qed.

Lemma fetchWithRetry_from_all_rate_limited (retries left i : nat) (w : World) :
  (forall k, (k < left)%nat ->
     exists json, net (fetched w + k)%nat = HttpResponse 429 json) ->
  fetchWithRetry_from net url retries left i w =
  (Normal None,
   {| fetched := (fetched w + left)%nat;
      trace := trace w ++ rateLimitedTrace url left |}).
Proof.
  revert i w. induction left as [|left IH]; intros i w H.
  - simpl. destruct w as [n t]. simpl.
    rewrite Nat.add_0_r, app_nil_r. reflexivity.
  - destruct (H 0%nat) as [json Hjson]; [lia|].
    rewrite Nat.add_0_r in Hjson.
    rewrite (fetchWithRetry_from_rate_limited _ _ _ _ _ Hjson), IH.
    + simpl. f_equal. f_equal; [lia|].
      unfold rateLimitedTrace. simpl. rewrite <- !app_assoc. reflexivity.
    + intros k Hk. simpl. destruct (H (S k)) as [j Hj]; [lia|].
      exists j. rewrite <- Hj. f_equal. lia.
Qed.

(** C3, amended: a 429 response pauses for 1000 ms and passes to the next
    value of the loop counter, so it uses up one of the [retries] attempts
    as a caught error does; a caught error is rethrown at the last
    attempt and otherwise backs off for [100 * (i + 1)] ms; whatever the
    responses, no more than [retries] fetches are issued. *)
Theorem fetchWithRetry_attempt_accounting (retries : nat) (w : World) :
  (fetched (snd (fetchWithRetry net url retries w)) <= fetched w + retries)%nat /\
  (forall i json,
     (i < retries)%nat ->
     net (fetched w) = HttpResponse 429 json ->
     fetchWithRetry_from net url retries (retries - i) i w =
     fetchWithRetry_from net url retries (retries - S i) (S i)
       (delay 1000 (snd (fetch net url w)))) /\
  (forall i e,
     (i < retries)%nat ->
     genericFailure (net (fetched w)) = Some e ->
     fetchWithRetry_from net url retries (retries - i) i w =
     if (S i =? retries)%nat
     then (Throw e, snd (fetch net url w))
     else fetchWithRetry_from net url retries (retries - S i) (S i)
            (delay (100 * (Z.of_nat i + 1)) (snd (fetch net url w)))).
Proof.
  split; [apply fetchWithRetry_from_bounded|]. split.
  - intros i json Hi H.
    replace (retries - i)%nat with (S (retries - S i)) by lia.
    apply (fetchWithRetry_from_rate_limited _ _ _ _ _ H).
  - intros i e Hi H.
    replace (retries - i)%nat with (S (retries - S i)) by lia.
    rewrite (fetchWithRetry_from_failure _ _ _ _ _ H).
    destruct (Nat.eqb_spec (S i) retries) as [Heq|Hne].
    + replace (Z.of_nat i =? Z.of_nat retries - 1) with true; [reflexivity|].
      symmetry. apply Z.eqb_eq. lia.
    + replace (Z.of_nat i =? Z.of_nat retries - 1) with false; [reflexivity|].
      symmetry. apply Z.eqb_neq. lia.
Qed.

(** C10: when each of the [retries] attempts receives a 429 response, the
    loop runs out and the call returns [undefined]: no data and no thrown
    error, after [retries] fetches each followed by a pause of 1000 ms. *)
Theorem fetchWithRetry_all_rate_limited (retries : nat) (w : World) :
  (forall k, (k < retries)%nat ->
     exists json, net (fetched w + k)%nat = HttpResponse 429 json) ->
  fetchWithRetry net url retries w =
  (Normal None,
   {| fetched := (fetched w + retries)%nat;
      trace := trace w ++ rateLimitedTrace url retries |}).
Proof. apply fetchWithRetry_from_all_rate_limited. Qed.

End RetryFacts.

Section RetryExamples.
Import Js Retry Samples.

(** C3, as stated, fails: three 429 responses use up the three attempts,
    so the page that the fourth fetch would have received is never asked
    for and the call returns [undefined]; and after one 429 response two
    server errors are enough to exhaust the call, the first of them
    backing off for 200 ms. *)
Lemma rate_limit_consumes_attempts :
  fetchWithRetry rateLimitedThrice searchUrl 3 idle =
  (Normal None,
   {| fetched := 3;
      trace := [EvFetch searchUrl; EvDelay 1000; EvFetch searchUrl;
                EvDelay 1000; EvFetch searchUrl; EvDelay 1000] |}) /\
  rateLimitedThrice 3 = HttpResponse 200 (Normal "cards") /\
  fetchWithRetry rateLimitedThenFailing searchUrl 3 idle =
  (Throw (HttpError 500),
   {| fetched := 3;
      trace := [EvFetch searchUrl; EvDelay 1000; EvFetch searchUrl;
                EvDelay 200; EvFetch searchUrl] |}).
Proof. repeat split; reflexivity. Qed.

Lemma fetchWithRetry_attempt_accounting_witness :
  fetchWithRetry_from rateLimitedThenFailing searchUrl 3 3 0 idle =
  fetchWithRetry_from rateLimitedThenFailing searchUrl 3 2 1
    (delay 1000 (snd (fetch rateLimitedThenFailing searchUrl idle))).
Proof.
  destruct (fetchWithRetry_attempt_accounting rateLimitedThenFailing
              searchUrl 3 idle) as (_ & Hlimit & _).
  apply (Hlimit 0%nat (Throw (Rejected "no body"))).
  - lia.
  - reflexivity.
Defined.

Lemma fetchWithRetry_all_rate_limited_witness :
  fetchWithRetry alwaysRateLimited searchUrl 3 idle =
  (Normal None,
   {| fetched := 3; trace := rateLimitedTrace searchUrl 3 |}).
Proof.
  apply (fetchWithRetry_all_rate_limited alwaysRateLimited searchUrl 3 idle).
  intros k _. exists (Throw (Rejected "no body")). reflexivity.
Defined.

End RetryExamples.

(** ** Daily set *)

Section DailyFacts.
Import Js Daily Samples.

Lemma substring_whole (s : string) : String.substring 0 (String.length s) s = s.
Proof. induction s as [|c s IH]; simpl; [reflexivity|]. rewrite IH. reflexivity. Qed.

Lemma replace_unfold (pat rep s : string) :
  replace pat rep s =
  if String.prefix pat s
  then (rep ++ String.substring (String.length pat)
                 (String.length s - String.length pat) s)%string
  else match s with
       | String c s' => String c (replace pat rep s')
       | EmptyString => EmptyString
       end.
Proof. destruct s; reflexivity. Qed.

Lemma prefix_append (pat s : string) : String.prefix pat (pat ++ s)%string = true.
Proof.
  induction pat as [|c pat IH]; simpl; [destruct s; reflexivity|].
  destruct (ascii_dec c c); [exact IH|congruence].
Qed.

Lemma substring_skip (pat s : string) (n : nat) :
  String.substring (String.length pat) n (pat ++ s)%string = String.substring 0 n s.
Proof. induction pat as [|c pat IH]; simpl; [reflexivity|exact IH]. Qed.

Lemma length_append (pat s : string) :
  String.length (pat ++ s)%string = (String.length pat + String.length s)%nat.
Proof. induction pat as [|c pat IH]; simpl; [reflexivity|]. rewrite IH. reflexivity. Qed.

Lemma replace_leading (pat rep s : string) :
  replace pat rep (pat ++ s)%string = (rep ++ s)%string.
Proof.
  rewrite replace_unfold, prefix_append, substring_skip, length_append.
  replace (String.length pat + String.length s - String.length pat)%nat
    with (String.length s) by lia.
  rewrite substring_whole. reflexivity.
Qed.

Lemma hashDate_nonneg (dateStr : string) : 0 <= hashDate dateStr.
Proof. unfold hashDate, abs. apply Z.abs_nonneg. Qed.

Lemma index_in_range {A} (arr : list A) (n : Z) :
  0 <= n < Z.of_nat (length arr) ->
  exists x, index arr (Some n) = Some x /\ In x arr.
Proof.
  intros [Hlo Hhi]. unfold index.
  destruct (Z.ltb_spec n 0) as [?|_]; [lia|].
  destruct (arr !! Z.to_nat n) as [x|] eqn:Hx.
  - exists x. split; [reflexivity|].
    apply list_elem_of_In. eapply list_elem_of_lookup_2. exact Hx.
  - apply lookup_ge_None in Hx. lia.
Qed.

Lemma pickDailySet_valid (now : Date) (sets : list MtgSet) (d : Date)
  (iso : string) :
  isoString d = Some iso ->
  pickDailySet now sets (Some d) =
  Normal (index (List.filter isRecent sets)
            (rem (hashDate (default "undefined" (head (split "T" iso))))
                 (Z.of_nat (length (List.filter isRecent sets))))).
Proof.
  intros Hiso. unfold pickDailySet, getDailySeed, toISOString. simpl.
  rewrite Hiso. rewrite replace_leading. reflexivity.
Qed.

(** C4, as stated, fails: when no set is recent enough the index is
    [hash % 0], which is [NaN], and the call returns [undefined]; nothing
    is thrown. *)
Lemma pickDailySet_no_candidate_returns_undefined :
  List.filter isRecent oldSets = [] /\
  pickDailySet invalidDate oldSets (Some newYear2024) = Normal None.
Proof. split; reflexivity. Qed.

(** C4, amended: the selection depends on nothing but the list and the
    date given (the clock is not read), and on the date only through its
    calendar day; for a valid date it returns, without throwing, one of
    the sets that pass the release-date filter when there is one, and
    [undefined] when there is none. *)
Theorem pickDailySet_deterministic (now now' : Date) (sets : list MtgSet)
  (d : Date) :
  pickDailySet now sets (Some d) = pickDailySet now' sets (Some d) /\
  (forall d' iso iso',
     isoString d = Some iso -> isoString d' = Some iso' ->
     head (split "T" iso) = head (split "T" iso') ->
     pickDailySet now sets (Some d) = pickDailySet now sets (Some d')) /\
  (forall iso,
     isoString d = Some iso ->
     List.filter isRecent sets = [] ->
     pickDailySet now sets (Some d) = Normal None) /\
  (forall iso,
     isoString d = Some iso ->
     List.filter isRecent sets <> [] ->
     exists s, pickDailySet now sets (Some d) = Normal (Some s) /\
               In s sets /\ isRecent s = true).
Proof.
  split; [reflexivity|]. split; [|split].
  - intros d' iso iso' Hd Hd' Hday.
    rewrite (pickDailySet_valid _ _ _ _ Hd), (pickDailySet_valid _ _ _ _ Hd').
    rewrite Hday. reflexivity.
  - intros iso Hd Hnone. rewrite (pickDailySet_valid _ _ _ _ Hd), Hnone.
    reflexivity.
  - intros iso Hd Hsome. rewrite (pickDailySet_valid _ _ _ _ Hd).
    set (recent := List.filter isRecent sets) in *.
    set (h := hashDate _).
    assert (Hlen : 0 < Z.of_nat (length recent)).
    { destruct recent; [congruence|]. simpl. lia. }
    unfold rem. destruct (Z.eqb_spec (Z.of_nat (length recent)) 0) as [?|_]; [lia|].
    destruct (index_in_range recent (Z.rem h (Z.of_nat (length recent))))
      as (s & Hs & Hin).
    { apply Z.rem_bound_pos; [apply hashDate_nonneg|exact Hlen]. }
    exists s. rewrite Hs. split; [reflexivity|].
    apply filter_In in Hin. exact Hin.
Qed.

Lemma pickDailySet_deterministic_witness :
  exists s, pickDailySet invalidDate mixedSets (Some newYear2024)
            = Normal (Some s) /\
            In s mixedSets /\ isRecent s = true.
Proof.
  destruct (pickDailySet_deterministic invalidDate invalidDate mixedSets
              newYear2024) as (_ & _ & _ & Hsome).
  apply (Hsome "2024-01-01T10:30:00.000Z").
  - reflexivity.
  - discriminate.
Defined.

End DailyFacts.

(** ** Random source *)

Section RngFacts.
Import Js Rng Sealed.

Lemma Qltb_lt (a b : Q) : Qltb a b = true <-> (a < b)%Q.
Proof.
  unfold Qltb. rewrite negb_true_iff. split.
  - intros H. apply Qnot_le_lt. intros Hle.
    apply Qle_bool_iff in Hle. congruence.
  - intros H. destruct (Qle_bool b a) eqn:Hle; [|reflexivity].
    apply Qle_bool_iff in Hle. exfalso. exact (Qlt_not_le _ _ H Hle).
Qed.

Lemma ushr_0_range (x : Z) : 0 <= ushr x 0 < two32.
Proof.
  unfold ushr, ToUint32. change (0 mod 32) with 0. rewrite Z.shiftr_0_r.
  apply Z.mod_pos_bound. reflexivity.
Qed.

Lemma mulberry32_unit (seed : Z) : unitDraw (fst (mulberry32 seed)).
Proof.
  unfold mulberry32. cbv zeta. unfold fst.
  match goal with |- unitDraw (Qmake (ushr ?x 0) _) =>
    pose proof (ushr_0_range x) as H; set (u := ushr x 0) in * end.
  unfold two32 in H. unfold unitDraw, Qle, Qlt. simpl. lia.
Qed.

Lemma call_unit (random : Random) :
  unitSource random ->
  unitDraw (fst (call random)) /\ unitSource (snd (call random)).
Proof.
  destruct random as [seed|draws n]; intros H; unfold call.
  - pose proof (mulberry32_unit seed) as Hu.
    destruct (mulberry32 seed) as [r seed']. split; [exact Hu|exact I].
  - split; [apply H|exact H].
Qed.

Lemma randomSource_unit (seed : option Seed) (ambient : nat -> Q) :
  (forall n, unitDraw (ambient n)) -> unitSource (randomSource seed ambient).
Proof.
  intros H. unfold randomSource.
  destruct seed as [s|]; [destruct (truthy (Some s))|]; simpl; auto.
Qed.

Lemma randomSource_seeded (s : Seed) (ambient : nat -> Q) :
  truthy (Some s) = true -> randomSource (Some s) ambient = seededRandom s.
Proof. intros H. unfold randomSource. rewrite H. reflexivity. Qed.

Lemma floor_index_range (r : Q) (n : nat) :
  unitDraw r -> (0 < n)%nat ->
  0 <= Qfloor (r * inject_Z (Z.of_nat n)) < Z.of_nat n.
Proof.
  intros [Hlo Hhi] Hn.
  assert (Hpos : (0 < inject_Z (Z.of_nat n))%Q).
  { unfold Qlt. simpl. lia. }
  split.
  - change 0 with (Qfloor 0). apply Qfloor_resp_le.
    apply Qmult_le_0_compat; [exact Hlo|apply Qlt_le_weak; exact Hpos].
  - rewrite Zlt_Qlt. eapply Qle_lt_trans; [apply Qfloor_le|].
    rewrite <- (Qmult_1_l (inject_Z (Z.of_nat n))) at 2.
    apply Qmult_lt_compat_r; assumption.
Qed.

End RngFacts.

(** ** Legacy generator *)

Section LegacyFacts.
Import Js Classifier Rng Sealed LegacySpec.

Lemma index_some_in {A} (arr : list A) (i : option Z) (x : A) :
  index arr i = Some x -> In x arr.
Proof.
  unfold index. destruct i as [n|]; [|discriminate].
  destruct (n <? 0); [discriminate|]. intros H.
  apply list_elem_of_In. eapply list_elem_of_lookup_2. exact H.
Qed.

Lemma nonempty_length {A} (l : list A) : l <> [] <-> (0 <? length l)%nat = true.
Proof.
  destruct l as [|x l]; simpl; split.
  - intros H. congruence.
  - discriminate.
  - reflexivity.
  - discriminate.
Qed.

Lemma pickRandom_in (arr : list Card) (random : Random) (c : Card) :
  fst (pickRandom arr random) = Some c -> In c arr.
Proof.
  unfold pickRandom. destruct (call random) as [r random']. cbn [fst].
  apply index_some_in.
Qed.

Lemma pickRandom_unit (arr : list Card) (random : Random) :
  arr <> [] -> unitSource random ->
  drawnFrom arr (fst (pickRandom arr random)) /\
  unitSource (snd (pickRandom arr random)).
Proof.
  intros Harr Hunit. unfold pickRandom.
  destruct (call_unit random Hunit) as [Hr Hnext].
  destruct (call random) as [r random']. cbn [fst snd] in *.
  split; [|exact Hnext].
  destruct (index_in_range arr (Qfloor (r * inject_Z (Z.of_nat (length arr)))))
    as (c & Hc & Hin).
  { apply floor_index_range; [exact Hr|]. destruct arr; [congruence|simpl; lia]. }
  exists c. auto.
Qed.

Lemma pushPick_pool (arr : list Card) (st : Gen) :
  pool (pushPick arr st) = pool st ++ [fst (pickRandom arr (random st))] /\
  random (pushPick arr st) = snd (pickRandom arr (random st)).
Proof.
  unfold pushPick. destruct (pickRandom arr (random st)). split; reflexivity.
Qed.

Lemma pushIfAny_nonempty (arr : list Card) (st : Gen) :
  arr <> [] -> pushIfAny arr st = pushPick arr st.
Proof.
  intros H. unfold pushIfAny. apply nonempty_length in H. rewrite H.
  reflexivity.
Qed.

Lemma pushIfAny_length (arr : list Card) (st : Gen) :
  arr <> [] -> length (pool (pushIfAny arr st)) = S (length (pool st)).
Proof.
  intros H. rewrite (pushIfAny_nonempty _ _ H).
  destruct (pushPick_pool arr st) as [-> _]. rewrite length_app. simpl. lia.
Qed.

Lemma iter_pushIfAny_length (n : nat) (arr : list Card) (st : Gen) :
  arr <> [] ->
  length (pool (Nat.iter n (pushIfAny arr) st)) = (length (pool st) + n)%nat.
Proof.
  intros H. induction n as [|n IH]; simpl; [lia|].
  rewrite (pushIfAny_length _ _ H), IH. lia.
Qed.

Lemma pushIfAny_draw (arr : list Card) (st : Gen) :
  arr <> [] -> unitSource (random st) ->
  exists v, pool (pushIfAny arr st) = pool st ++ [v] /\ drawnFrom arr v /\
            unitSource (random (pushIfAny arr st)).
Proof.
  intros Harr Hunit. rewrite (pushIfAny_nonempty _ _ Harr).
  destruct (pushPick_pool arr st) as [-> ->].
  destruct (pickRandom_unit arr (random st) Harr Hunit) as [Hv Hnext].
  eexists. split; [reflexivity|]. split; assumption.
Qed.

Lemma iter_pushIfAny_draws (n : nat) (arr : list Card) (st : Gen) :
  arr <> [] -> unitSource (random st) ->
  exists vs,
    pool (Nat.iter n (pushIfAny arr) st) = pool st ++ vs /\
    length vs = n /\ Forall (drawnFrom arr) vs /\
    unitSource (random (Nat.iter n (pushIfAny arr) st)).
Proof.
  intros Harr Hunit. induction n as [|n IH]; simpl.
  - exists []. rewrite app_nil_r. repeat split; auto.
  - destruct IH as (vs & Hpool & Hlen & Hall & Hnext).
    destruct (pushIfAny_draw arr _ Harr Hnext) as (v & Hv & Hfrom & Hnext').
    exists (vs ++ [v]). rewrite Hv, Hpool, <- app_assoc.
    split; [reflexivity|]. split; [rewrite length_app; simpl; lia|].
    split; [|exact Hnext'].
    apply Forall_app. split; [exact Hall|]. constructor; [exact Hfrom|constructor].
Qed.

Lemma drawnFrom_incl (a b : list Card) (v : option Card) :
  incl a b -> drawnFrom a v -> drawnFrom b v.
Proof. intros Hab (c & -> & Hin). exists c. auto. Qed.

(** The pool the rare-or-mythic draw picks from. *)
Lemma rareSlot_unfold (chance : Q) (byRarity : ByRarity) (st : Gen) :
  rareSlot chance byRarity st =
  pushIfAny
    (if Qltb (fst (call (random st))) chance
        && (0 <? length (mythic byRarity))%nat
     then mythic byRarity else rare byRarity)
    {| random := snd (call (random st)); pool := pool st |}.
Proof. unfold rareSlot. destruct (call (random st)). reflexivity. Qed.

Lemma rarePool_nonempty (chance r : Q) (byRarity : ByRarity) :
  rare byRarity <> [] ->
  (if Qltb r chance && (0 <? length (mythic byRarity))%nat
   then mythic byRarity else rare byRarity) <> [].
Proof.
  intros Hrare.
  destruct (Qltb r chance); simpl; [|exact Hrare].
  destruct (0 <? length (mythic byRarity))%nat eqn:Hm; [|exact Hrare].
  apply nonempty_length. exact Hm.
Qed.

Lemma rarePool_incl (chance r : Q) (byRarity : ByRarity) :
  incl (if Qltb r chance && (0 <? length (mythic byRarity))%nat
        then mythic byRarity else rare byRarity)
       (rare byRarity ++ mythic byRarity).
Proof.
  destruct (_ && _); [apply incl_appr|apply incl_appl]; apply incl_refl.
Qed.

Lemma rareSlot_length (chance : Q) (byRarity : ByRarity) (st : Gen) :
  rare byRarity <> [] ->
  length (pool (rareSlot chance byRarity st)) = S (length (pool st)).
Proof.
  intros Hrare. rewrite rareSlot_unfold, pushIfAny_length; [reflexivity|].
  apply rarePool_nonempty. exact Hrare.
Qed.

Lemma rareSlot_draw (chance : Q) (byRarity : ByRarity) (st : Gen) :
  rare byRarity <> [] -> unitSource (random st) ->
  exists v, pool (rareSlot chance byRarity st) = pool st ++ [v] /\
            drawnFrom (rare byRarity ++ mythic byRarity) v /\
            unitSource (random (rareSlot chance byRarity st)).
Proof.
  intros Hrare Hunit. rewrite rareSlot_unfold.
  destruct (call_unit _ Hunit) as [_ Hnext].
  match goal with |- context [pushIfAny ?arr ?st1] =>
    destruct (pushIfAny_draw arr st1) as (v & Hv & Hfrom & Hnext');
      [apply rarePool_nonempty; exact Hrare | exact Hnext |]
  end.
  exists v. split; [exact Hv|]. split; [|exact Hnext'].
  eapply drawnFrom_incl; [apply rarePool_incl|exact Hfrom].
Qed.

Lemma legacyPack_length (chance : Q) (byRarity : ByRarity) (st : Gen) :
  common byRarity <> [] -> uncommon byRarity <> [] -> rare byRarity <> [] ->
  length (pool (legacyPack chance byRarity st)) = (length (pool st) + 14)%nat.
Proof.
  intros Hc Hu Hr. unfold legacyPack.
  rewrite (iter_pushIfAny_length _ _ _ Hc), (iter_pushIfAny_length _ _ _ Hu).
  rewrite (rareSlot_length _ _ _ Hr). lia.
Qed.

Lemma groupByRarity_nonempty (cards : list Card) (c : Card) (r : string) :
  In c cards -> rarity c = r -> List.filter (hasRarity r) cards <> [].
Proof.
  intros Hin Hr Hnil.
  assert (Hc : In c (List.filter (hasRarity r) cards)).
  { apply filter_In. split; [exact Hin|]. unfold hasRarity.
    apply String.eqb_eq. exact Hr. }
  rewrite Hnil in Hc. exact Hc.
Qed.

Lemma bucket_rarity (cards : list Card) (r : string) (c : Card) :
  In c (List.filter (hasRarity r) cards) -> rarity c = r.
Proof.
  intros H. apply filter_In in H as [_ H]. apply String.eqb_eq. exact H.
Qed.

Lemma bucket_nonempty (cards : list Card) (r : string) :
  List.filter (hasRarity r) cards <> [] <->
  exists c, In c cards /\ rarity c = r.
Proof.
  split.
  - destruct (List.filter (hasRarity r) cards) as [|c l] eqn:Hl; [congruence|].
    intros _. assert (Hc : In c (List.filter (hasRarity r) cards)).
    { rewrite Hl. left. reflexivity. }
    exists c. split; [|exact (bucket_rarity _ _ _ Hc)].
    apply filter_In in Hc as [Hc _]. exact Hc.
  - intros (c & Hin & Hr). exact (groupByRarity_nonempty cards c r Hin Hr).
Qed.

Lemma dealt_bucket (cards : list Card) (r : string) (rs : list string)
  (v : option Card) :
  In r rs -> drawnFrom (List.filter (hasRarity r) cards) v -> dealt cards rs v.
Proof.
  intros Hr (c & -> & Hin). exists c. split; [reflexivity|].
  rewrite (bucket_rarity _ _ _ Hin).
  apply filter_In in Hin as [Hin _]. split; assumption.
Qed.

Lemma dealt_weaken (cards : list Card) (rs rs' : list string)
  (v : option Card) :
  incl rs rs' -> dealt cards rs v -> dealt cards rs' v.
Proof. intros Hrs (c & -> & Hin & Hr). exists c. auto. Qed.

(** *** Full packs *)

Lemma legacyPack_full (chance : Q) (cards : list Card) (st : Gen) :
  common (groupByRarity cards) <> [] ->
  uncommon (groupByRarity cards) <> [] ->
  rare (groupByRarity cards) <> [] ->
  unitSource (random st) ->
  exists pack,
    pool (legacyPack chance (groupByRarity cards) st) = pool st ++ pack /\
    fullPack cards pack /\
    unitSource (random (legacyPack chance (groupByRarity cards) st)).
Proof.
  intros Hc Hu Hr Hunit. unfold legacyPack.
  destruct (rareSlot_draw chance _ st Hr Hunit) as (r & Hpr & Hfr & H1).
  destruct (iter_pushIfAny_draws 3 _ _ Hu H1) as (us & Hpu & Hlu & Hfu & H2).
  destruct (iter_pushIfAny_draws 10 _ _ Hc H2) as (cs & Hpc & Hlc & Hfc & H3).
  exists (r :: us ++ cs). rewrite Hpc, Hpu, Hpr, <- !app_assoc.
  split; [reflexivity|]. split; [|exact H3].
  exists r, us, cs. split; [reflexivity|]. split.
  { destruct Hfr as (c & -> & Hin). apply in_app_or in Hin as [Hin|Hin].
    - apply (dealt_bucket cards "rare"); [simpl; auto|]. exists c. auto.
    - apply (dealt_bucket cards "mythic"); [simpl; auto|]. exists c. auto. }
  split; [exact Hlu|]. split.
  { eapply List.Forall_impl; [|exact Hfu]. intros v.
    apply (dealt_bucket cards "uncommon"). simpl. auto. }
  split; [exact Hlc|].
  eapply List.Forall_impl; [|exact Hfc]. intros v.
  apply (dealt_bucket cards "common"). simpl. auto.
Qed.

Lemma iter_legacyPack_full (chance : Q) (cards : list Card) (n : nat)
  (st : Gen) :
  common (groupByRarity cards) <> [] ->
  uncommon (groupByRarity cards) <> [] ->
  rare (groupByRarity cards) <> [] ->
  unitSource (random st) ->
  exists packs,
    pool (Nat.iter n (legacyPack chance (groupByRarity cards)) st)
    = pool st ++ concat packs /\
    length packs = n /\ Forall (fullPack cards) packs /\
    unitSource (random (Nat.iter n (legacyPack chance (groupByRarity cards)) st)).
Proof.
  intros Hc Hu Hr Hunit. induction n as [|n (packs & Hpool & Hlen & Hall & Hnext)].
  - exists []. simpl. rewrite app_nil_r. auto.
  - change (Nat.iter (S n) ?f ?x) with (f (Nat.iter n f x)).
    destruct (legacyPack_full chance cards _ Hc Hu Hr Hnext)
      as (pack & Hpack & Hfull & Hnext').
    exists (packs ++ [pack]). rewrite Hpack, Hpool, concat_app. simpl.
    rewrite app_nil_r, <- app_assoc. split; [reflexivity|].
    split; [rewrite length_app; simpl; lia|]. split; [|exact Hnext'].
    apply Forall_app. split; [exact Hall|]. constructor; [exact Hfull|constructor].
Qed.

Lemma generateSealedPoolWith_full (chance : Q) (cards : list Card)
  (seed : option Seed) (ambient : nat -> Q) :
  common (groupByRarity cards) <> [] ->
  uncommon (groupByRarity cards) <> [] ->
  rare (groupByRarity cards) <> [] ->
  (forall n, unitDraw (ambient n)) ->
  exists packs,
    generateSealedPoolWith chance cards seed ambient = concat packs /\
    length packs = 6%nat /\ Forall (fullPack cards) packs.
Proof.
  intros Hc Hu Hr Hamb. unfold generateSealedPoolWith. cbv zeta.
  destruct (iter_legacyPack_full chance cards 6
              {| random := randomSource seed ambient; pool := [] |} Hc Hu Hr)
    as (packs & Hpool & Hlen & Hall & _).
  { apply randomSource_unit. exact Hamb. }
  exists packs. rewrite Hpool. auto.
Qed.

Lemma generateSealedPoolWith_length (chance : Q) (cards : list Card)
  (seed : option Seed) (ambient : nat -> Q) :
  common (groupByRarity cards) <> [] ->
  uncommon (groupByRarity cards) <> [] ->
  rare (groupByRarity cards) <> [] ->
  length (generateSealedPoolWith chance cards seed ambient) = 84%nat.
Proof.
  intros Hc Hu Hr. unfold generateSealedPoolWith. cbv zeta.
  unfold Nat.iter, nat_rect.
  rewrite !legacyPack_length by assumption. reflexivity.
Qed.

(** C7: with at least one common, one uncommon, one rare and one mythic
    card in the catalogue, every pack of the legacy generator, in the
    current file and in the copy of [src/shared/mtg.js], adds 14 elements
    to the pool: one card of the catalogue whose rarity is rare or mythic,
    then three whose rarity is uncommon, then ten whose rarity is common;
    the pool returned has 84 elements and is six such packs one after the
    other ([Math.random] being taken in the unit interval where the cards
    themselves are described). *)
Theorem legacy_pool_cardinality (cards : list Card) (seed : option Seed)
  (ambient : nat -> Q) :
  (exists c, In c cards /\ rarity c = "common") ->
  (exists c, In c cards /\ rarity c = "uncommon") ->
  (exists c, In c cards /\ rarity c = "rare") ->
  (exists c, In c cards /\ rarity c = "mythic") ->
  length (generateSealedPool cards seed ambient) = 84%nat /\
  length (generateSealedPool_shared cards seed ambient) = 84%nat /\
  (forall chance st,
     length (pool (legacyPack chance (groupByRarity cards) st))
     = (length (pool st) + 14)%nat) /\
  (forall chance st,
     unitSource (random st) ->
     exists r us cs,
       pool (legacyPack chance (groupByRarity cards) st)
       = pool st ++ r :: us ++ cs /\
       (exists c, r = Some c /\ In c cards /\
                  (rarity c = "rare" \/ rarity c = "mythic")) /\
       length us = 3%nat /\
       Forall (fun v => exists c, v = Some c /\ In c cards /\
                                  rarity c = "uncommon") us /\
       length cs = 10%nat /\
       Forall (fun v => exists c, v = Some c /\ In c cards /\
                                  rarity c = "common") cs) /\
  ((forall n, unitDraw (ambient n)) ->
   exists packs packs',
     generateSealedPool cards seed ambient = concat packs /\
     generateSealedPool_shared cards seed ambient = concat packs' /\
     length packs = 6%nat /\ length packs' = 6%nat /\
     Forall (fullPack cards) packs /\ Forall (fullPack cards) packs').
Proof.
  intros (c & Hc & Hcr) (u & Hu & Hur) (r & Hr & Hrr) _.
  pose proof (groupByRarity_nonempty cards c _ Hc Hcr) as Hcommon.
  pose proof (groupByRarity_nonempty cards u _ Hu Hur) as Huncommon.
  pose proof (groupByRarity_nonempty cards r _ Hr Hrr) as Hrare.
  split; [apply generateSealedPoolWith_length; assumption|].
  split; [apply generateSealedPoolWith_length; assumption|].
  split; [intros chance st; apply legacyPack_length; assumption|].
  split.
  - intros chance st Hunit.
    destruct (legacyPack_full chance cards st Hcommon Huncommon Hrare Hunit)
      as (pack & Hpool & (r0 & us & cs & -> & Hr0 & Hlu & Hus & Hlc & Hcs) & _).
    exists r0, us, cs. split; [exact Hpool|]. split.
    { destruct Hr0 as (c0 & -> & Hin & Hrarity). exists c0.
      split; [reflexivity|]. split; [exact Hin|].
      simpl in Hrarity. intuition auto. }
    split; [exact Hlu|]. split.
    { eapply List.Forall_impl; [|exact Hus].
      intros v (c0 & -> & Hin & Hrarity). exists c0.
      simpl in Hrarity. intuition auto. }
    split; [exact Hlc|].
    eapply List.Forall_impl; [|exact Hcs].
    intros v (c0 & -> & Hin & Hrarity). exists c0.
    simpl in Hrarity. intuition auto.
  - intros Hamb.
    destruct (generateSealedPoolWith_full (1 # 8) cards seed ambient
                Hcommon Huncommon Hrare Hamb) as (packs & Hp & Hl & Hf).
    destruct (generateSealedPoolWith_full oneSeventh cards seed ambient
                Hcommon Huncommon Hrare Hamb) as (packs' & Hp' & Hl' & Hf').
    exists packs, packs'. auto 10.
Qed.

Lemma legacy_pool_cardinality_witness :
  length (generateSealedPool Samples.sampleCatalog
            (Some (SeedString "seed-A")) Samples.zeros) = 84%nat.
Proof.
  apply (legacy_pool_cardinality Samples.sampleCatalog
           (Some (SeedString "seed-A")) Samples.zeros).
  - exists (Samples.sampleCard "c1" "1" "common"). simpl. auto.
  - exists (Samples.sampleCard "u1" "3" "uncommon"). simpl. auto.
  - exists (Samples.sampleCard "r1" "4" "rare"). simpl. auto 10.
  - exists (Samples.sampleCard "m1" "5" "mythic"). simpl. auto 10.
Defined.

(** *** The rare-or-mythic draw *)

Lemma advance_add (m n : nat) (random : Random) :
  advance m (advance n random) = advance (m + n) random.
Proof. unfold advance. symmetry. apply Nat.iter_add. Qed.

Lemma pickRandom_random (arr : list Card) (random : Random) :
  snd (pickRandom arr random) = advance 1 random.
Proof.
  change (advance 1 random) with (snd (call random)).
  unfold pickRandom. destruct (call random). reflexivity.
Qed.

(** A guarded push adds one card of the array and calls [random] once, or
    does nothing when the array is empty. *)
Lemma pushIfAny_step (arr : list Card) (st : Gen) :
  unitSource (random st) ->
  exists vs,
    pool (pushIfAny arr st) = pool st ++ vs /\
    Forall (drawnFrom arr) vs /\
    (arr <> [] -> length vs = 1%nat) /\ (arr = [] -> vs = []) /\
    random (pushIfAny arr st) = advance (length vs) (random st) /\
    unitSource (random (pushIfAny arr st)).
Proof.
  intros Hunit. destruct arr as [|c arr].
  - exists []. unfold pushIfAny. simpl. rewrite app_nil_r.
    split; [reflexivity|]. split; [constructor|]. split; [congruence|]. auto.
  - destruct (pushIfAny_draw (c :: arr) st) as (v & Hv & Hfrom & Hnext);
      [discriminate|exact Hunit|].
    exists [v]. split; [exact Hv|]. split; [constructor; [exact Hfrom|constructor]|].
    split; [reflexivity|]. split; [discriminate|]. split; [|exact Hnext].
    rewrite pushIfAny_nonempty by discriminate.
    destruct (pushPick_pool (c :: arr) st) as [_ ->]. apply pickRandom_random.
Qed.

Lemma iter_pushIfAny_steps (n : nat) (arr : list Card) (st : Gen) :
  unitSource (random st) ->
  exists vs,
    pool (Nat.iter n (pushIfAny arr) st) = pool st ++ vs /\
    Forall (drawnFrom arr) vs /\
    random (Nat.iter n (pushIfAny arr) st) = advance (length vs) (random st) /\
    unitSource (random (Nat.iter n (pushIfAny arr) st)).
Proof.
  intros Hunit. induction n as [|n (vs & Hpool & Hall & Hrandom & Hnext)].
  - exists []. simpl. rewrite app_nil_r. auto.
  - change (Nat.iter (S n) ?f ?x) with (f (Nat.iter n f x)).
    destruct (pushIfAny_step arr _ Hnext)
      as (ws & Hpool' & Hall' & _ & _ & Hrandom' & Hnext').
    exists (vs ++ ws). rewrite Hpool', Hpool, <- app_assoc.
    split; [reflexivity|]. split; [apply Forall_app; auto|].
    split; [|exact Hnext'].
    rewrite Hrandom', Hrandom, advance_add, length_app. f_equal. lia.
Qed.

(** The three outcomes of the draw that opens a pack. *)
Lemma rareSlot_cases (chance : Q) (cards : list Card) (st : Gen) :
  unitSource (random st) ->
  let substituted :=
    (fst (call (random st)) < chance)%Q /\
    exists m, In m cards /\ rarity m = "mythic" in
  exists opening,
    pool (rareSlot chance (groupByRarity cards) st) = pool st ++ opening /\
    random (rareSlot chance (groupByRarity cards) st)
    = advance (1 + length opening) (random st) /\
    unitSource (random (rareSlot chance (groupByRarity cards) st)) /\
    (substituted ->
     exists c, opening = [Some c] /\ In c cards /\ rarity c = "mythic") /\
    (~ substituted -> (exists r, In r cards /\ rarity r = "rare") ->
     exists c, opening = [Some c] /\ In c cards /\ rarity c = "rare") /\
    (~ substituted -> ~ (exists r, In r cards /\ rarity r = "rare") ->
     opening = []).
Proof.
  intros Hunit. cbv zeta. rewrite rareSlot_unfold.
  destruct (call_unit _ Hunit) as [_ Hnext].
  set (draw := fst (call (random st))).
  assert (Hsub : Qltb draw chance
                 && (0 <? length (mythic (groupByRarity cards)))%nat = true
                 <-> (draw < chance)%Q /\
                     exists m, In m cards /\ rarity m = "mythic").
  { rewrite andb_true_iff, Qltb_lt, <- nonempty_length.
    unfold groupByRarity; cbn [mythic]. rewrite bucket_nonempty. reflexivity. }
  set (st1 := {| random := snd (call (random st)); pool := pool st |}).
  assert (Hone : forall arr r,
            arr = List.filter (hasRarity r) cards ->
            exists opening,
              pool (pushIfAny arr st1) = pool st ++ opening /\
              random (pushIfAny arr st1)
              = advance (1 + length opening) (random st) /\
              unitSource (random (pushIfAny arr st1)) /\
              ((exists c, In c cards /\ rarity c = r) ->
               exists c, opening = [Some c] /\ In c cards /\ rarity c = r) /\
              (~ (exists c, In c cards /\ rarity c = r) -> opening = [])).
  { intros arr r ->.
    destruct (pushIfAny_step (List.filter (hasRarity r) cards) st1 Hnext)
      as (vs & Hpool & Hall & Hsome & Hnone & Hrandom & Hnext').
    exists vs. split; [exact Hpool|]. split.
    { rewrite Hrandom. subst st1. cbn [random].
      change (snd (call (random st))) with (advance 1 (random st)).
      rewrite advance_add. f_equal. lia. }
    split; [exact Hnext'|]. split.
    - intros Hex. apply bucket_nonempty in Hex. specialize (Hsome Hex).
      destruct vs as [|v [|w vs]]; try discriminate Hsome.
      apply Forall_inv in Hall. destruct Hall as (c & -> & Hin).
      exists c. split; [reflexivity|]. split.
      + apply filter_In in Hin as [Hin _]. exact Hin.
      + exact (bucket_rarity _ _ _ Hin).
    - intros Hex. apply Hnone.
      destruct (List.filter (hasRarity r) cards) as [|c l] eqn:Hl;
        [reflexivity|].
      exfalso. apply Hex. apply bucket_nonempty. rewrite Hl. discriminate. }
  destruct (Qltb draw chance
            && (0 <? length (mythic (groupByRarity cards)))%nat) eqn:HisMythic.
  - destruct (Hone (mythic (groupByRarity cards)) "mythic" eq_refl)
      as (opening & Hpool & Hrandom & Hnext' & Hsome & _).
    exists opening. split; [exact Hpool|]. split; [exact Hrandom|].
    split; [exact Hnext'|].
    assert (Hyes : (draw < chance)%Q /\
                   exists m, In m cards /\ rarity m = "mythic")
      by (apply Hsub; reflexivity).
    split; [intros _; apply Hsome; apply Hyes|].
    split; intros Hno; contradiction.
  - destruct (Hone (rare (groupByRarity cards)) "rare" eq_refl)
      as (opening & Hpool & Hrandom & Hnext' & Hsome & Hnone).
    exists opening. split; [exact Hpool|]. split; [exact Hrandom|].
    split; [exact Hnext'|]. split.
    + intros Hyes. apply Hsub in Hyes. discriminate Hyes.
    + split; [intros _; exact Hsome|intros _; exact Hnone].
Qed.

(** One pack: the draw that opens it, then the uncommons and commons. *)
Lemma legacyPack_steps (chance : Q) (cards : list Card) (st : Gen) :
  unitSource (random st) ->
  let substituted :=
    (fst (call (random st)) < chance)%Q /\
    exists m, In m cards /\ rarity m = "mythic" in
  exists opening rest,
    pool (legacyPack chance (groupByRarity cards) st)
    = pool st ++ opening ++ rest /\
    random (legacyPack chance (groupByRarity cards) st)
    = advance (1 + length opening + length rest) (random st) /\
    unitSource (random (legacyPack chance (groupByRarity cards) st)) /\
    Forall (dealt cards ["uncommon"; "common"]) rest /\
    (substituted ->
     exists c, opening = [Some c] /\ In c cards /\ rarity c = "mythic") /\
    (~ substituted -> (exists r, In r cards /\ rarity r = "rare") ->
     exists c, opening = [Some c] /\ In c cards /\ rarity c = "rare") /\
    (~ substituted -> ~ (exists r, In r cards /\ rarity r = "rare") ->
     opening = []).
Proof.
  intros Hunit. cbv zeta.
  destruct (rareSlot_cases chance cards st Hunit)
    as (opening & Hpo & Hro & H1 & Hcases).
  unfold legacyPack.
  destruct (iter_pushIfAny_steps 3 (uncommon (groupByRarity cards)) _ H1)
    as (us & Hpu & Hfu & Hru & H2).
  destruct (iter_pushIfAny_steps 10 (common (groupByRarity cards)) _ H2)
    as (cs & Hpc & Hfc & Hrc & H3).
  exists opening, (us ++ cs). rewrite Hpc, Hpu, Hpo, <- !app_assoc.
  split; [reflexivity|]. split.
  { rewrite Hrc, Hru, Hro, !advance_add, length_app. f_equal. lia. }
  split; [exact H3|]. split; [|exact Hcases].
  apply Forall_app. split.
  - eapply List.Forall_impl; [|exact Hfu]. intros v.
    apply (dealt_bucket cards "uncommon"). simpl. auto.
  - eapply List.Forall_impl; [|exact Hfc]. intros v.
    apply (dealt_bucket cards "common"). simpl. auto.
Qed.

Lemma packStart_unit (chance : Q) (cards : list Card) (seed : option Seed)
  (ambient : nat -> Q) (k : nat) :
  (forall n, unitDraw (ambient n)) ->
  unitSource (random (packStart chance cards seed ambient k)).
Proof.
  intros Hamb. unfold packStart. induction k as [|k IH].
  - apply randomSource_unit. exact Hamb.
  - change (Nat.iter (S k) ?f ?x) with (f (Nat.iter k f x)).
    destruct (legacyPack_steps chance cards _ IH) as (_ & _ & _ & _ & H & _).
    exact H.
Qed.

(** The pool only grows: what later packs add comes after. *)
Lemma packStart_prefix (chance : Q) (cards : list Card) (seed : option Seed)
  (ambient : nat -> Q) (k j : nat) :
  (forall n, unitDraw (ambient n)) ->
  exists later,
    pool (packStart chance cards seed ambient (j + k))
    = pool (packStart chance cards seed ambient k) ++ later.
Proof.
  intros Hamb. induction j as [|j (later & IH)].
  - exists []. rewrite app_nil_r. reflexivity.
  - pose proof (packStart_unit chance cards seed ambient (j + k) Hamb) as Hunit.
    destruct (legacyPack_steps chance cards _ Hunit)
      as (opening & rest & Hpool & _).
    exists (later ++ opening ++ rest).
    change (packStart chance cards seed ambient (S j + k))
      with (legacyPack chance (groupByRarity cards)
              (packStart chance cards seed ambient (j + k))).
    rewrite Hpool, IH, <- app_assoc. reflexivity.
Qed.

Lemma generateSealedPoolWith_packs (chance : Q) (cards : list Card)
  (seed : option Seed) (ambient : nat -> Q) (k : nat) :
  (forall n, unitDraw (ambient n)) -> (k < 6)%nat ->
  let st := packStart chance cards seed ambient k in
  let substituted :=
    (fst (call (random st)) < chance)%Q /\
    exists m, In m cards /\ rarity m = "mythic" in
  exists opening rest later,
    generateSealedPoolWith chance cards seed ambient
    = pool st ++ opening ++ rest ++ later /\
    pool (packStart chance cards seed ambient (S k))
    = pool st ++ opening ++ rest /\
    random (packStart chance cards seed ambient (S k))
    = advance (1 + length opening + length rest) (random st) /\
    Forall (dealt cards ["uncommon"; "common"]) rest /\
    (substituted ->
     exists c, opening = [Some c] /\ In c cards /\ rarity c = "mythic") /\
    (~ substituted -> (exists r, In r cards /\ rarity r = "rare") ->
     exists c, opening = [Some c] /\ In c cards /\ rarity c = "rare") /\
    (~ substituted -> ~ (exists r, In r cards /\ rarity r = "rare") ->
     opening = []).
Proof.
  intros Hamb Hk. cbv zeta.
  pose proof (packStart_unit chance cards seed ambient k Hamb) as Hunit.
  destruct (legacyPack_steps chance cards _ Hunit)
    as (opening & rest & Hpool & Hrandom & _ & Hrest & Hcases).
  destruct (packStart_prefix chance cards seed ambient (S k) (5 - k) Hamb)
    as (later & Hlater).
  exists opening, rest, later.
  change (packStart chance cards seed ambient (S k))
    with (legacyPack chance (groupByRarity cards)
            (packStart chance cards seed ambient k)) in *.
  split.
  { change (generateSealedPoolWith chance cards seed ambient)
      with (pool (packStart chance cards seed ambient 6)).
    replace 6%nat with (5 - k + S k)%nat by lia.
    rewrite Hlater, Hpool, <- !app_assoc. reflexivity. }
  split; [exact Hpool|]. split; [exact Hrandom|]. split; [exact Hrest|].
  exact Hcases.
Qed.

(** [oneSeventh] is the double nearest to one seventh: a 53-bit
    significand scaled by 2^-55, less than half a unit in the last place
    below 1/7. *)
Lemma oneSeventh_nearest :
  (oneSeventh == 5146971002709138 # 36028797018963968)%Q /\
  4503599627370496 <= 5146971002709138 < 9007199254740992 /\
  (oneSeventh < 1 # 7)%Q /\
  (1 # 7 < oneSeventh + (1 # 72057594037927936))%Q.
Proof.
  unfold oneSeventh, Qeq, Qlt. simpl. repeat split; lia.
Qed.

(** C5, amended: in each of the six packs of the legacy generator the
    first thing done is one call of [random ()], and the card the pack
    opens with is a mythic of the catalogue exactly when that draw is
    below the copy's constant and the catalogue has a mythic; otherwise it
    is a rare of the catalogue, or nothing when the catalogue has no rare.
    The constant is 0.125 in the current file and [(1/7)], the double
    nearest to one seventh, in the copy of [src/shared/mtg.js].  The rest of the pack holds uncommons and commons
    only, and the pack calls [random] once for the decision and once for
    each card it adds, so that the next pack decides on a draw of its
    own. *)
Theorem mythic_substitution (cards : list Card) (seed : option Seed)
  (ambient : nat -> Q) :
  (forall n, unitDraw (ambient n)) ->
  forall chance gen,
    (chance = 1 # 8 /\ gen = generateSealedPool) \/
    (chance = oneSeventh /\ gen = generateSealedPool_shared) ->
    forall k, (k < 6)%nat ->
      let st := packStart chance cards seed ambient k in
      let substituted :=
        (fst (call (random st)) < chance)%Q /\
        exists m, In m cards /\ rarity m = "mythic" in
      exists opening rest later,
        gen cards seed ambient = pool st ++ opening ++ rest ++ later /\
        pool (packStart chance cards seed ambient (S k))
        = pool st ++ opening ++ rest /\
        random (packStart chance cards seed ambient (S k))
        = advance (1 + length opening + length rest) (random st) /\
        Forall (dealt cards ["uncommon"; "common"]) rest /\
        (substituted ->
         exists c, opening = [Some c] /\ In c cards /\ rarity c = "mythic") /\
        (~ substituted -> (exists r, In r cards /\ rarity r = "rare") ->
         exists c, opening = [Some c] /\ In c cards /\ rarity c = "rare") /\
        (~ substituted -> ~ (exists r, In r cards /\ rarity r = "rare") ->
         opening = []).
Proof.
  intros Hamb chance gen [[-> ->]|[-> ->]] k Hk;
    apply generateSealedPoolWith_packs; assumption.
Qed.

Lemma mythic_substitution_witness :
  exists opening rest later,
    generateSealedPool Samples.sampleCatalog None Samples.zeros
    = opening ++ rest ++ later /\
    (exists c, opening = [Some c] /\ In c Samples.sampleCatalog /\
               rarity c = "mythic").
Proof.
  assert (Hamb : forall n, unitDraw (Samples.zeros n)).
  { intros n. split; unfold Samples.zeros, Qle, Qlt; simpl; lia. }
  destruct (mythic_substitution Samples.sampleCatalog None Samples.zeros Hamb
              (1 # 8) generateSealedPool (or_introl (conj eq_refl eq_refl))
              0%nat ltac:(lia))
    as (opening & rest & later & Hpool & _ & _ & _ & Hmythic & _).
  exists opening, rest, later. split; [exact Hpool|].
  apply Hmythic. split.
  - unfold Qlt. simpl. lia.
  - exists (Samples.sampleCard "m1" "5" "mythic"). simpl. auto 10.
Defined.

(** C5, as stated, fails on the copy of the generator in
    [src/shared/mtg.js], which compares the draw with 1/7: a draw of 0.13
    is not below 0.125, the catalogue has a mythic, and that copy opens
    the pack with the mythic, where the current generator opens it with a
    rare. *)
Lemma shared_copy_threshold :
  ~ (fst (call (MathRandom Samples.sevenths 0)) < 1 # 8)%Q /\
  mythic (groupByRarity Samples.sampleCatalog) <> [] /\
  head (generateSealedPool_shared Samples.sampleCatalog None Samples.sevenths)
  = Some (Some (Samples.sampleCard "m1" "5" "mythic")) /\
  head (generateSealedPool Samples.sampleCatalog None Samples.sevenths)
  = Some (Some (Samples.sampleCard "r1" "4" "rare")).
Proof.
  split; [unfold Qlt; simpl; lia|]. split; [discriminate|].
  split; vm_compute; reflexivity.
Qed.

End LegacyFacts.

(** ** Pool membership and determinism *)

Section PoolFacts.
Import Js Range Classifier Rng Sealed.
Variable cards : list Card.

Lemma fold_left_invariant {A B} (P : A -> Prop) (f : A -> B -> A)
  (l : list B) (a : A) :
  (forall a b, P a -> P (f a b)) -> P a -> P (fold_left f l a).
Proof.
  intros Hf. revert a. induction l as [|b l IH]; simpl; auto.
Qed.

Lemma iter_invariant {A} (P : A -> Prop) (f : A -> A) (n : nat) (a : A) :
  (forall a, P a -> P (f a)) -> P a -> P (Nat.iter n f a).
Proof. intros Hf Ha. induction n as [|n IH]; simpl; auto. Qed.

Abbreviation legacyInv := (legacyInvariant cards).
Abbreviation bucketsInv := (bucketsWithin cards).

Lemma pushIfAny_invariant (arr : list Card) (st : Gen) :
  incl arr cards -> legacyInv st -> legacyInv (pushIfAny arr st).
Proof.
  intros Hincl [Hunit Hpool]. destruct arr as [|c arr].
  - split; assumption.
  - destruct (pushIfAny_draw (c :: arr) st) as (v & Hv & Hfrom & Hnext);
      [discriminate|exact Hunit|].
    split; [exact Hnext|]. rewrite Hv. apply Forall_app.
    split; [exact Hpool|].
    constructor; [|constructor]. eapply drawnFrom_incl; eassumption.
Qed.

Lemma bucket_incl (r : string) : incl (List.filter (hasRarity r) cards) cards.
Proof. apply incl_filter. Qed.

Lemma legacyPack_invariant (chance : Q) (st : Gen) :
  legacyInv st -> legacyInv (legacyPack chance (groupByRarity cards) st).
Proof.
  intros [Hunit Hpool]. unfold legacyPack.
  apply iter_invariant; [intros a; apply pushIfAny_invariant, bucket_incl|].
  apply iter_invariant; [intros a; apply pushIfAny_invariant, bucket_incl|].
  rewrite rareSlot_unfold. apply pushIfAny_invariant.
  - destruct (_ && _); apply bucket_incl.
  - split; [apply call_unit; exact Hunit|exact Hpool].
Qed.

Lemma generateSealedPoolWith_members (chance : Q) (seed : option Seed)
  (ambient : nat -> Q) :
  (forall n, unitDraw (ambient n)) ->
  Forall (drawnFrom cards) (generateSealedPoolWith chance cards seed ambient).
Proof.
  intros Hamb. unfold generateSealedPoolWith. cbv zeta.
  apply (iter_invariant legacyInv).
  - intros a. apply legacyPack_invariant.
  - split; [apply randomSource_unit; exact Hamb|constructor].
Qed.

Lemma addUnique_incl (matching bucket : list Card) :
  incl matching cards -> incl bucket cards ->
  incl (addUnique matching bucket) cards.
Proof.
  unfold addUnique. revert bucket.
  induction matching as [|card matching IH]; intros bucket Hm Hb; simpl.
  - exact Hb.
  - apply IH.
    + intros x Hx. apply Hm. right. exact Hx.
    + destruct (existsb _ bucket); [exact Hb|].
      apply incl_app; [exact Hb|].
      intros x [<-|[]]. apply Hm. left. reflexivity.
Qed.

Lemma lookup_default_incl (byRarity : gmap string (list Card)) (r : string) :
  bucketsInv byRarity -> incl (default [] (byRarity !! r)) cards.
Proof.
  intros Hinv. destruct (byRarity !! r) as [bucket|] eqn:Hr; simpl.
  - exact (Hinv r bucket Hr).
  - intros x [].
Qed.

Lemma addRarity_invariant (ranges : list string)
  (byRarity : gmap string (list Card)) (r : string) :
  bucketsInv byRarity -> bucketsInv (addRarity cards ranges byRarity r).
Proof.
  intros Hinv. unfold addRarity.
  set (byRarity' := match byRarity !! r with
                    | Some _ => byRarity
                    | None => <[r:=[]]> byRarity
                    end).
  assert (Hinv' : bucketsInv byRarity').
  { subst byRarity'. destruct (byRarity !! r); [exact Hinv|].
    apply map_Forall_insert_2; [intros x []|exact Hinv]. }
  apply map_Forall_insert_2; [|exact Hinv'].
  apply addUnique_incl; [apply incl_filter|].
  apply lookup_default_incl. exact Hinv'.
Qed.

Lemma cardsByRarityInPool_invariant (slots : list BoosterSlot) :
  bucketsInv (cardsByRarityInPool cards slots).
Proof.
  unfold cardsByRarityInPool. apply (fold_left_invariant bucketsInv).
  - intros byRarity slot Hinv.
    destruct (slotPool slot) as [p|]; [|exact Hinv].
    destruct (rarities slot) as [rs|]; [|exact Hinv].
    apply (fold_left_invariant bucketsInv); [|exact Hinv].
    intros a r. apply addRarity_invariant.
  - apply map_Forall_empty.
Qed.

Lemma allInPool_incl (slots : list BoosterSlot) :
  incl (allInPool cards slots) cards.
Proof. apply incl_filter. Qed.

Lemma pickIfAny_in (arr : list Card) (random : Random) (c : Card) :
  fst (pickIfAny arr random) = Some c -> In c arr.
Proof.
  unfold pickIfAny. destruct (0 <? length arr)%nat.
  - apply pickRandom_in.
  - discriminate.
Qed.

Lemma drawItem_invariant (byRarity : gmap string (list Card))
  (inPool : list Card) (slot : BoosterSlot)
  (p : list (string * list string)) (st : Gen) :
  bucketsInv byRarity -> incl inPool cards ->
  Forall (drawnFrom cards) (pool st) ->
  Forall (drawnFrom cards) (pool (drawItem byRarity inPool slot p st)).
Proof.
  intros Hbuckets HinPool Hpool. unfold drawItem.
  assert (Hpick : forall arr random,
            incl arr cards ->
            Forall (drawnFrom cards)
              (pool (let (card, random') := pickIfAny arr random in
                     {| random := random';
                        pool := match card with
                                | Some c => pool st ++ [Some c]
                                | None => pool st
                                end |}))).
  { intros arr random Harr.
    pose proof (pickIfAny_in arr random) as Hin.
    destruct (pickIfAny arr random) as [[c|] random']; simpl in *.
    - apply Forall_app. split; [exact Hpool|].
      constructor; [|constructor]. exists c. auto.
    - exact Hpool. }
  destruct (rarities slot) as [rs|].
  - destruct (chooseRarity byRarity slot rs (random st)) as [r random1].
    apply Hpick, lookup_default_incl. exact Hbuckets.
  - apply Hpick. intros x Hx. apply filter_In in Hx as [Hx _]. auto.
Qed.

Lemma structuredPack_invariant (byRarity : gmap string (list Card))
  (inPool : list Card) (slots : list BoosterSlot) (st : Gen) :
  bucketsInv byRarity -> incl inPool cards ->
  Forall (drawnFrom cards) (pool st) ->
  Forall (drawnFrom cards) (pool (structuredPack byRarity inPool slots st)).
Proof.
  intros Hbuckets HinPool. unfold structuredPack.
  apply (fold_left_invariant (fun st => Forall (drawnFrom cards) (pool st))).
  intros a slot Ha. unfold fillSlot.
  destruct (slotPool slot) as [p|]; [|exact Ha].
  destruct (count slot) as [[|n]|]; try exact Ha.
  apply (iter_invariant (fun st => Forall (drawnFrom cards) (pool st)));
    [|exact Ha].
  intros b. apply drawItem_invariant; assumption.
Qed.

(** C9: whatever the booster data, the seed and the number of packs, each
    element of the pool returned by [generateSealedPoolFromBoosterData],
    on its structured path as on its fallback, and by [generateSealedPool]
    is a card of the catalogue it was given ([Math.random] being taken in
    the unit interval). *)
Theorem pool_cards_from_catalog (data : BoosterData) (setCode : string)
  (numPacks : nat) (seed : option Seed) (ambient : nat -> Q) :
  (forall n, unitDraw (ambient n)) ->
  Forall (drawnFrom cards)
    (generateSealedPoolFromBoosterData data setCode cards numPacks seed ambient)
  /\ Forall (drawnFrom cards) (generateSealedPool cards seed ambient).
Proof.
  intros Hamb.
  pose proof (generateSealedPoolWith_members (1 # 8) seed ambient Hamb) as Hlegacy.
  split; [|exact Hlegacy].
  unfold generateSealedPoolFromBoosterData. cbv zeta.
  destruct (boosters (boosterIndex data) !! setCode) as [types|];
    [|exact Hlegacy].
  destruct (if includes "play" types then Some "play"
            else if includes "draft" types then Some "draft" else None)
    as [boosterType|]; [|exact Hlegacy].
  destruct (loadBoosterFile data setCode boosterType ≫= slots) as [sl|];
    [|exact Hlegacy].
  apply (iter_invariant (fun st => Forall (drawnFrom cards) (pool st)));
    [|constructor].
  intros st. apply structuredPack_invariant.
  - apply cardsByRarityInPool_invariant.
  - apply allInPool_incl.
Qed.

(** For a seed that is truthy (a non-empty string or a non-zero number)
    the function bound to [random] is the seeded closure, and what
    [Math.random] would have returned plays no part in the pool. *)
Lemma seeded_pool_deterministic (data : BoosterData) (setCode : string)
  (numPacks : nat) (seed : option Seed) (ambient ambient' : nat -> Q) :
  truthy seed = true ->
  (exists s, seed = Some s /\ randomSource seed ambient = seededRandom s) /\
  generateSealedPoolFromBoosterData data setCode cards numPacks seed ambient =
  generateSealedPoolFromBoosterData data setCode cards numPacks seed ambient' /\
  generateSealedPool cards seed ambient = generateSealedPool cards seed ambient'.
Proof.
  intros Htruthy. destruct seed as [s|]; [|discriminate].
  assert (Hlegacy : generateSealedPool cards (Some s) ambient
                    = generateSealedPool cards (Some s) ambient').
  { unfold generateSealedPool, generateSealedPoolWith.
    rewrite !(randomSource_seeded s _ Htruthy). reflexivity. }
  split; [exists s; split; [reflexivity|apply randomSource_seeded; exact Htruthy]|].
  split; [|exact Hlegacy].
  unfold generateSealedPoolFromBoosterData.
  rewrite !(randomSource_seeded s _ Htruthy), Hlegacy. reflexivity.
Qed.

End PoolFacts.

Section PoolExamples.
Import Js Classifier Rng Sealed Samples.

Lemma pool_cards_from_catalog_witness :
  Forall (drawnFrom sampleCatalog)
    (generateSealedPoolFromBoosterData sampleBoosterData "mkm" sampleCatalog 6
       None zeros)
  /\ Forall (drawnFrom sampleCatalog) (generateSealedPool sampleCatalog None zeros).
Proof.
  apply (pool_cards_from_catalog sampleCatalog sampleBoosterData "mkm" 6 None
           zeros).
  intros n. split; unfold zeros, Qle, Qlt; simpl; lia.
Defined.

(** C1 fails on the code for a seed that is given but falsy.  Both
    generators choose the source with [seed ? seededRandom (seed) :
    Math.random] under the comment "Use seeded random if provided", so the
    number 0 and the empty string select [Math.random]: two calls with
    such a seed and the same catalogue return different pools. *)
Lemma falsy_seed_not_deterministic :
  generateSealedPool sampleCatalog (Some (SeedString "")) zeros <>
  generateSealedPool sampleCatalog (Some (SeedString "")) halves /\
  generateSealedPool sampleCatalog (Some (SeedNumber 0)) zeros <>
  generateSealedPool sampleCatalog (Some (SeedNumber 0)) halves /\
  generateSealedPoolFromBoosterData sampleBoosterData "mkm" sampleCatalog 6
    (Some (SeedString "")) zeros <>
  generateSealedPoolFromBoosterData sampleBoosterData "mkm" sampleCatalog 6
    (Some (SeedString "")) halves.
Proof.
  repeat split; intros H; apply (f_equal head) in H; vm_compute in H;
    discriminate H.
Qed.

(** The pool also depends on what [loadBoosterFile] resolves to, which is
    no argument of the generator: with one seed and one catalogue it
    returns 18 cards when the booster file is loaded and the 84 cards of
    the legacy generator when the load failed. *)
Lemma pool_depends_on_loaded_file :
  length (generateSealedPoolFromBoosterData sampleBoosterData "mkm"
            sampleCatalog 6 (Some (SeedString "seed-A")) zeros) = 18%nat /\
  length (generateSealedPoolFromBoosterData LoadSamples.fileNotLoaded "mkm"
            sampleCatalog 6 (Some (SeedString "seed-A")) zeros) = 84%nat.
Proof. split; vm_compute; reflexivity. Qed.

End PoolExamples.

(** * Further properties *)

(** ** Booster eras *)

Section EraFacts.
Import Js Era.

Lemma ascii_compare_refl (c : ascii) : Ascii.compare c c = Eq.
Proof. unfold Ascii.compare. apply N.compare_refl. Qed.

Lemma ascii_compare_lt_trans (a b c : ascii) :
  Ascii.compare a b = Lt -> Ascii.compare b c = Lt -> Ascii.compare a c = Lt.
Proof.
  unfold Ascii.compare. rewrite !N.compare_lt_iff. apply N.lt_trans.
Qed.

Lemma string_leb_trans (a b c : string) :
  String.leb a b = true -> String.leb b c = true -> String.leb a c = true.
Proof.
  unfold String.leb. revert b c.
  induction a as [|x a IH]; intros [|y b] [|z c]; simpl;
    try reflexivity; try discriminate.
  destruct (Ascii.compare x y) eqn:Hxy; try discriminate.
  - apply Ascii.compare_eq_iff in Hxy as ->.
    destruct (Ascii.compare y z) eqn:Hyz; try discriminate.
    + apply IH.
    + reflexivity.
  - destruct (Ascii.compare y z) eqn:Hyz; try discriminate.
    + apply Ascii.compare_eq_iff in Hyz as ->. rewrite Hxy. reflexivity.
    + rewrite (ascii_compare_lt_trans _ _ _ Hxy Hyz). reflexivity.
Qed.

Lemma geString_upward (d d' threshold : string) :
  String.leb d d' = true ->
  geString d threshold = true -> geString d' threshold = true.
Proof.
  unfold geString. intros Hdd' Hd. exact (string_leb_trans _ _ _ Hd Hdd').
Qed.

Lemma geString_threshold (d lower upper : string) :
  String.leb lower upper = true ->
  geString d upper = true -> geString d lower = true.
Proof.
  unfold geString. intros Hlu Hd. exact (string_leb_trans _ _ _ Hlu Hd).
Qed.

(** The era never goes back as the release date grows: a later date (in
    the order [>=] compares strings by) has an era at least as late in
    the order draft, collector-era, set, play. *)
Theorem getBoosterEra_monotone (d d' : string) :
  String.leb d d' = true ->
  (eraRank (getBoosterEra d) <= eraRank (getBoosterEra d'))%nat.
Proof.
  intros Hdd'. unfold getBoosterEra.
  pose proof (geString_upward d d' PLAY_BOOSTER_START Hdd') as Hplay.
  pose proof (geString_upward d d' SET_BOOSTER_START Hdd') as Hset.
  pose proof (geString_upward d d' COLLECTOR_BOOSTER_START Hdd') as Hcol.
  destruct (geString d PLAY_BOOSTER_START).
  { rewrite Hplay by reflexivity. reflexivity. }
  destruct (geString d SET_BOOSTER_START).
  { rewrite Hset by reflexivity.
    destruct (geString d' PLAY_BOOSTER_START); vm_compute; lia. }
  destruct (geString d COLLECTOR_BOOSTER_START).
  { rewrite Hcol by reflexivity.
    destruct (geString d' PLAY_BOOSTER_START),
             (geString d' SET_BOOSTER_START); vm_compute; lia. }
  change (eraRank "draft") with 0%nat. lia.
Qed.

Lemma getBoosterEra_monotone_witness :
  (eraRank (getBoosterEra "2019-10-04") <= eraRank (getBoosterEra "2024-02-09"))%nat.
Proof. apply getBoosterEra_monotone. reflexivity. Defined.

(** The era agrees with the two date predicates: a date has collector
    boosters exactly when its era is not draft, and every date with
    collector boosters has foils. *)
Theorem era_agrees_with_predicates (d : string) :
  (hasCollectorBoosters d = false <-> getBoosterEra d = "draft") /\
  (hasCollectorBoosters d = true -> hasFoils d = true).
Proof.
  unfold hasCollectorBoosters, hasFoils, getBoosterEra. split.
  - pose proof (geString_threshold d COLLECTOR_BOOSTER_START
                  PLAY_BOOSTER_START eq_refl) as Hplay.
    pose proof (geString_threshold d COLLECTOR_BOOSTER_START
                  SET_BOOSTER_START eq_refl) as Hset.
    destruct (geString d PLAY_BOOSTER_START).
    { rewrite Hplay by reflexivity. split; discriminate. }
    destruct (geString d SET_BOOSTER_START).
    { rewrite Hset by reflexivity. split; discriminate. }
    destruct (geString d COLLECTOR_BOOSTER_START); split;
      try discriminate; reflexivity.
  - apply geString_threshold. reflexivity.
Qed.

Lemma era_agrees_with_predicates_witness : hasFoils "2021-03-01" = true.
Proof.
  destruct (era_agrees_with_predicates "2021-03-01") as [_ Hfoil].
  apply Hfoil. reflexivity.
Defined.

(** A Jumpstart set offers the jumpstart booster alone, whatever the
    date; any other set offers exactly one of play and draft (play from
    the play-booster era on) and offers the collector booster exactly
    when the date has collector boosters. *)
Theorem getAvailableBoosterTypes_consistent (setCode d : string) :
  (isJumpstartSet setCode = true ->
   getAvailableBoosterTypes setCode d = ["jumpstart"]) /\
  (isJumpstartSet setCode = false ->
   includes "collector" (getAvailableBoosterTypes setCode d)
   = hasCollectorBoosters d /\
   includes "play" (getAvailableBoosterTypes setCode d)
   = String.eqb (getBoosterEra d) "play" /\
   includes "draft" (getAvailableBoosterTypes setCode d)
   = negb (String.eqb (getBoosterEra d) "play") /\
   includes "jumpstart" (getAvailableBoosterTypes setCode d) = false).
Proof.
  unfold isJumpstartSet, getAvailableBoosterTypes, hasCollectorBoosters,
    getBoosterEra.
  split; intros ->; [reflexivity|].
  pose proof (geString_threshold d COLLECTOR_BOOSTER_START
                PLAY_BOOSTER_START eq_refl) as Hplay.
  destruct (geString d PLAY_BOOSTER_START).
  { rewrite Hplay by reflexivity. repeat split; reflexivity. }
  destruct (geString d SET_BOOSTER_START),
           (geString d COLLECTOR_BOOSTER_START); repeat split; reflexivity.
Qed.

Lemma getAvailableBoosterTypes_consistent_witness :
  getAvailableBoosterTypes "j22" "2022-12-02" = ["jumpstart"] /\
  includes "collector" (getAvailableBoosterTypes "mkm" "2024-02-09")
  = hasCollectorBoosters "2024-02-09".
Proof.
  split.
  - apply getAvailableBoosterTypes_consistent. reflexivity.
  - apply getAvailableBoosterTypes_consistent. reflexivity.
Defined.

End EraFacts.

(** ** Outcome of [fetchWithRetry] *)

Section RetryOutcomeFacts.
Import Js Retry RetryOutcome.
Context {Data : Type}.
Variable net : nat -> Response Data.
Variable url : string.

Lemma response_cases (r : Response Data) :
  (exists d, success r = Some d) \/
  (success r = None /\ rateLimited r = true /\ genericFailure r = None) \/
  (success r = None /\ rateLimited r = false /\ exists e, genericFailure r = Some e).
Proof.
  destruct r as [status [d|e]|e]; simpl.
  - destruct (status =? 429); [right; left; auto|].
    destruct (ok status); simpl; [left; eauto|right; right; eauto].
  - destruct (status =? 429); [right; left; auto|].
    right; right. destruct (ok status); simpl; eauto.
  - right; right. eauto.
Qed.

Lemma fetchWithRetry_from_success (retries left i : nat) (w : World) (d : Data) :
  success (net (fetched w)) = Some d ->
  fetchWithRetry_from net url retries (S left) i w
  = (Normal (Some d), snd (fetch net url w)).
Proof.
  intros H. simpl. destruct (net (fetched w)) as [status json|e];
    simpl in H; [|discriminate].
  destruct json as [d'|e]; [|discriminate].
  destruct (status =? 429); [discriminate|].
  destruct (ok status); [|discriminate].
  injection H as ->. reflexivity.
Qed.

Lemma fetchWithRetry_from_outcome (retries left i : nat) (w : World) :
  (i + left = retries)%nat ->
  forall r w', fetchWithRetry_from net url retries left i w = (r, w') ->
  (fetched w <= fetched w' <= fetched w + left)%nat /\
  (forall k, (fetched w <= k)%nat -> (S k < fetched w')%nat ->
             success (net k) = None) /\
  match r with
  | Throw e =>
      fetched w' = (fetched w + left)%nat /\ (0 < left)%nat /\
      genericFailure (net (fetched w' - 1)%nat) = Some e
  | Normal None =>
      fetched w' = (fetched w + left)%nat /\
      (left = 0%nat \/ rateLimited (net (fetched w' - 1)%nat) = true)
  | Normal (Some d) =>
      (fetched w < fetched w')%nat /\
      success (net (fetched w' - 1)%nat) = Some d
  end.
Proof.
  revert i w. induction left as [|left IH]; intros i w Hsum r w' Hrun.
  - simpl in Hrun. injection Hrun as <- <-.
    split; [lia|]. split; [intros; lia|]. split; [lia|auto].
  - assert (Hlast : forall ms r w',
      fetchWithRetry_from net url retries left (S i)
        (delay ms (snd (fetch net url w))) = (r, w') ->
      success (net (fetched w)) = None ->
      (left = 0%nat -> match r with Normal None => False | _ => True end
                       \/ rateLimited (net (fetched w)) = true) ->
      (fetched w <= fetched w' <= fetched w + S left)%nat /\
      (forall k, (fetched w <= k)%nat -> (S k < fetched w')%nat ->
                 success (net k) = None) /\
      match r with
      | Throw e =>
          fetched w' = (fetched w + S left)%nat /\ (0 < S left)%nat /\
          genericFailure (net (fetched w' - 1)%nat) = Some e
      | Normal None =>
          fetched w' = (fetched w + S left)%nat /\
          (S left = 0%nat \/ rateLimited (net (fetched w' - 1)%nat) = true)
      | Normal (Some d) =>
          (fetched w < fetched w')%nat /\
          success (net (fetched w' - 1)%nat) = Some d
      end).
    { intros ms r0 w0 Hrun0 Hfail Hzero.
      destruct (IH (S i) _ ltac:(lia) _ _ Hrun0) as (Hrange & Hbefore & Hend).
      simpl in Hrange, Hbefore.
      split; [lia|]. split.
      - intros k Hk Hk'. destruct (Nat.eq_dec k (fetched w)) as [->|Hne];
          [exact Hfail|apply Hbefore; lia].
      - destruct r0 as [[d|]|e].
        + destruct Hend as [Hlt Hd]. simpl in Hlt. split; [lia|exact Hd].
        + destruct Hend as [Hw0 Hor]. simpl in Hw0. split; [lia|]. right.
          destruct Hor as [Hz|Hrl]; [|exact Hrl].
          destruct (Hzero Hz) as [[]|Hrl].
          replace (fetched w0 - 1)%nat with (fetched w) by lia. exact Hrl.
        + destruct Hend as (Hw0 & Hpos & He). simpl in Hw0.
          split; [lia|]. split; [lia|exact He]. }
    destruct (response_cases (net (fetched w)))
      as [[d Hd]|[(Hs & Hrl & Hg)|(Hs & Hrl & e & Hg)]].
    + rewrite (fetchWithRetry_from_success _ _ _ _ _ Hd) in Hrun.
      injection Hrun as <- <-. simpl.
      split; [lia|]. split; [intros; lia|]. split; [lia|].
      rewrite ?Nat.sub_0_r. exact Hd.
    + assert (Hjson : exists json, net (fetched w) = HttpResponse 429 json).
      { destruct (net (fetched w)) as [status json|e0]; [|discriminate].
        simpl in Hrl. apply Z.eqb_eq in Hrl as ->. eauto. }
      destruct Hjson as [json Hjson].
      rewrite (fetchWithRetry_from_rate_limited _ _ _ _ _ _ _ Hjson) in Hrun.
      apply (Hlast _ _ _ Hrun Hs). intros _. right. exact Hrl.
    + rewrite (fetchWithRetry_from_failure _ _ _ _ _ _ _ Hg) in Hrun.
      destruct (Z.eqb_spec (Z.of_nat i) (Z.of_nat retries - 1)) as [Hi|Hi].
      * injection Hrun as <- <-. simpl. assert (left = 0%nat) as -> by lia.
        split; [lia|]. split; [intros; lia|]. split; [lia|]. split; [lia|].
        rewrite ?Nat.sub_0_r. exact Hg.
      * apply (Hlast _ _ _ Hrun Hs). intros ->. lia.
Qed.

(** What [fetchWithRetry] returns tells how the attempts went.  Data is
    the body of the first response with an ok status, every attempt
    before it having failed or been rate-limited; an error is thrown only
    when all [retries] attempts are used, and is the failure of the last
    one; [undefined] is returned only when all attempts are used and the
    last one was rate-limited, or when [retries] is 0. *)
Theorem fetchWithRetry_outcome (retries : nat) (w w' : World)
  (r : Completion (option Data)) :
  fetchWithRetry net url retries w = (r, w') ->
  (forall k, (fetched w <= k)%nat -> (S k < fetched w')%nat ->
             success (net k) = None) /\
  match r with
  | Throw e =>
      fetched w' = (fetched w + retries)%nat /\ (0 < retries)%nat /\
      genericFailure (net (fetched w' - 1)%nat) = Some e
  | Normal None =>
      fetched w' = (fetched w + retries)%nat /\
      (retries = 0%nat \/ rateLimited (net (fetched w' - 1)%nat) = true)
  | Normal (Some d) =>
      (fetched w < fetched w' <= fetched w + retries)%nat /\
      success (net (fetched w' - 1)%nat) = Some d
  end.
Proof.
  intros Hrun.
  destruct (fetchWithRetry_from_outcome retries retries 0 w eq_refl r w' Hrun)
    as (Hrange & Hbefore & Hend).
  split; [exact Hbefore|].
  destruct r as [[d|]|e]; try exact Hend.
  destruct Hend as [Hlt Hd]. split; [lia|exact Hd].
Qed.

End RetryOutcomeFacts.

Section RetryOutcomeExamples.
Import Js Retry RetryOutcome Samples.

Lemma fetchWithRetry_outcome_witness :
  genericFailure (rateLimitedThenFailing 2) = Some (HttpError 500).
Proof.
  destruct (fetchWithRetry_outcome rateLimitedThenFailing searchUrl 3 idle
              {| fetched := 3;
                 trace := [EvFetch searchUrl; EvDelay 1000; EvFetch searchUrl;
                           EvDelay 200; EvFetch searchUrl] |}
              (Throw (HttpError 500)) eq_refl) as (_ & _ & _ & Hlast).
  exact Hlast.
Defined.

End RetryOutcomeExamples.

(** ** Set configuration *)

Section ConfigFacts.
Import Js Range Classifier Sealed Config.

Lemma includes_In (x : string) (arr : list string) :
  includes x arr = true <-> In x arr.
Proof.
  unfold includes. rewrite existsb_exists. split.
  - intros (y & Hy & Heq). apply String.eqb_eq in Heq as ->. exact Hy.
  - intros H. exists x. split; [exact H|apply String.eqb_refl].
Qed.

Lemma dedupe_from_spec (arr seen : list string) :
  NoDup seen ->
  NoDup (fold_left (fun seen x => if includes x seen then seen else seen ++ [x])
           arr seen) /\
  (forall x,
     In x (fold_left (fun seen x => if includes x seen then seen else seen ++ [x])
             arr seen) <-> In x seen \/ In x arr).
Proof.
  revert seen. induction arr as [|a arr IH]; intros seen Hseen; simpl.
  - split; [exact Hseen|]. intros x. tauto.
  - destruct (includes a seen) eqn:Ha.
    + destruct (IH seen Hseen) as [Hnd Hin]. split; [exact Hnd|].
      intros x. rewrite Hin. apply includes_In in Ha.
      split; [tauto|]. intros [?|[<-|?]]; auto.
    + assert (Hseen' : NoDup (seen ++ [a])).
      { apply NoDup_app. split; [exact Hseen|]. split.
        - intros x Hx Hxa. apply list_elem_of_In in Hx, Hxa.
          destruct Hxa as [<-|[]].
          apply includes_In in Hx. congruence.
        - apply NoDup_singleton. }
      destruct (IH _ Hseen') as [Hnd Hin]. split; [exact Hnd|].
      intros x. rewrite Hin, in_app_iff. simpl. tauto.
Qed.

Lemma dedupe_spec (arr : list string) :
  NoDup (dedupe arr) /\ (forall x, In x (dedupe arr) <-> In x arr).
Proof.
  destruct (dedupe_from_spec arr [] NoDup_nil_2) as [Hnd Hin].
  split; [exact Hnd|]. intros x. unfold dedupe. rewrite Hin. simpl. tauto.
Qed.

End ConfigFacts.

Section ConfigFacts2.
Import Js Range Classifier Sealed Config ConfigSpec.

Lemma existsb_same_elements {A} (f : A -> bool) (l l' : list A) :
  (forall x, In x l <-> In x l') -> existsb f l = existsb f l'.
Proof.
  intros H. apply eq_true_iff_eq. rewrite !existsb_exists.
  split; intros (x & Hx & Hf); exists x; split; auto; apply H; exact Hx.
Qed.

Lemma existsb_flat_map {A B} (f : B -> bool) (g : A -> list B) (l : list A) :
  existsb f (flat_map g l) = existsb (fun a => existsb f (g a)) l.
Proof.
  induction l as [|a l IH]; simpl; [reflexivity|].
  rewrite existsb_app, IH. reflexivity.
Qed.

Lemma fetchSetConfig_inversion (data : BoosterData) (setCode : string)
  (cfg : LoadedConfig) :
  fetchSetConfig data setCode = Normal (Some cfg) ->
  exists types sl,
    boosters (boosterIndex data) !! setCode = Some types /\
    playSlots data setCode = Some sl /\
    playBooster (configRanges cfg)
    = Some {| includeCollectorNumbers
              := Some (dedupe (flat_map slotPlayRanges sl)) |} /\
    (includes "collector" types = false ->
     collectorExclusive (configRanges cfg) = None) /\
    (includes "collector" types = true ->
     loadCollectorExclusive data setCode
     = Normal (collectorExclusive (configRanges cfg))).
Proof.
  unfold fetchSetConfig, playSlots.
  destruct (boosters (boosterIndex data) !! setCode) as [types|];
    [|discriminate]. simpl. fold (playTypeOf types).
  destruct (playTypeOf types) as [playType|]; [|discriminate]. simpl.
  destruct (loadBoosterFile data setCode playType) as [playFile|];
    [|discriminate]. simpl.
  destruct (slots playFile) as [sl|]; [|discriminate]. cbv zeta.
  destruct (includes "collector" types) eqn:Hc.
  - destruct (loadCollectorExclusive data setCode) as [exclusive|e] eqn:Hload;
      [|discriminate].
    intros H. injection H as <-. exists types, sl. simpl.
    repeat split; auto. congruence.
  - intros H. injection H as <-. exists types, sl. simpl.
    repeat split; auto. congruence.
Qed.

(** The object [fetchSetConfig] returns lists each play-booster range
    once, and lists exactly the ranges that some slot of the play (or
    draft) file gives under [nonfoil] or [foil]. *)
Theorem fetchSetConfig_play_ranges (data : BoosterData) (setCode : string)
  (cfg : LoadedConfig) :
  fetchSetConfig data setCode = Normal (Some cfg) ->
  exists sl ranges,
    playSlots data setCode = Some sl /\
    playBooster (configRanges cfg)
    = Some {| includeCollectorNumbers := Some ranges |} /\
    NoDup ranges /\
    (forall r, In r ranges <->
               exists slot, In slot sl /\
                 (In r (default [] (slotFinish "nonfoil" slot)) \/
                  In r (default [] (slotFinish "foil" slot)))).
Proof.
  intros H. destruct (fetchSetConfig_inversion _ _ _ H)
    as (types & sl & _ & Hsl & Hplay & _).
  exists sl, (dedupe (flat_map slotPlayRanges sl)).
  destruct (dedupe_spec (flat_map slotPlayRanges sl)) as [Hnd Hin].
  repeat split; auto.
  - intros Hr. apply Hin, in_flat_map in Hr as (slot & Hslot & Hr).
    exists slot. split; [exact Hslot|]. apply in_app_or. exact Hr.
  - intros (slot & Hslot & Hr). apply Hin, in_flat_map.
    exists slot. split; [exact Hslot|]. apply in_or_app. exact Hr.
Qed.

(** With the object [fetchSetConfig] returns, [isInPlayBooster] always
    gives a definite answer: true exactly when a [nonfoil] or [foil]
    range of some slot of the play (or draft) file matches the card's
    collector number; such a card is then never collector-exclusive,
    whatever its promo types and frame effects. *)
Theorem fetchSetConfig_classifies (data : BoosterData) (setCode : string)
  (cfg : LoadedConfig) (card : Card) :
  fetchSetConfig data setCode = Normal (Some cfg) ->
  exists sl,
    playSlots data setCode = Some sl /\
    isInPlayBooster card (Some (configRanges cfg))
    = Some (existsb (fun slot => inRanges (slotPlayRanges slot) card) sl) /\
    (existsb (fun slot => inRanges (slotPlayRanges slot) card) sl = true ->
     isCollectorExclusive card (Some (configRanges cfg)) = false).
Proof.
  intros H. destruct (fetchSetConfig_inversion _ _ _ H)
    as (types & sl & _ & Hsl & Hplay & _).
  exists sl. split; [exact Hsl|].
  assert (Hanswer : isInPlayBooster card (Some (configRanges cfg))
            = Some (existsb (fun slot => inRanges (slotPlayRanges slot) card) sl)).
  { unfold isInPlayBooster. simpl. rewrite Hplay. simpl. f_equal.
    rewrite (existsb_same_elements _ _ (flat_map slotPlayRanges sl))
      by apply dedupe_spec.
    apply existsb_flat_map. }
  split; [exact Hanswer|].
  intros Hin. unfold isCollectorExclusive. rewrite Hanswer, Hin. reflexivity.
Qed.

Lemma loadCollectorExclusive_nonempty (data : BoosterData) (setCode : string)
  (exclusive : CollectorExclusive) :
  loadCollectorExclusive data setCode = Normal (Some exclusive) ->
  exists file sl ranges,
    loadBoosterFile data setCode "collector" = Some file /\
    slots file = Some sl /\
    collectorNumbers exclusive = Some ranges /\
    ranges <> [] /\ NoDup ranges /\
    (forall r, In r ranges <->
               exists slot, In slot sl /\ In r (slotCollectorRanges slot)).
Proof.
  unfold loadCollectorExclusive.
  destruct (loadBoosterFile data setCode "collector") as [file|] eqn:Hfile;
    [|discriminate].
  destruct (slots file) as [sl|] eqn:Hsl; [|discriminate].
  destruct (0 <? length (flat_map slotCollectorRanges sl))%nat eqn:Hlen;
    [|discriminate].
  intros H. injection H as <-.
  exists file, sl, (dedupe (flat_map slotCollectorRanges sl)).
  destruct (dedupe_spec (flat_map slotCollectorRanges sl)) as [Hnd Hin].
  repeat split; auto.
  - intros Hnil. apply nonempty_length in Hlen.
    destruct (flat_map slotCollectorRanges sl) as [|r rs]; [congruence|].
    assert (Hr : In r (dedupe (r :: rs))) by (apply Hin; left; reflexivity).
    rewrite Hnil in Hr. exact Hr.
  - intros Hr. apply Hin, in_flat_map in Hr. exact Hr.
  - intros Hr. apply Hin, in_flat_map. exact Hr.
Qed.

(** The [collectorExclusive] field of the object [fetchSetConfig]
    returns is either absent or a non-empty list without repetition of
    exactly the ranges of the slots named [collectorExclusive] in the
    collector file; it is absent whenever the index does not list a
    collector booster for the set. *)
Theorem fetchSetConfig_collector_exclusive (data : BoosterData)
  (setCode : string) (cfg : LoadedConfig) :
  fetchSetConfig data setCode = Normal (Some cfg) ->
  (In "collector" (getBoosterTypes data setCode) \/
   collectorExclusive (configRanges cfg) = None) /\
  (forall exclusive,
     collectorExclusive (configRanges cfg) = Some exclusive ->
     exists file sl ranges,
       loadBoosterFile data setCode "collector" = Some file /\
       slots file = Some sl /\
       collectorNumbers exclusive = Some ranges /\
       ranges <> [] /\ NoDup ranges /\
       (forall r, In r ranges <->
                  exists slot, In slot sl /\ In r (slotCollectorRanges slot))).
Proof.
  intros H. destruct (fetchSetConfig_inversion _ _ _ H)
    as (types & sl & Htypes & _ & _ & Hno & Hyes).
  unfold getBoosterTypes. rewrite Htypes. simpl.
  destruct (includes "collector" types) eqn:Hc.
  - split; [left; apply includes_In; exact Hc|].
    intros exclusive Hex. apply loadCollectorExclusive_nonempty.
    rewrite Hyes by reflexivity. rewrite Hex. reflexivity.
  - split; [right; apply Hno; reflexivity|].
    intros exclusive Hex. rewrite Hno in Hex by reflexivity. discriminate.
Qed.

(** For a set the index does not list, every reader of the booster data
    degrades together: no booster types, no configuration, and the
    sealed-pool generator falls back to the legacy generator, which
    deals its six packs whatever [numPacks] was asked for. *)
Theorem unlisted_set_degrades (data : BoosterData) (setCode : string)
  (cards : list Card) (numPacks : nat) (seed : option Rng.Seed)
  (ambient : nat -> Q) :
  hasBoosterData data setCode = false ->
  getBoosterTypes data setCode = [] /\
  fetchSetConfig data setCode = Normal None /\
  generateSealedPoolFromBoosterData data setCode cards numPacks seed ambient
  = generateSealedPoolFromBoosterData data setCode cards 0 seed ambient /\
  generateSealedPoolFromBoosterData data setCode cards numPacks seed ambient
  = generateSealedPool cards seed ambient.
Proof.
  unfold hasBoosterData, getBoosterTypes, fetchSetConfig,
    generateSealedPoolFromBoosterData.
  intros H. apply bool_decide_eq_false in H.
  destruct (boosters (boosterIndex data) !! setCode) as [types|] eqn:Htypes.
  { exfalso. apply H. eauto. }
  repeat split; reflexivity.
Qed.

End ConfigFacts2.

Section ConfigExamples.
Import Js Range Classifier Sealed Config ConfigSpec MoreSamples.

Lemma fetchSetConfig_sample :
  fetchSetConfig fullBoosterData "mkm" = Normal (Some mkmConfig).
Proof. vm_compute. reflexivity. Qed.

Lemma fetchSetConfig_play_ranges_witness :
  exists sl ranges,
    playSlots fullBoosterData "mkm" = Some sl /\
    playBooster (configRanges mkmConfig)
    = Some {| includeCollectorNumbers := Some ranges |} /\
    NoDup ranges /\
    (forall r, In r ranges <->
               exists slot, In slot sl /\
                 (In r (default [] (slotFinish "nonfoil" slot)) \/
                  In r (default [] (slotFinish "foil" slot)))).
Proof.
  apply (fetchSetConfig_play_ranges fullBoosterData "mkm" mkmConfig).
  vm_compute. reflexivity.
Defined.

Lemma fetchSetConfig_classifies_witness :
  exists sl,
    playSlots fullBoosterData "mkm" = Some sl /\
    isInPlayBooster (Samples.extendedArtCard "6") (Some (configRanges mkmConfig))
    = Some (existsb (fun slot => inRanges (slotPlayRanges slot)
                                   (Samples.extendedArtCard "6")) sl) /\
    (existsb (fun slot => inRanges (slotPlayRanges slot)
                            (Samples.extendedArtCard "6")) sl = true ->
     isCollectorExclusive (Samples.extendedArtCard "6")
       (Some (configRanges mkmConfig)) = false).
Proof.
  apply (fetchSetConfig_classifies fullBoosterData "mkm" mkmConfig
           (Samples.extendedArtCard "6")).
  vm_compute. reflexivity.
Defined.

Lemma fetchSetConfig_collector_exclusive_witness :
  exists file sl ranges,
    loadBoosterFile fullBoosterData "mkm" "collector" = Some file /\
    slots file = Some sl /\
    collectorNumbers {| collectorNumbers := Some ["300-341"; "400"] |}
    = Some ranges /\
    ranges <> [] /\ NoDup ranges /\
    (forall r, In r ranges <->
               exists slot, In slot sl /\ In r (slotCollectorRanges slot)).
Proof.
  destruct (fetchSetConfig_collector_exclusive fullBoosterData "mkm" mkmConfig)
    as [_ Hexclusive]; [vm_compute; reflexivity|].
  apply Hexclusive. reflexivity.
Defined.

Lemma unlisted_set_degrades_witness :
  generateSealedPoolFromBoosterData fullBoosterData "lea" Samples.sampleCatalog
    2 None Samples.zeros
  = generateSealedPool Samples.sampleCatalog None Samples.zeros.
Proof.
  apply (unlisted_set_degrades fullBoosterData "lea" Samples.sampleCatalog 2
           None Samples.zeros).
  vm_compute. reflexivity.
Defined.

End ConfigExamples.

(** ** [getBoosterPools] *)

Section BoosterPoolsFacts.
Import Js Range Classifier Sealed Config ConfigSpec.

Lemma rangesUnder_absent (finish : string) (entries : list (string * list string)) :
  hasFinish finish entries = false -> rangesUnder finish entries = [].
Proof.
  induction entries as [|[g rs] entries IH]; simpl; [reflexivity|].
  destruct (String.eqb g finish); simpl; [discriminate|exact IH].
Qed.

Lemma fold_addFinish_lookup (entries : list (string * list string))
  (pools : gmap string (list string)) (finish : string) :
  fold_left addFinish entries pools !! finish =
  if hasFinish finish entries
  then Some (default [] (pools !! finish) ++ rangesUnder finish entries)
  else pools !! finish.
Proof.
  revert pools. induction entries as [|[g rs] entries IH]; intros pools; simpl.
  - reflexivity.
  - rewrite IH. destruct (String.eqb_spec g finish) as [->|Hne]; simpl.
    + rewrite lookup_insert_eq. simpl.
      destruct (hasFinish finish entries) eqn:Hmore.
      * rewrite <- app_assoc. reflexivity.
      * rewrite (rangesUnder_absent _ _ Hmore), app_nil_r. reflexivity.
    + rewrite lookup_insert_ne by exact Hne. reflexivity.
Qed.

Lemma fold_slots_addFinish (sl : list BoosterSlot)
  (pools : gmap string (list string)) :
  fold_left
    (fun pools slot =>
       match slotPool slot with
       | None => pools
       | Some p => fold_left addFinish p pools
       end) sl pools
  = fold_left addFinish (poolEntries sl) pools.
Proof.
  revert pools. induction sl as [|slot sl IH]; intros pools; simpl.
  - reflexivity.
  - unfold poolEntries in *. rewrite fold_left_app, IH.
    destruct (slotPool slot); reflexivity.
Qed.

Lemma getBoosterPools_lookup (data : BoosterData) (setCode boosterType : string)
  (file : BoosterFile) (sl : list BoosterSlot) :
  loadBoosterFile data setCode boosterType = Some file ->
  slots file = Some sl ->
  exists pools,
    getBoosterPools data setCode boosterType = Normal (Some pools) /\
    forall finish,
      pools !! finish =
      if hasFinish finish (poolEntries sl)
      then Some (dedupe (rangesUnder finish (poolEntries sl)))
      else None.
Proof.
  intros Hfile Hsl. unfold getBoosterPools. rewrite Hfile, Hsl.
  eexists. split; [reflexivity|]. intros finish.
  rewrite lookup_fmap, fold_slots_addFinish, fold_addFinish_lookup.
  rewrite lookup_empty. destruct (hasFinish finish (poolEntries sl)); reflexivity.
Qed.

Lemma in_rangesUnder (finish r : string) (sl : list BoosterSlot) :
  In r (rangesUnder finish (poolEntries sl)) <->
  exists slot p ranges,
    In slot sl /\ slotPool slot = Some p /\ In (finish, ranges) p /\ In r ranges.
Proof.
  unfold rangesUnder, poolEntries. rewrite in_flat_map. split.
  - intros ([g ranges] & Hentry & Hr). simpl in Hr.
    destruct (String.eqb_spec g finish) as [->|_]; [|destruct Hr].
    apply in_flat_map in Hentry as (slot & Hslot & Hp).
    destruct (slotPool slot) as [p|] eqn:Hpool; [|destruct Hp].
    exists slot, p, ranges. auto.
  - intros (slot & p & ranges & Hslot & Hpool & Hentry & Hr).
    exists (finish, ranges). split.
    + apply in_flat_map. exists slot. rewrite Hpool. auto.
    + simpl. rewrite String.eqb_refl. exact Hr.
Qed.

(** [getBoosterPools] merges the pools of all slots of a booster file by
    finish: a finish is a key of the result exactly when some slot lists
    it, and its value holds, once each, exactly the ranges that some slot
    lists under it. *)
Theorem getBoosterPools_merges (data : BoosterData)
  (setCode boosterType : string) (file : BoosterFile) (sl : list BoosterSlot) :
  loadBoosterFile data setCode boosterType = Some file ->
  slots file = Some sl ->
  exists pools,
    getBoosterPools data setCode boosterType = Normal (Some pools) /\
    (forall finish,
       is_Some (pools !! finish) <->
       exists slot p ranges,
         In slot sl /\ slotPool slot = Some p /\ In (finish, ranges) p) /\
    (forall finish merged,
       pools !! finish = Some merged ->
       NoDup merged /\
       forall r, In r merged <->
                 exists slot p ranges,
                   In slot sl /\ slotPool slot = Some p /\
                   In (finish, ranges) p /\ In r ranges).
Proof.
  intros Hfile Hsl.
  destruct (getBoosterPools_lookup _ _ _ _ _ Hfile Hsl) as (pools & Hrun & Hlook).
  exists pools. split; [exact Hrun|]. split.
  - intros finish. rewrite Hlook. split.
    + intros Hsome.
      destruct (hasFinish finish (poolEntries sl)) eqn:Hhas;
        [|destruct Hsome; discriminate].
      apply existsb_exists in Hhas as ([g ranges] & Hentry & Hg).
      simpl in Hg. apply String.eqb_eq in Hg as ->.
      apply in_flat_map in Hentry as (slot & Hslot & Hp).
      destruct (slotPool slot) as [p|] eqn:Hpool; [|destruct Hp].
      exists slot, p, ranges. auto.
    + intros (slot & p & ranges & Hslot & Hpool & Hentry).
      replace (hasFinish finish (poolEntries sl)) with true; [eauto|].
      symmetry. apply existsb_exists. exists (finish, ranges). split.
      * apply in_flat_map. exists slot. rewrite Hpool. auto.
      * simpl. apply String.eqb_refl.
  - intros finish merged Hmerged. rewrite Hlook in Hmerged.
    destruct (hasFinish finish (poolEntries sl)); [|discriminate].
    injection Hmerged as <-.
    destruct (dedupe_spec (rangesUnder finish (poolEntries sl))) as [Hnd Hin].
    split; [exact Hnd|]. intros r. rewrite Hin. apply in_rangesUnder.
Qed.

Lemma getBoosterPools_merges_witness :
  exists pools,
    getBoosterPools MoreSamples.fullBoosterData "mkm" "play"
    = Normal (Some pools) /\
    (forall finish,
       is_Some (pools !! finish) <->
       exists slot p ranges,
         In slot [Samples.rareMythicSlot; MoreSamples.commonSlot;
                  MoreSamples.notesSlot] /\
         slotPool slot = Some p /\ In (finish, ranges) p) /\
    (forall finish merged,
       pools !! finish = Some merged ->
       NoDup merged /\
       forall r, In r merged <->
                 exists slot p ranges,
                   In slot [Samples.rareMythicSlot; MoreSamples.commonSlot;
                            MoreSamples.notesSlot] /\
                   slotPool slot = Some p /\
                   In (finish, ranges) p /\ In r ranges).
Proof.
  apply (getBoosterPools_merges MoreSamples.fullBoosterData "mkm" "play"
           {| setName := "Murders at Karlov Manor"; source := "booster-data";
              slots := Some [Samples.rareMythicSlot; MoreSamples.commonSlot;
                             MoreSamples.notesSlot] |}).
  - vm_compute. reflexivity.
  - reflexivity.
Defined.

End BoosterPoolsFacts.

(** ** Card acquisition *)

Section FilterFacts.
Import Js Range Classifier Sealed Config Acquire.

Lemma hasSetConfig_answer (card : Card) (setConfig : option SetConfig) :
  if hasSetConfig setConfig
  then exists b, isInPlayBooster card setConfig = Some b
  else isInPlayBooster card setConfig = None.
Proof.
  unfold hasSetConfig, isInPlayBooster.
  destruct ((setConfig ≫= playBooster) ≫= includeCollectorNumbers); eauto.
Qed.

Lemma isCollectorExclusive_without_play_ranges (card : Card)
  (setConfig : option SetConfig) :
  isInPlayBooster card setConfig = None ->
  isCollectorExclusive card setConfig = isCollectorExclusive card None.
Proof.
  intros H. unfold isCollectorExclusive. rewrite H.
  destruct setConfig; reflexivity.
Qed.

Lemma filterForBooster_In (boosterType : string)
  (setConfig : option SetConfig) (cards : list Card) (card : Card) :
  boosterType <> "collector" ->
  (In card (filterForBooster boosterType setConfig cards) <->
   In card cards /\
   isCollectorExclusive card setConfig = false /\
   (isInPlayBooster card setConfig = Some true \/
    hasSetConfig setConfig = false \/ booster card = true)).
Proof.
  intros Hbt. unfold filterForBooster.
  apply String.eqb_neq in Hbt. rewrite Hbt. simpl.
  pose proof (hasSetConfig_answer card setConfig) as Hanswer.
  destruct (hasSetConfig setConfig).
  - rewrite filter_In. destruct Hanswer as [b Hb].
    assert (Hcfg : exists cfg, setConfig = Some cfg).
    { destruct setConfig; [eauto|discriminate]. }
    destruct Hcfg as [cfg ->].
    unfold isCollectorExclusive. rewrite Hb. destruct b.
    + intuition.
    + destruct (isCollectorExclusiveByConfig card (Some cfg)) as [[|]|].
      * intuition discriminate.
      * rewrite andb_true_iff, negb_true_iff. intuition discriminate.
      * rewrite andb_true_iff, negb_true_iff. intuition discriminate.
  - rewrite filter_In, negb_true_iff.
    rewrite (isCollectorExclusive_without_play_ranges _ _ Hanswer).
    intuition.
Qed.

(** The filter of [fetchAllSetCards] agrees with the classifier: for a
    booster type other than collector it keeps exactly the cards that
    [isCollectorExclusive] clears under the configuration and that are
    either inside a play-booster range, or flagged [booster] by the
    provider, or judged without play-booster ranges at all; for the
    collector booster it keeps everything. *)
Theorem filterForBooster_agrees_with_classifier (boosterType : string)
  (setConfig : option SetConfig) (cards : list Card) (card : Card) :
  (boosterType <> "collector" ->
   (In card (filterForBooster boosterType setConfig cards) <->
    In card cards /\
    isCollectorExclusive card setConfig = false /\
    (isInPlayBooster card setConfig = Some true \/
     hasSetConfig setConfig = false \/ booster card = true))) /\
  filterForBooster "collector" setConfig cards = cards.
Proof. split; [apply filterForBooster_In|reflexivity]. Qed.

Lemma filterForBooster_agrees_with_classifier_witness :
  In (Samples.plainCard "280")
    (filterForBooster "play" (Some Samples.sampleConfig)
       [Samples.extendedArtCard "280"; Samples.plainCard "280"]) <->
  In (Samples.plainCard "280")
    [Samples.extendedArtCard "280"; Samples.plainCard "280"] /\
  isCollectorExclusive (Samples.plainCard "280") (Some Samples.sampleConfig)
  = false /\
  (isInPlayBooster (Samples.plainCard "280") (Some Samples.sampleConfig)
   = Some true \/
   hasSetConfig (Some Samples.sampleConfig) = false \/
   booster (Samples.plainCard "280") = true).
Proof.
  apply (filterForBooster_agrees_with_classifier "play"
           (Some Samples.sampleConfig)
           [Samples.extendedArtCard "280"; Samples.plainCard "280"]
           (Samples.plainCard "280")).
  discriminate.
Defined.

End FilterFacts.

Section PagesFacts.
Import Js Range Classifier Retry RetryOutcome Sealed Config Acquire.
Variable net : nat -> Response Page.

Lemma fetchWithRetry_first_success (url : string) (w : World) (page : Page) :
  success (net (fetched w)) = Some page ->
  fetchWithRetry net url 3 w = (Normal (Some page), snd (fetch net url w)).
Proof. intros H. apply (fetchWithRetry_from_success net url 3 2 0 w page H). Qed.

Lemma serves_tail (start : nat) (page : Page) (pages : list Page) :
  serves net start (page :: pages) ->
  success (net start) = Some page /\ serves net (S start) pages.
Proof.
  intros H. split.
  - rewrite <- (Nat.add_0_r start). apply H. reflexivity.
  - intros k p Hk. replace (S start + k)%nat with (start + S k)%nat by lia.
    apply H. exact Hk.
Qed.

Lemma morePages_all (pages : list Page) (page : Page) (cards : list Card)
  (w : World) (fuel : nat) :
  chained (page :: pages) ->
  serves net (fetched w) pages ->
  (length pages <= fuel)%nat ->
  exists w',
    morePages fuel net page cards w
    = Some (cards ++ flat_map pageCards pages, None, w') /\
    fetched w' = (fetched w + length pages)%nat.
Proof.
  revert page cards w fuel.
  induction pages as [|p rest IH]; intros page cards w fuel Hchain Hserves Hfuel.
  - simpl in Hchain. exists w. destruct fuel; simpl; rewrite Hchain, app_nil_r;
      split; auto; lia.
  - destruct Hchain as [Hnext Hchain].
    destruct fuel as [|fuel]; [simpl in Hfuel; lia|].
    destruct (nextPage page) as [next|] eqn:Hpage; [|congruence].
    apply serves_tail in Hserves as [Hp Hrest].
    simpl. rewrite Hpage.
    rewrite (fetchWithRetry_first_success next (delay 100 w) p Hp).
    destruct (IH p (cards ++ pageCards p)
                (snd (fetch net next (delay 100 w))) fuel Hchain)
      as (w' & Hrun & Hcount).
    + exact Hrest.
    + simpl in Hfuel. lia.
    + exists w'. rewrite Hrun, <- app_assoc. split; [reflexivity|].
      rewrite Hcount. simpl. lia.
Qed.

(** When the provider serves a chain of pages, each at the first
    attempt, the cards gathered are those of all the pages, in order,
    with nothing lost or repeated, and one fetch is issued per page. *)
Theorem fetchPages_concatenates (pages : list Page) (url : string)
  (w : World) (fuel : nat) :
  chained pages ->
  serves net (fetched w) pages ->
  (length pages <= S fuel)%nat ->
  exists w',
    fetchPages fuel net url w = Some (flat_map pageCards pages, None, w') /\
    fetched w' = (fetched w + length pages)%nat.
Proof.
  intros Hchain Hserves Hfuel.
  destruct pages as [|page pages]; [destruct Hchain|].
  apply serves_tail in Hserves as [Hpage Hrest].
  unfold fetchPages. rewrite (fetchWithRetry_first_success url w page Hpage).
  destruct (morePages_all pages page (pageCards page)
              (snd (fetch net url w)) fuel Hchain Hrest)
    as (w' & Hrun & Hcount); [simpl in Hfuel; lia|].
  exists w'. split; [exact Hrun|]. rewrite Hcount. simpl. lia.
Qed.

End PagesFacts.

Section AcquireFacts.
Import Js Range Classifier Retry RetryOutcome Sealed Config Acquire.
Variable encodeURIComponent : string -> string.
Variable net : nat -> Response Page.

Lemma genericFailure_status (s : Z) (json : Completion Page) :
  s <> 429 -> ok s = false ->
  genericFailure (HttpResponse s json) = Some (HttpError s).
Proof.
  intros Hs Hok. simpl. apply Z.eqb_neq in Hs. rewrite Hs, Hok. reflexivity.
Qed.

Lemma fetchWithRetry_thrice_failing (url : string) (w : World) (s : Z) :
  s <> 429 -> ok s = false ->
  (forall k, (k < 3)%nat ->
     exists json, net (fetched w + k)%nat = HttpResponse s json) ->
  fetchWithRetry net url 3 w =
  (Throw (HttpError s),
   {| fetched := (fetched w + 3)%nat;
      trace := trace w ++ [EvFetch url; EvDelay 100; EvFetch url;
                           EvDelay 200; EvFetch url] |}).
Proof.
  intros Hs Hok Hnet. unfold fetchWithRetry.
  destruct (Hnet 0%nat) as [j0 H0]; [lia|].
  destruct (Hnet 1%nat) as [j1 H1]; [lia|].
  destruct (Hnet 2%nat) as [j2 H2]; [lia|].
  rewrite Nat.add_0_r in H0.
  rewrite (fetchWithRetry_from_failure net url 3 2 0 w (HttpError s))
    by (rewrite H0; apply genericFailure_status; assumption).
  change (Z.of_nat 0 =? Z.of_nat 3 - 1) with false. cbv iota.
  rewrite (fetchWithRetry_from_failure net url 3 1 1 _ (HttpError s)).
  2:{ simpl. rewrite Nat.add_1_r in H1. rewrite H1.
      apply genericFailure_status; assumption. }
  change (Z.of_nat 1 =? Z.of_nat 3 - 1) with false. cbv iota.
  rewrite (fetchWithRetry_from_failure net url 3 0 2 _ (HttpError s)).
  2:{ simpl. replace (S (S (fetched w))) with (fetched w + 2)%nat by lia.
      rewrite H2. apply genericFailure_status; assumption. }
  change (Z.of_nat 2 =? Z.of_nat 3 - 1) with true. cbv iota.
  f_equal. unfold fetch, delay. simpl. f_equal; [lia|].
  rewrite <- !app_assoc. reflexivity.
Qed.

Lemma morePages_then_failing (pages : list Page) (page : Page)
  (cards : list Card) (w : World) (fuel : nat) (s : Z) :
  Forall (fun p => nextPage p <> None) (page :: pages) ->
  serves net (fetched w) pages ->
  s <> 429 -> ok s = false ->
  (forall k, (k < 3)%nat ->
     exists json, net (fetched w + length pages + k)%nat = HttpResponse s json) ->
  (length pages < fuel)%nat ->
  exists w',
    morePages fuel net page cards w
    = Some (cards ++ flat_map pageCards pages, Some (HttpError s), w') /\
    fetched w' = (fetched w + length pages + 3)%nat.
Proof.
  revert page cards w fuel.
  induction pages as [|p rest IH];
    intros page cards w fuel Hnext Hserves Hs Hok Hfail Hfuel;
    apply Forall_cons in Hnext as [Hpage Hnext];
    (destruct fuel as [|fuel]; [simpl in Hfuel; lia|]);
    (destruct (nextPage page) as [next|] eqn:Hp; [|congruence]);
    simpl; rewrite Hp.
  - rewrite (fetchWithRetry_thrice_failing next (delay 100 w) s Hs Hok).
    + eexists. rewrite app_nil_r. split; [reflexivity|]. simpl. lia.
    + intros k Hk. simpl. destruct (Hfail k Hk) as [json Hjson].
      exists json. rewrite <- Hjson. f_equal. simpl. lia.
  - apply serves_tail in Hserves as [Hfirst Hrest].
    rewrite (fetchWithRetry_first_success net next (delay 100 w) p Hfirst).
    destruct (IH p (cards ++ pageCards p)
                (snd (fetch net next (delay 100 w))) fuel Hnext Hrest Hs Hok)
      as (w' & Hrun & Hcount).
    + intros k Hk. destruct (Hfail k Hk) as [json Hjson].
      exists json. rewrite <- Hjson. f_equal. simpl. lia.
    + simpl in Hfuel. lia.
    + exists w'. rewrite Hrun, <- app_assoc. split; [reflexivity|].
      rewrite Hcount. simpl. lia.
Qed.

Lemma filterForBooster_clears (boosterType : string)
  (setConfig : option SetConfig) (cards : list Card) :
  boosterType <> "collector" ->
  Forall (fun card => In card cards /\
                      isCollectorExclusive card setConfig = false)
    (filterForBooster boosterType setConfig cards).
Proof.
  intros Hbt. apply Forall_forall. intros card Hin.
  apply list_elem_of_In, filterForBooster_In in Hin; [|exact Hbt]. tauto.
Qed.

(** When the provider serves a chain of pages, [fetchAllSetCards]
    returns the cards of all pages, in order, filtered for the booster
    type under the set's configuration; unless the collector booster is
    asked for, none of the cards returned is collector-exclusive under
    that configuration. *)
Theorem fetchAllSetCards_all_pages (fuel : nat) (boosterData : BoosterData)
  (setCode boosterType : string) (w : World)
  (loaded : option LoadedConfig) (pages : list Page) :
  fetchSetConfig boosterData setCode = Normal loaded ->
  chained pages ->
  serves net (fetched w) pages ->
  (length pages <= S fuel)%nat ->
  exists w',
    fetchAllSetCards encodeURIComponent fuel boosterData net setCode
      boosterType w
    = Some (Normal (filterForBooster boosterType (configRanges <$> loaded)
                      (flat_map pageCards pages)), w') /\
    fetched w' = (fetched w + length pages)%nat /\
    (boosterType <> "collector" ->
     Forall (fun card =>
               In card (flat_map pageCards pages) /\
               isCollectorExclusive card (configRanges <$> loaded) = false)
       (filterForBooster boosterType (configRanges <$> loaded)
          (flat_map pageCards pages))).
Proof.
  intros Hcfg Hchain Hserves Hfuel. unfold fetchAllSetCards. rewrite Hcfg.
  destruct (fetchPages_concatenates net pages
              (allSetCardsUrl encodeURIComponent (configRanges <$> loaded)
                 setCode boosterType) w fuel Hchain Hserves Hfuel)
    as (w' & Hrun & Hcount).
  exists w'. cbv zeta. rewrite Hrun. simpl.
  split; [reflexivity|]. split; [exact Hcount|].
  apply filterForBooster_clears.
Qed.

(** A set the provider does not know costs three fetches: the 404 answer
    is retried like any failure, with pauses of 100 ms and 200 ms, and
    only then taken for an empty catalogue; nothing is thrown. *)
Theorem fetchAllSetCards_not_found (fuel : nat) (boosterData : BoosterData)
  (setCode boosterType : string) (w : World) (loaded : option LoadedConfig) :
  fetchSetConfig boosterData setCode = Normal loaded ->
  (forall k, (k < 3)%nat ->
     exists json, net (fetched w + k)%nat = HttpResponse 404 json) ->
  fetchAllSetCards encodeURIComponent fuel boosterData net setCode
    boosterType w
  = Some (Normal [],
          let url := allSetCardsUrl encodeURIComponent
                       (configRanges <$> loaded) setCode boosterType in
          {| fetched := (fetched w + 3)%nat;
             trace := trace w ++ [EvFetch url; EvDelay 100; EvFetch url;
                                  EvDelay 200; EvFetch url] |}).
Proof.
  intros Hcfg Hnet. unfold fetchAllSetCards, fetchPages. rewrite Hcfg. cbv zeta.
  rewrite (fetchWithRetry_thrice_failing _ w 404) by (auto; discriminate).
  simpl. unfold filterForBooster.
  destruct (negb _); [destruct (hasSetConfig _)|]; reflexivity.
Qed.

(** Under persistent rate limiting [fetchAllSetCards] throws: the
    [undefined] that [fetchWithRetry] returns after three 429 answers
    makes the read of [data.data] fail, and that error is not the 404
    the function tolerates. *)
Theorem fetchAllSetCards_rate_limited (fuel : nat) (boosterData : BoosterData)
  (setCode boosterType : string) (w : World) (loaded : option LoadedConfig) :
  fetchSetConfig boosterData setCode = Normal loaded ->
  (forall k, (k < 3)%nat ->
     exists json, net (fetched w + k)%nat = HttpResponse 429 json) ->
  fetchAllSetCards encodeURIComponent fuel boosterData net setCode
    boosterType w
  = Some (Throw dataOfUndefined,
          {| fetched := (fetched w + 3)%nat;
             trace := trace w ++
               rateLimitedTrace
                 (allSetCardsUrl encodeURIComponent (configRanges <$> loaded)
                    setCode boosterType) 3 |}).
Proof.
  intros Hcfg Hnet. unfold fetchAllSetCards, fetchPages. rewrite Hcfg. cbv zeta.
  unfold fetchWithRetry.
  rewrite (fetchWithRetry_from_all_rate_limited net _ 3 3 0 w Hnet).
  reflexivity.
Qed.

(** When the provider serves some pages and then fails on the next one
    (a status that is not ok on each of the three attempts), the outcome
    depends on the status alone: on 404 the cards gathered so far are
    returned as if the catalogue ended there; on any other status the
    error is thrown and the cards gathered are lost. *)
Theorem fetchAllSetCards_later_page_fails (fuel : nat)
  (boosterData : BoosterData) (setCode boosterType : string) (w : World)
  (loaded : option LoadedConfig) (pages : list Page) (s : Z) :
  fetchSetConfig boosterData setCode = Normal loaded ->
  pages <> [] ->
  Forall (fun p => nextPage p <> None) pages ->
  serves net (fetched w) pages ->
  s <> 429 -> ok s = false ->
  (forall k, (k < 3)%nat ->
     exists json, net (fetched w + length pages + k)%nat = HttpResponse s json) ->
  (length pages <= fuel)%nat ->
  exists w',
    fetched w' = (fetched w + length pages + 3)%nat /\
    fetchAllSetCards encodeURIComponent fuel boosterData net setCode
      boosterType w
    = if String.eqb (message (HttpError s)) "HTTP 404"
      then Some (Normal (filterForBooster boosterType (configRanges <$> loaded)
                           (flat_map pageCards pages)), w')
      else Some (Throw (HttpError s), w').
Proof.
  intros Hcfg Hne Hnext Hserves Hs Hok Hfail Hfuel.
  destruct pages as [|page pages]; [congruence|].
  apply serves_tail in Hserves as [Hpage Hrest].
  unfold fetchAllSetCards, fetchPages. rewrite Hcfg. cbv zeta.
  rewrite (fetchWithRetry_first_success net _ w page Hpage).
  destruct (morePages_then_failing pages page (pageCards page)
              (snd (fetch net
                      (allSetCardsUrl encodeURIComponent
                         (configRanges <$> loaded) setCode boosterType) w))
              fuel s Hnext Hrest Hs Hok) as (w' & Hrun & Hcount).
  - intros k Hk. destruct (Hfail k Hk) as [json Hjson].
    exists json. rewrite <- Hjson. f_equal. simpl. lia.
  - simpl in Hfuel. lia.
  - exists w'. split; [rewrite Hcount; simpl; lia|].
    rewrite Hrun. unfold catch404.
    destruct (String.eqb (message (HttpError s)) "HTTP 404"); reflexivity.
Qed.

End AcquireFacts.

Section AcquireExamples.
Import Js Range Classifier Retry RetryOutcome Sealed Config Acquire.
Import MoreSamples NetSamples.

Lemma serves_twoPages : serves twoPages 0 [firstPage; lastPage].
Proof.
  intros k page Hk. destruct k as [|[|k]]; simpl in Hk; try discriminate;
    injection Hk as <-; reflexivity.
Qed.

Lemma fetchAllSetCards_all_pages_witness :
  exists w',
    fetchAllSetCards encode 5 fullBoosterData twoPages "mkm" "play" Samples.idle
    = Some (Normal (filterForBooster "play" (configRanges <$> Some mkmConfig)
                      (flat_map pageCards [firstPage; lastPage])), w') /\
    fetched w' = (fetched Samples.idle + length [firstPage; lastPage])%nat /\
    ("play" <> "collector" ->
     Forall (fun card =>
               In card (flat_map pageCards [firstPage; lastPage]) /\
               isCollectorExclusive card (configRanges <$> Some mkmConfig)
               = false)
       (filterForBooster "play" (configRanges <$> Some mkmConfig)
          (flat_map pageCards [firstPage; lastPage]))).
Proof.
  apply (fetchAllSetCards_all_pages encode twoPages 5 fullBoosterData "mkm"
           "play" Samples.idle (Some mkmConfig) [firstPage; lastPage]).
  - vm_compute. reflexivity.
  - simpl. split; [discriminate|reflexivity].
  - exact serves_twoPages.
  - simpl. lia.
Defined.

Lemma fetchAllSetCards_not_found_witness :
  fst <$> fetchAllSetCards encode 5 fullBoosterData notFound "mkm" "play"
            Samples.idle
  = Some (Normal []).
Proof.
  rewrite (fetchAllSetCards_not_found encode notFound 5 fullBoosterData "mkm"
             "play" Samples.idle (Some mkmConfig)).
  - reflexivity.
  - vm_compute. reflexivity.
  - intros k _. eexists. reflexivity.
Defined.

Lemma fetchAllSetCards_rate_limited_witness :
  fst <$> fetchAllSetCards encode 5 fullBoosterData throttled "mkm" "play"
            Samples.idle
  = Some (Throw dataOfUndefined).
Proof.
  rewrite (fetchAllSetCards_rate_limited encode throttled 5 fullBoosterData
             "mkm" "play" Samples.idle (Some mkmConfig)).
  - reflexivity.
  - vm_compute. reflexivity.
  - intros k _. eexists. reflexivity.
Defined.

Lemma serves_secondPageLost : serves secondPageLost 0 [firstPage].
Proof.
  intros k page Hk. destruct k as [|k]; simpl in Hk; try discriminate.
  injection Hk as <-. reflexivity.
Qed.

Lemma fetchAllSetCards_later_page_fails_witness :
  exists w',
    fetched w' = (fetched Samples.idle + length [firstPage] + 3)%nat /\
    fetchAllSetCards encode 5 fullBoosterData secondPageLost "mkm" "play"
      Samples.idle
    = if String.eqb (message (HttpError 404)) "HTTP 404"
      then Some (Normal (filterForBooster "play"
                           (configRanges <$> Some mkmConfig)
                           (flat_map pageCards [firstPage])), w')
      else Some (Throw (HttpError 404), w').
Proof.
  apply (fetchAllSetCards_later_page_fails encode secondPageLost 5
           fullBoosterData "mkm" "play" Samples.idle (Some mkmConfig)
           [firstPage] 404).
  - vm_compute. reflexivity.
  - discriminate.
  - repeat constructor. discriminate.
  - exact serves_secondPageLost.
  - discriminate.
  - reflexivity.
  - intros k _. eexists. reflexivity.
  - simpl. lia.
Defined.

End AcquireExamples.

(** ** Special Guests *)

Section GuestsFacts.
Import Js Range Classifier Retry RetryOutcome Sealed Config Acquire Guests.
Variable encodeURIComponent : string -> string.
Variable net : nat -> Response Page.

Lemma firstPageOrNothing_bounded (url : string) (w : World) :
  (fetched w <= fetched (snd (firstPageOrNothing net url w)) <= fetched w + 3)%nat.
Proof.
  unfold firstPageOrNothing.
  destruct (fetchWithRetry net url 3 w) as [r w'] eqn:Hrun.
  destruct (fetchWithRetry_from_outcome net url 3 3 0 w eq_refl r w' Hrun)
    as (Hrange & _).
  destruct r as [[page|]|e]; exact Hrange.
Qed.

Lemma firstPageOrNothing_silent (url : string) (w : World) :
  (forall k, success (net k) = None) ->
  fst (firstPageOrNothing net url w) = [].
Proof.
  intros Hnone. unfold firstPageOrNothing.
  destruct (fetchWithRetry net url 3 w) as [r w'] eqn:Hrun.
  destruct (fetchWithRetry_from_outcome net url 3 3 0 w eq_refl r w' Hrun)
    as (_ & _ & Hend).
  destruct r as [[page|]|e]; try reflexivity.
  destruct Hend as [_ Hpage]. rewrite Hnone in Hpage. discriminate.
Qed.

(** [fetchSpecialGuestsCards] reads the first page only of each side
    sheet of the set (its Special Guests range, The Big Score): it issues
    at most three fetches per sheet, none at all for a set without side
    sheet, and every failure, of whatever kind, is swallowed: when no
    request succeeds the result is the empty list. *)
Theorem fetchSpecialGuestsCards_quiet (setCode : string) (minPrice : Z)
  (w : World) :
  (fetched w
   <= fetched (snd (fetchSpecialGuestsCards encodeURIComponent net setCode
                      minPrice w))
   <= fetched w + 3 * sideSheets setCode)%nat /\
  (sideSheets setCode = 0%nat ->
   fetchSpecialGuestsCards encodeURIComponent net setCode minPrice w = ([], w)) /\
  ((forall k, success (net k) = None) ->
   fst (fetchSpecialGuestsCards encodeURIComponent net setCode minPrice w) = []).
Proof.
  unfold fetchSpecialGuestsCards, sideSheets, hasSpecialGuests.
  destruct (SPECIAL_GUESTS_RANGES !! setCode) as [range|] eqn:Hrange.
  - rewrite bool_decide_eq_true_2 by eauto.
    match goal with |- context [firstPageOrNothing net ?u w] =>
      pose proof (firstPageOrNothing_bounded u w) as Hb1;
      pose proof (firstPageOrNothing_silent u w) as Hs1;
      destruct (firstPageOrNothing net u w) as [allCards w1]
    end.
    simpl in Hb1, Hs1.
    destruct (includes setCode SETS_WITH_BIG_SCORE).
    + match goal with |- context [firstPageOrNothing net ?u w1] =>
        pose proof (firstPageOrNothing_bounded u w1) as Hb2;
        pose proof (firstPageOrNothing_silent u w1) as Hs2;
        destruct (firstPageOrNothing net u w1) as [bigScore w2]
      end.
      simpl in *. split; [lia|]. split; [lia|].
      intros Hnone. rewrite (Hs1 Hnone), (Hs2 Hnone). reflexivity.
    + simpl. split; [lia|]. split; [lia|exact Hs1].
  - rewrite bool_decide_eq_false_2 by (intros [? ?]; discriminate).
    destruct (includes setCode SETS_WITH_BIG_SCORE).
    + match goal with |- context [firstPageOrNothing net ?u w] =>
        pose proof (firstPageOrNothing_bounded u w) as Hb2;
        pose proof (firstPageOrNothing_silent u w) as Hs2;
        destruct (firstPageOrNothing net u w) as [bigScore w2]
      end.
      simpl in *. split; [lia|]. split; [lia|exact Hs2].
    + simpl. split; [lia|]. split; reflexivity.
Qed.

(** When the provider serves a chain of pages, [fetchSetCards] returns
    the set's cards, cleared by the generic exclusivity rule unless the
    collector booster is asked for, followed, when Special Guests are
    asked for and the set has a range, by the side-sheet cards, which
    are appended as fetched and not filtered. *)
Theorem fetchSetCards_all_pages (fuel : nat) (setCode boosterType : string)
  (minPrice : Z) (includeSpecialGuests : bool) (w : World)
  (pages : list Page) :
  chained pages ->
  serves net (fetched w) pages ->
  (length pages <= S fuel)%nat ->
  exists w1 kept,
    fetched w1 = (fetched w + length pages)%nat /\
    kept = (if String.eqb boosterType "collector"
            then flat_map pageCards pages
            else List.filter (fun card => negb (genericExclusive card))
                   (flat_map pageCards pages)) /\
    fetchSetCards encodeURIComponent fuel net setCode boosterType minPrice
      includeSpecialGuests w
    = if includeSpecialGuests && hasSpecialGuests setCode
      then Some (Normal
                   (kept ++ fst (fetchSpecialGuestsCards encodeURIComponent
                                   net setCode minPrice w1)),
                 snd (fetchSpecialGuestsCards encodeURIComponent net setCode
                        minPrice w1))
      else Some (Normal kept, w1).
Proof.
  intros Hchain Hserves Hfuel. unfold fetchSetCards. cbv zeta.
  destruct (fetchPages_concatenates net pages
              (setCardsUrl encodeURIComponent setCode boosterType minPrice)
              w fuel Hchain Hserves Hfuel) as (w1 & Hrun & Hcount).
  rewrite Hrun. simpl. eexists w1, _. split; [exact Hcount|].
  split; [reflexivity|].
  destruct (includeSpecialGuests && hasSpecialGuests setCode).
  - destruct (fetchSpecialGuestsCards encodeURIComponent net setCode minPrice w1).
    destruct (String.eqb boosterType "collector"); reflexivity.
  - destruct (String.eqb boosterType "collector"); reflexivity.
Qed.

End GuestsFacts.

Section GuestsExamples.
Import Js Range Classifier Retry RetryOutcome Sealed Config Acquire Guests.
Import NetSamples.

Lemma fetchSpecialGuestsCards_quiet_witness :
  fetchSpecialGuestsCards encode notFound "lea" 0 Samples.idle
  = ([], Samples.idle) /\
  fst (fetchSpecialGuestsCards encode notFound "otj" 2 Samples.idle) = [].
Proof.
  split.
  - apply (fetchSpecialGuestsCards_quiet encode notFound "lea" 0 Samples.idle).
    reflexivity.
  - apply (fetchSpecialGuestsCards_quiet encode notFound "otj" 2 Samples.idle).
    intros k. reflexivity.
Defined.

Lemma fetchSetCards_all_pages_witness :
  exists w1 kept,
    fetched w1 = (fetched Samples.idle + length [firstPage; lastPage])%nat /\
    kept = (if String.eqb "play" "collector"
            then flat_map pageCards [firstPage; lastPage]
            else List.filter (fun card => negb (genericExclusive card))
                   (flat_map pageCards [firstPage; lastPage])) /\
    fetchSetCards encode 5 twoPages "mkm" "play" 0 true Samples.idle
    = if true && hasSpecialGuests "mkm"
      then Some (Normal
                   (kept ++ fst (fetchSpecialGuestsCards encode twoPages "mkm"
                                   0 w1)),
                 snd (fetchSpecialGuestsCards encode twoPages "mkm" 0 w1))
      else Some (Normal kept, w1).
Proof.
  apply (fetchSetCards_all_pages encode twoPages 5 "mkm" "play" 0 true
           Samples.idle [firstPage; lastPage]).
  - simpl. split; [discriminate|reflexivity].
  - exact serves_twoPages.
  - simpl. lia.
Defined.

End GuestsExamples.

(** ** Structured generator *)

Section StructuredFacts.
Import Js Range Classifier Rng Sealed Config ConfigSpec SealedSpec.
Variable cards : list Card.

Lemma fold_left_invariant_in {A B} (P : A -> Prop) (f : A -> B -> A)
  (l : list B) (a : A) :
  (forall a b, In b l -> P a -> P (f a b)) -> P a -> P (fold_left f l a).
Proof.
  revert a. induction l as [|b l IH]; intros a Hf Ha; simpl; [exact Ha|].
  apply IH.
  - intros a' b' Hb'. apply Hf. right. exact Hb'.
  - apply Hf; [left; reflexivity|exact Ha].
Qed.

Lemma addUnique_keeps {P : Card -> Prop} (matching bucket : list Card) :
  Forall P matching -> Forall P bucket -> Forall P (addUnique matching bucket).
Proof.
  unfold addUnique. revert bucket.
  induction matching as [|card matching IH]; intros bucket Hm Hb; simpl.
  - exact Hb.
  - apply Forall_cons in Hm as [Hcard Hm]. apply IH; [exact Hm|].
    destruct (existsb _ bucket); [exact Hb|].
    apply Forall_app. split; [exact Hb|]. constructor; [exact Hcard|constructor].
Qed.

Lemma existsb_id_In (card : Card) (bucket : list Card) :
  existsb (fun c => String.eqb (id c) (id card)) bucket = true <->
  In (id card) (map id bucket).
Proof.
  rewrite existsb_exists, in_map_iff. split.
  - intros (c & Hc & Heq). apply String.eqb_eq in Heq. eauto.
  - intros (c & Heq & Hc). exists c. split; [exact Hc|].
    apply String.eqb_eq. exact Heq.
Qed.

Lemma addUnique_distinct (matching bucket : list Card) :
  NoDup (map id bucket) -> NoDup (map id (addUnique matching bucket)).
Proof.
  unfold addUnique. revert bucket.
  induction matching as [|card matching IH]; intros bucket Hb; simpl.
  - exact Hb.
  - apply IH.
    destruct (existsb (fun c => String.eqb (id c) (id card)) bucket) eqn:Hseen;
      [exact Hb|].
    rewrite map_app. apply NoDup_app. split; [exact Hb|]. split.
    + intros x Hx Hx'. apply list_elem_of_In in Hx, Hx'.
      destruct Hx' as [<-|[]]. apply existsb_id_In in Hx. congruence.
    + apply NoDup_singleton.
Qed.

(** What holds of every bucket of [cardsByRarityInPool]. *)
Abbreviation bucketsSound sl := (fun byRarity : gmap string (list Card) =>
  forall r bucket, byRarity !! r = Some bucket ->
    NoDup (map id bucket) /\
    Forall (fun c => In c cards /\ rarity c = r /\ slotCovers sl c) bucket).

Lemma addRarity_sound (sl : list BoosterSlot) (slot : BoosterSlot)
  (p : list (string * list string)) (byRarity : gmap string (list Card))
  (r0 : string) :
  In slot sl -> slotPool slot = Some p ->
  bucketsSound sl byRarity ->
  bucketsSound sl (addRarity cards (slotRanges p) byRarity r0).
Proof.
  intros Hslot Hpool Hsound. unfold addRarity.
  set (byRarity' := match byRarity !! r0 with
                    | Some _ => byRarity
                    | None => <[r0:=[]]> byRarity
                    end).
  assert (Hsound' : bucketsSound sl byRarity').
  { subst byRarity'. destruct (byRarity !! r0) eqn:Hr0; [exact Hsound|].
    intros r bucket. destruct (decide (r0 = r)) as [<-|Hne].
    - rewrite lookup_insert_eq. intros H. injection H as <-.
      split; constructor.
    - rewrite lookup_insert_ne by exact Hne. apply Hsound. }
  clearbody byRarity'. intros r bucket.
  destruct (decide (r0 = r)) as [<-|Hne].
  - rewrite lookup_insert_eq. intros H. injection H as <-.
    assert (Hold : NoDup (map id (default [] (byRarity' !! r0))) /\
                   Forall (fun c => In c cards /\ rarity c = r0 /\ slotCovers sl c)
                     (default [] (byRarity' !! r0))).
    { destruct (byRarity' !! r0) as [old|] eqn:Hold; simpl.
      - exact (Hsound' _ _ Hold).
      - split; constructor. }
    destruct Hold as [Hnd Hall]. split; [apply addUnique_distinct; exact Hnd|].
    apply addUnique_keeps; [|exact Hall].
    apply Forall_forall. intros c Hc. apply list_elem_of_In, filter_In in Hc.
    destruct Hc as [Hc Hmatch]. apply andb_true_iff in Hmatch as [Hr Hin].
    split; [exact Hc|]. split; [apply String.eqb_eq; exact Hr|].
    exists slot, p. auto.
  - rewrite lookup_insert_ne by exact Hne. apply Hsound'.
Qed.

Lemma cardsByRarityInPool_sound (sl : list BoosterSlot) :
  bucketsSound sl (cardsByRarityInPool cards sl).
Proof.
  unfold cardsByRarityInPool.
  apply (fold_left_invariant_in (bucketsSound sl)).
  - intros byRarity slot Hslot Hsound.
    destruct (slotPool slot) as [p|] eqn:Hpool; [|exact Hsound].
    destruct (rarities slot) as [rs|]; [|exact Hsound].
    apply (fold_left_invariant (bucketsSound sl)); [|exact Hsound].
    intros a r. apply (addRarity_sound sl slot p a r Hslot Hpool).
  - intros r bucket H. rewrite lookup_empty in H. discriminate.
Qed.

(** Every bucket of the table the structured generator draws from holds
    cards of the catalogue only, no two with the same [id], all of the
    bucket's rarity and all with a collector number inside the ranges of
    some slot. *)
Theorem cardsByRarityInPool_buckets (sl : list BoosterSlot) (r : string)
  (bucket : list Card) :
  cardsByRarityInPool cards sl !! r = Some bucket ->
  NoDup (map id bucket) /\
  Forall (fun c => In c cards /\ rarity c = r /\ slotCovers sl c) bucket.
Proof. apply cardsByRarityInPool_sound. Qed.

Lemma drawItem_pushes (byRarity : gmap string (list Card))
  (inPool : list Card) (slot : BoosterSlot)
  (p : list (string * list string)) (st : Gen) :
  pool (drawItem byRarity inPool slot p st) = pool st \/
  exists c, pool (drawItem byRarity inPool slot p st) = pool st ++ [Some c] /\
            ((exists r bucket, byRarity !! r = Some bucket /\ In c bucket) \/
             (In c inPool /\ inRanges (slotRanges p) c = true)).
Proof.
  unfold drawItem.
  assert (Hpick : forall arr random,
            (forall c, In c arr ->
               (exists r bucket, byRarity !! r = Some bucket /\ In c bucket) \/
               (In c inPool /\ inRanges (slotRanges p) c = true)) ->
            let st' := (let (card, random') := pickIfAny arr random in
                        {| random := random';
                           pool := match card with
                                   | Some c => pool st ++ [Some c]
                                   | None => pool st
                                   end |}) in
            pool st' = pool st \/
            exists c, pool st' = pool st ++ [Some c] /\
              ((exists r bucket, byRarity !! r = Some bucket /\ In c bucket) \/
               (In c inPool /\ inRanges (slotRanges p) c = true))).
  { intros arr random Harr.
    pose proof (pickIfAny_in arr random) as Hin.
    destruct (pickIfAny arr random) as [[c|] random']; simpl in *.
    - right. exists c. split; [reflexivity|]. apply Harr, Hin. reflexivity.
    - left. reflexivity. }
  destruct (rarities slot) as [rs|].
  - destruct (chooseRarity byRarity slot rs (random st)) as [r random1].
    apply Hpick. intros c Hc. left.
    destruct (byRarity !! r) as [bucket|] eqn:Hr; [eauto|destruct Hc].
  - apply Hpick. intros c Hc. right. apply filter_In in Hc. tauto.
Qed.

Lemma fillSlot_invariant (P : option Card -> Prop)
  (byRarity : gmap string (list Card)) (inPool : list Card) (sl : list BoosterSlot)
  (slot : BoosterSlot) (st : Gen) :
  (forall c r bucket, byRarity !! r = Some bucket -> In c bucket -> P (Some c)) ->
  (forall c p, slotPool slot = Some p -> In c inPool ->
               inRanges (slotRanges p) c = true -> P (Some c)) ->
  Forall P (pool st) ->
  Forall P (pool (fillSlot byRarity inPool st slot)).
Proof.
  intros Hbucket Hwild Hst. unfold fillSlot.
  destruct (slotPool slot) as [p|] eqn:Hpool; [|exact Hst].
  destruct (count slot) as [[|n]|]; try exact Hst.
  apply (iter_invariant (fun st => Forall P (pool st))); [|exact Hst].
  intros a Ha.
  destruct (drawItem_pushes byRarity inPool slot p a)
    as [->|(c & -> & [(r & bucket & Hr & Hc)|[Hc Hin]])]; [exact Ha| |].
  - apply Forall_app. split; [exact Ha|]. constructor; [|constructor]. eauto.
  - apply Forall_app. split; [exact Ha|]. constructor; [|constructor]. eauto.
Qed.

Lemma structured_pool_covered (sl : list BoosterSlot) (numPacks : nat)
  (random : Random) :
  Forall (fun v => exists c, v = Some c /\ In c cards /\ slotCovers sl c)
    (pool (Nat.iter numPacks
             (structuredPack (cardsByRarityInPool cards sl)
                (allInPool cards sl) sl)
             {| random := random; pool := [] |})).
Proof.
  apply (iter_invariant
           (fun st => Forall (fun v => exists c, v = Some c /\ In c cards /\
                                         slotCovers sl c) (pool st)));
    [|constructor].
  intros st Hst. unfold structuredPack.
  apply (fold_left_invariant_in
           (fun st => Forall (fun v => exists c, v = Some c /\ In c cards /\
                                         slotCovers sl c) (pool st)));
    [|exact Hst].
  intros a slot Hslot Ha. apply fillSlot_invariant with (sl := sl); [| |exact Ha].
  - intros c r bucket Hr Hc.
    destruct (cardsByRarityInPool_sound sl r bucket Hr) as [_ Hall].
    rewrite Forall_forall in Hall. apply list_elem_of_In, Hall in Hc.
    exists c. tauto.
  - intros c p Hpool Hc Hin. exists c. split; [reflexivity|].
    split; [apply (allInPool_incl cards sl); exact Hc|].
    exists slot, p. auto.
Qed.

End StructuredFacts.

Section StructuredPoolFacts.
Import Js Range Classifier Rng Sealed Config ConfigSpec SealedSpec.
Variable cards : list Card.

Lemma finishOf_found (p : list (string * list string)) (f : string)
  (rs : list string) :
  NoDup (map fst p) -> In (f, rs) p -> finishOf f p = Some rs.
Proof.
  unfold finishOf. induction p as [|[g rs'] p IH]; intros Hnd Hin;
    [destruct Hin|].
  simpl in *. apply NoDup_cons in Hnd as [Hfresh Hnd].
  destruct (String.eqb_spec g f) as [->|Hne]; simpl.
  - destruct Hin as [Heq|Hin]; [congruence|].
    exfalso. apply Hfresh, list_elem_of_In, in_map_iff.
    exists (f, rs). auto.
  - destruct Hin as [Heq|Hin]; [congruence|]. apply IH; assumption.
Qed.

Lemma inRanges_standard (slot : BoosterSlot) (p : list (string * list string))
  (card : Card) :
  standardFinishes p -> slotPool slot = Some p ->
  inRanges (slotRanges p) card = true ->
  inRanges (slotPlayRanges slot) card = true.
Proof.
  intros [Hnd Hkeys] Hpool Hin. unfold inRanges in *.
  apply existsb_exists in Hin as (r & Hr & Hmatch).
  apply existsb_exists. exists r. split; [|exact Hmatch].
  unfold slotRanges in Hr. apply in_concat in Hr as (rs & Hrs & Hr).
  apply in_map_iff in Hrs as ([f rs'] & Heq & Hentry). simpl in Heq. subst rs'.
  unfold slotPlayRanges, slotFinish. rewrite Hpool. simpl.
  apply in_or_app.
  destruct (Hkeys _ Hentry) as [Hf|Hf]; simpl in Hf; subst f;
    rewrite (finishOf_found _ _ _ Hnd Hentry); auto.
Qed.

Lemma isInPlayBooster_loaded (cfg : SetConfig) (sl : list BoosterSlot)
  (card : Card) :
  playBooster cfg
  = Some {| includeCollectorNumbers
            := Some (dedupe (flat_map slotPlayRanges sl)) |} ->
  isInPlayBooster card (Some cfg)
  = Some (existsb (fun slot => inRanges (slotPlayRanges slot) card) sl).
Proof.
  intros Hplay. unfold isInPlayBooster. simpl. rewrite Hplay. simpl. f_equal.
  rewrite (existsb_same_elements _ _ (flat_map slotPlayRanges sl))
    by apply dedupe_spec.
  apply existsb_flat_map.
Qed.

Lemma generateSealedPoolFromBoosterData_structured (data : BoosterData)
  (setCode : string) (numPacks : nat) (seed : option Seed)
  (ambient : nat -> Q) (sl : list BoosterSlot) :
  playSlots data setCode = Some sl ->
  generateSealedPoolFromBoosterData data setCode cards numPacks seed ambient
  = pool (Nat.iter numPacks
            (structuredPack (cardsByRarityInPool cards sl)
               (allInPool cards sl) sl)
            {| random := randomSource seed ambient; pool := [] |}).
Proof.
  unfold playSlots, generateSealedPoolFromBoosterData. cbv zeta.
  destruct (boosters (boosterIndex data) !! setCode) as [types|];
    [|discriminate]. simpl. fold (playTypeOf types).
  destruct (playTypeOf types) as [playType|]; [|discriminate]. simpl.
  intros ->. reflexivity.
Qed.

(** The structured generator and the configuration agree: when the
    pools of the play (or draft) file list their ranges under [nonfoil]
    and [foil] only, every card of a pool generated from that file lies
    inside the play-booster ranges of the configuration
    [fetchSetConfig] derives from the same file, and so is never
    collector-exclusive under it. *)
Theorem structured_pool_eligible (data : BoosterData) (setCode : string)
  (numPacks : nat) (seed : option Seed) (ambient : nat -> Q)
  (cfg : LoadedConfig) :
  fetchSetConfig data setCode = Normal (Some cfg) ->
  (forall sl slot p,
     playSlots data setCode = Some sl -> In slot sl ->
     slotPool slot = Some p -> standardFinishes p) ->
  Forall
    (fun v => exists c,
       v = Some c /\ In c cards /\
       isInPlayBooster c (Some (configRanges cfg)) = Some true /\
       isCollectorExclusive c (Some (configRanges cfg)) = false)
    (generateSealedPoolFromBoosterData data setCode cards numPacks seed
       ambient).
Proof.
  intros Hcfg Hstandard.
  destruct (fetchSetConfig_inversion _ _ _ Hcfg)
    as (types & sl & _ & Hsl & Hplay & _).
  rewrite (generateSealedPoolFromBoosterData_structured _ _ _ _ _ _ Hsl).
  eapply Forall_impl; [apply structured_pool_covered|].
  intros v (c & -> & Hc & slot & p & Hslot & Hpool & Hin).
  exists c. split; [reflexivity|]. split; [exact Hc|].
  assert (Hanswer : isInPlayBooster c (Some (configRanges cfg)) = Some true).
  { rewrite (isInPlayBooster_loaded _ sl c Hplay). f_equal.
    apply existsb_exists. exists slot. split; [exact Hslot|].
    apply (inRanges_standard slot p c (Hstandard sl slot p Hsl Hslot Hpool)
             Hpool Hin). }
  split; [exact Hanswer|].
  unfold isCollectorExclusive. rewrite Hanswer. reflexivity.
Qed.

Lemma fillSlot_length (byRarity : gmap string (list Card))
  (inPool : list Card) (st : Gen) (slot : BoosterSlot) :
  (length (pool (fillSlot byRarity inPool st slot))
   <= length (pool st)
      + match slotPool slot, count slot with
        | Some _, Some n => n
        | _, _ => 0
        end)%nat.
Proof.
  unfold fillSlot. destruct (slotPool slot) as [p|]; [|lia].
  destruct (count slot) as [[|n]|]; try lia.
  generalize (S n). intros m. induction m as [|m IH]; simpl; [lia|].
  destruct (drawItem_pushes byRarity inPool slot p
              (Nat.iter m (drawItem byRarity inPool slot p) st))
    as [->|(c & -> & _)]; [lia|].
  rewrite length_app. simpl. lia.
Qed.

Lemma structuredPack_length (byRarity : gmap string (list Card))
  (inPool : list Card) (sl : list BoosterSlot) (st : Gen) :
  (length (pool (structuredPack byRarity inPool sl st))
   <= length (pool st) + packSize sl)%nat.
Proof.
  unfold structuredPack, packSize. revert st.
  induction sl as [|slot sl IH]; intros st; simpl; [lia|].
  etransitivity; [apply IH|].
  pose proof (fillSlot_length byRarity inPool st slot). lia.
Qed.

(** A pool generated from booster data never holds more cards than the
    slots ask for: at most the sum of the counts of the slots that have a
    pool, for each pack; draws from empty pools are skipped, not
    replaced. *)
Theorem structured_pool_length_bound (data : BoosterData) (setCode : string)
  (numPacks : nat) (seed : option Seed) (ambient : nat -> Q)
  (sl : list BoosterSlot) :
  playSlots data setCode = Some sl ->
  (length (generateSealedPoolFromBoosterData data setCode cards numPacks seed
             ambient)
   <= numPacks * packSize sl)%nat.
Proof.
  intros Hsl.
  rewrite (generateSealedPoolFromBoosterData_structured _ _ _ _ _ _ Hsl).
  induction numPacks as [|n IH]; simpl; [lia|].
  etransitivity; [apply structuredPack_length|]. lia.
Qed.

End StructuredPoolFacts.

Section StructuredExamples.
Import Js Range Classifier Rng Sealed Config ConfigSpec SealedSpec MoreSamples.

Lemma cardsByRarityInPool_buckets_witness :
  NoDup (map id [Samples.sampleCard "c1" "1" "common";
                 Samples.sampleCard "c2" "2" "common"]) /\
  Forall (fun c => In c Samples.sampleCatalog /\ rarity c = "common" /\
                   slotCovers [Samples.rareMythicSlot; commonSlot; notesSlot] c)
    [Samples.sampleCard "c1" "1" "common"; Samples.sampleCard "c2" "2" "common"].
Proof.
  apply (cardsByRarityInPool_buckets Samples.sampleCatalog
           [Samples.rareMythicSlot; commonSlot; notesSlot] "common").
  vm_compute. reflexivity.
Defined.

Lemma standardFinishes_sample (sl : list BoosterSlot) (slot : BoosterSlot)
  (p : list (string * list string)) :
  playSlots fullBoosterData "mkm" = Some sl -> In slot sl ->
  slotPool slot = Some p -> standardFinishes p.
Proof.
  intros Hsl Hslot Hpool. vm_compute in Hsl. injection Hsl as <-.
  destruct Hslot as [<-|[<-|[<-|[]]]]; simpl in Hpool; try discriminate;
    injection Hpool as Hp; subst p;
    (split; [apply (bool_decide_unpack _); vm_compute; exact I|]);
    intros entry Hentry; simpl in Hentry;
    repeat (destruct Hentry as [<-|Hentry]; [simpl; auto|]);
    destruct Hentry.
Qed.

Lemma structured_pool_eligible_witness :
  Forall
    (fun v => exists c,
       v = Some c /\ In c Samples.sampleCatalog /\
       isInPlayBooster c (Some (configRanges mkmConfig)) = Some true /\
       isCollectorExclusive c (Some (configRanges mkmConfig)) = false)
    (generateSealedPoolFromBoosterData fullBoosterData "mkm"
       Samples.sampleCatalog 6 (Some (SeedString "seed-A")) Samples.zeros).
Proof.
  apply (structured_pool_eligible Samples.sampleCatalog fullBoosterData "mkm" 6
           (Some (SeedString "seed-A")) Samples.zeros mkmConfig).
  - vm_compute. reflexivity.
  - exact standardFinishes_sample.
Defined.

Lemma structured_pool_length_bound_witness :
  (length (generateSealedPoolFromBoosterData fullBoosterData "mkm"
             Samples.sampleCatalog 6 None Samples.zeros)
   <= 6 * packSize [Samples.rareMythicSlot; commonSlot; notesSlot])%nat.
Proof.
  apply (structured_pool_length_bound Samples.sampleCatalog fullBoosterData
           "mkm" 6 None Samples.zeros).
  vm_compute. reflexivity.
Defined.

End StructuredExamples.

(** ** Hashes and the daily seed *)

Section HashFacts.
Import Js Rng Daily HashSpec.

Lemma ToInt32_range (x : Z) : -2147483648 <= ToInt32 x < 2147483648.
Proof.
  unfold ToInt32, two32.
  pose proof (Z.mod_pos_bound (x + 2147483648) 4294967296 eq_refl). lia.
Qed.

Lemma ToInt32_shift (x k : Z) : ToInt32 (x + two32 * k) = ToInt32 x.
Proof.
  unfold ToInt32. f_equal.
  replace (x + two32 * k + 2147483648) with (x + 2147483648 + k * two32) by ring.
  apply Z_mod_plus_full.
Qed.

Lemma ToInt32_wraps (x : Z) : exists k, ToInt32 x = x + two32 * k.
Proof.
  exists (- ((x + 2147483648) / two32)). unfold ToInt32.
  pose proof (Z.div_mod (x + 2147483648) two32 ltac:(discriminate)). lia.
Qed.

Lemma ToInt32_fixed (x : Z) :
  -2147483648 <= x < 2147483648 -> ToInt32 x = x.
Proof.
  intros H. unfold ToInt32, two32. rewrite Z.mod_small by lia. lia.
Qed.

Lemma bor_0_r (x : Z) : bor x 0 = ToInt32 x.
Proof.
  unfold bor. change (ToInt32 0) with 0. rewrite Z.lor_0_r.
  apply ToInt32_fixed, ToInt32_range.
Qed.

Lemma hash_step (h c : Z) :
  bor (shl (ToInt32 h) 5 - ToInt32 h + c) 0 = ToInt32 (31 * h + c).
Proof.
  rewrite bor_0_r. unfold shl. change (5 mod 32) with 5.
  rewrite Z.shiftl_mul_pow2 by lia. change (2 ^ 5) with 32.
  rewrite (ToInt32_fixed (ToInt32 h)) by apply ToInt32_range.
  destruct (ToInt32_wraps (ToInt32 h * 32)) as [k ->].
  destruct (ToInt32_wraps h) as [j ->].
  replace ((h + two32 * j) * 32 + two32 * k - (h + two32 * j) + c)
    with (31 * h + c + two32 * (31 * j + k)) by ring.
  apply ToInt32_shift.
Qed.

Lemma hashString_from_poly (h : Z) (s : string) :
  hashString_from (ToInt32 h) s = ToInt32 (polyFrom h s).
Proof.
  revert h. induction s as [|c s IH]; intros h; simpl; [reflexivity|].
  rewrite hash_step. apply IH.
Qed.

Lemma hashDate_from_hashString_from (h : Z) (s : string) :
  hashDate_from h s = hashString_from h s.
Proof.
  revert h. induction s as [|c s IH]; intros h; simpl; [reflexivity|apply IH].
Qed.

(** [hashString] is the polynomial rolling hash in base 31 of the code
    units, wrapped to a signed 32-bit word, and [hashDate] is its
    absolute value: a number between 0 and 2^31, bounds included. *)
Theorem hashString_is_polynomial (s : string) :
  hashString s = ToInt32 (polyFrom 0 s) /\
  -2147483648 <= hashString s < 2147483648 /\
  hashDate s = Z.abs (hashString s) /\
  0 <= hashDate s <= 2147483648.
Proof.
  assert (Hpoly : hashString s = ToInt32 (polyFrom 0 s)).
  { unfold hashString. change 0 with (ToInt32 0) at 1.
    apply hashString_from_poly. }
  assert (Hdate : hashDate s = Z.abs (hashString s)).
  { unfold hashDate, hashString, abs.
    rewrite hashDate_from_hashString_from. reflexivity. }
  pose proof (ToInt32_range (polyFrom 0 s)) as Hrange.
  split; [exact Hpoly|]. split; [rewrite Hpoly; exact Hrange|].
  split; [exact Hdate|]. rewrite Hdate, Hpoly. lia.
Qed.

End HashFacts.

Section DailyPoolFacts.
Import Js Classifier Rng Sealed Daily.

Lemma getDailySeed_day (d : Date) (iso : string) :
  isoString d = Some iso ->
  getDailySeed d
  = Normal ("daily-" ++ default "undefined" (head (split "T" iso)))%string.
Proof.
  intros H. unfold getDailySeed, toISOString. rewrite H. reflexivity.
Qed.

(** The daily challenge is reproducible: the seed [getDailySeed] derives
    from a date is never taken for absent, two dates of the same
    calendar day give the same seed, and the pools generated from it for
    one catalogue are identical whatever [Math.random] would return. *)
Theorem daily_pool_reproducible (data : BoosterData) (setCode : string)
  (cards : list Card) (numPacks : nat) (d d' : Date) (iso iso' : string)
  (ambient ambient' : nat -> Q) :
  isoString d = Some iso -> isoString d' = Some iso' ->
  head (split "T" iso) = head (split "T" iso') ->
  exists seed,
    getDailySeed d = Normal seed /\ getDailySeed d' = Normal seed /\
    truthy (Some (SeedString seed)) = true /\
    generateSealedPoolFromBoosterData data setCode cards numPacks
      (Some (SeedString seed)) ambient
    = generateSealedPoolFromBoosterData data setCode cards numPacks
        (Some (SeedString seed)) ambient'.
Proof.
  intros Hd Hd' Hday.
  exists ("daily-" ++ default "undefined" (head (split "T" iso)))%string.
  split; [apply getDailySeed_day; exact Hd|].
  split; [rewrite Hday; apply getDailySeed_day; exact Hd'|].
  assert (Htruthy : truthy (Some (SeedString
            ("daily-" ++ default "undefined" (head (split "T" iso)))%string))
          = true) by reflexivity.
  split; [exact Htruthy|].
  unfold generateSealedPoolFromBoosterData, generateSealedPool,
    generateSealedPoolWith.
  rewrite !(randomSource_seeded _ _ Htruthy). reflexivity.
Qed.

Lemma daily_pool_reproducible_witness :
  exists seed,
    getDailySeed Samples.newYear2024 = Normal seed /\
    getDailySeed {| isoString := Some "2024-01-01T23:59:59.999Z" |}
    = Normal seed /\
    truthy (Some (SeedString seed)) = true /\
    generateSealedPoolFromBoosterData Samples.sampleBoosterData "mkm"
      Samples.sampleCatalog 6 (Some (SeedString seed)) Samples.zeros
    = generateSealedPoolFromBoosterData Samples.sampleBoosterData "mkm"
        Samples.sampleCatalog 6 (Some (SeedString seed)) Samples.halves.
Proof.
  apply (daily_pool_reproducible Samples.sampleBoosterData "mkm"
           Samples.sampleCatalog 6 Samples.newYear2024
           {| isoString := Some "2024-01-01T23:59:59.999Z" |}
           "2024-01-01T10:30:00.000Z" "2024-01-01T23:59:59.999Z"
           Samples.zeros Samples.halves); reflexivity.
Defined.

End DailyPoolFacts.

(** ** Malformed ranges *)

Section RangeEdgeFacts.
Import Js Range.

Lemma split_nonempty (sep : ascii) (s : string) : split sep s <> [].
Proof.
  destruct s as [|c s]; simpl; [discriminate|].
  destruct (Ascii.eqb c sep); [discriminate|].
  destruct (split sep s); discriminate.
Qed.

Lemma isInRange_dashed_unfold (cn lo rest : string) :
  includesChar "-" lo = false ->
  isInRange cn (lo ++ String "-" rest)%string =
  match parseInt cn with
  | None => false
  | Some n =>
      ge (Some n) (parseInt lo)
      && le (Some n) (parseInt (default "" (head (split "-" rest))))
  end.
Proof.
  intros Hlo. unfold isInRange.
  rewrite includesChar_app, (split_at_first_separator _ _ _ Hlo).
  destruct (parseInt cn) as [n|]; [|reflexivity].
  pose proof (split_nonempty "-" rest) as Hne.
  destruct (split "-" rest) as [|hi tl]; [congruence|]. reflexivity.
Qed.

(** How [isInRange] treats ranges that are not of the form [N] or
    [N-M]: a range that starts with a dash (a negative bound) and a range
    that ends with its dash match no collector number; a range whose
    bounds are in the wrong order matches none; and whatever follows a
    second dash is ignored. *)
Theorem isInRange_malformed (cn : string) :
  (forall rest, isInRange cn (String "-" rest) = false) /\
  (forall lo, includesChar "-" lo = false ->
              isInRange cn (lo ++ "-")%string = false) /\
  (forall lo hi a b,
     includesChar "-" lo = false -> includesChar "-" hi = false ->
     parseInt lo = Some a -> parseInt hi = Some b -> b < a ->
     isInRange cn (lo ++ String "-" hi)%string = false) /\
  (forall lo hi rest,
     includesChar "-" lo = false -> includesChar "-" hi = false ->
     isInRange cn (lo ++ String "-" (hi ++ String "-" rest))%string
     = isInRange cn (lo ++ String "-" hi)%string).
Proof.
  split; [|split; [|split]].
  - intros rest.
    refine (eq_trans (isInRange_dashed_unfold cn "" rest eq_refl) _).
    destruct (parseInt cn); reflexivity.
  - intros lo Hlo. rewrite (isInRange_dashed_unfold cn lo "" Hlo).
    destruct (parseInt cn) as [n|]; [|reflexivity].
    simpl. apply andb_false_r.
  - intros lo hi a b Hlo Hhi Ha Hb Hlt.
    rewrite (isInRange_dashed_unfold cn lo hi Hlo).
    destruct (parseInt cn) as [n|]; [|reflexivity].
    rewrite (split_no_separator _ _ Hhi). simpl. rewrite Ha, Hb. simpl.
    destruct (Z.leb_spec a n), (Z.leb_spec n b); simpl; try reflexivity. lia.
  - intros lo hi rest Hlo Hhi.
    rewrite !(isInRange_dashed_unfold cn lo _ Hlo).
    rewrite (split_at_first_separator _ _ _ Hhi), (split_no_separator _ _ Hhi).
    reflexivity.
Qed.

Lemma isInRange_malformed_witness :
  isInRange "7" "5-" = false /\
  isInRange "7" "10-1" = false /\
  isInRange "7" "1-10-3" = isInRange "7" "1-10".
Proof.
  destruct (isInRange_malformed "7") as (_ & Htrail & Hswap & Hextra).
  split; [apply (Htrail "5"); reflexivity|]. split.
  - apply (Hswap "10" "1" 10 1); reflexivity.
  - apply (Hextra "1" "10" "3"); reflexivity.
Defined.

End RangeEdgeFacts.

(** ** State of the seeded generator *)

Section SeededStateFacts.
Import Js Rng.

Lemma mulberry32_state (seed : Z) :
  snd (mulberry32 seed) = ToInt32 (seed + 1831565813).
Proof.
  unfold mulberry32. cbv zeta. cbn [snd]. rewrite !bor_0_r.
  destruct (ToInt32_wraps seed) as [k ->].
  replace (seed + two32 * k + 1831565813)
    with (seed + 1831565813 + two32 * k) by ring.
  apply ToInt32_shift.
Qed.

Lemma mulberry32_wrapped (seed : Z) : mulberry32 (ToInt32 seed) = mulberry32 seed.
Proof.
  unfold mulberry32. cbv zeta. rewrite !bor_0_r.
  rewrite (ToInt32_fixed (ToInt32 seed)) by apply ToInt32_range. reflexivity.
Qed.

Lemma call_state (seed : Z) :
  snd (call (Seeded seed)) = Seeded (ToInt32 (seed + 1831565813)).
Proof.
  unfold call. pose proof (mulberry32_state seed) as H.
  destruct (mulberry32 seed) as [r seed']. cbn [snd] in *. rewrite H.
  reflexivity.
Qed.

Lemma seeded_state_after (n : nat) (seed : Z) :
  Nat.iter (S n) (fun random => snd (call random)) (Seeded seed)
  = Seeded (ToInt32 (seed + Z.of_nat (S n) * 1831565813)).
Proof.
  induction n as [|n IH].
  - change (Nat.iter 1 ?f ?x) with (f x). cbv beta. rewrite call_state.
    do 2 f_equal; lia.
  - change (Nat.iter (S (S n)) ?f ?x) with (f (Nat.iter (S n) f x)).
    cbv beta. rewrite IH.
    assert (Hwrap : forall x, call (Seeded (ToInt32 x)) = call (Seeded x)).
    { intros x. unfold call. rewrite mulberry32_wrapped. reflexivity. }
    rewrite Hwrap, call_state. do 2 f_equal; lia.
Qed.

(** The captured [seed] of the seeded generator advances by the constant
    0x6D2B79F5 at each call, modulo 2^32: after [n] calls it is the
    32-bit wrap of [seed + n * 0x6D2B79F5], and a call depends on the
    seed only through its 32-bit wrap.  Hence the streams of two seeds
    that differ by the constant are one stream, shifted by one draw, and
    after 2^32 calls the stream starts again. *)
Theorem seeded_state_closed_form (seed : Z) :
  (forall n, Nat.iter (S n) (fun random => snd (call random)) (Seeded seed)
             = Seeded (ToInt32 (seed + Z.of_nat (S n) * 1831565813))) /\
  call (Seeded (ToInt32 seed)) = call (Seeded seed) /\
  call (snd (call (seededRandom (SeedNumber seed))))
  = call (seededRandom (SeedNumber (seed + 1831565813))) /\
  call (Nat.iter (N.to_nat 4294967296) (fun random => snd (call random))
          (Seeded seed))
  = call (Seeded seed).
Proof.
  assert (Hwrap : forall x, call (Seeded (ToInt32 x)) = call (Seeded x)).
  { intros x. unfold call. rewrite mulberry32_wrapped. reflexivity. }
  split; [intros n; apply seeded_state_after|]. split; [apply Hwrap|]. split.
  - unfold seededRandom. rewrite <- (Hwrap (seed + 1831565813)).
    rewrite call_state. reflexivity.
  - assert (Hpos : (0 < N.to_nat 4294967296)%nat) by lia.
    revert Hpos. generalize (N_nat_Z 4294967296).
    generalize (N.to_nat 4294967296). intros n Hn Hpos.
    destruct n as [|n]; [lia|].
    rewrite seeded_state_after, Hn, <- (Hwrap seed).
    change (Z.of_N 4294967296) with two32.
    rewrite ToInt32_shift. reflexivity.
Qed.

End SeededStateFacts.

(** ** [fetchSetConfigs] *)

Section AllConfigsFacts.
Import Js Classifier Sealed Config ConfigSpec AllConfigs.
Variable data : BoosterData.

Lemma addConfig_throw (l : list (string * list string)) (e : Error) :
  fold_left (addConfig data) l (Throw e) = Throw e.
Proof. induction l as [|entry l IH]; simpl; [reflexivity|exact IH]. Qed.

Lemma fold_addConfig_spec (l : list (string * list string))
  (acc configs : gmap string LoadedConfig) :
  NoDup (map fst l) ->
  (forall k, In k (map fst l) -> acc !! k = None) ->
  fold_left (addConfig data) l (Normal acc) = Normal configs ->
  (forall k types, In (k, types) l ->
                   configOfSet data k types = Normal (configs !! k)) /\
  (forall k, ~ In k (map fst l) -> configs !! k = acc !! k).
Proof.
  revert acc. induction l as [|[k0 types0] l IH]; intros acc Hnd Hfresh Hrun.
  - simpl in Hrun. injection Hrun as <-. split; [intros k types []|auto].
  - simpl in Hnd. apply NoDup_cons in Hnd as [Hk0 Hnd].
    rewrite list_elem_of_In in Hk0.
    simpl in Hrun.
    destruct (configOfSet data k0 types0) as [written|e] eqn:Hbody;
      [|rewrite addConfig_throw in Hrun; discriminate].
    set (acc' := match written with
                 | Some config => <[k0 := config]> acc
                 | None => acc
                 end).
    assert (Hrun' : fold_left (addConfig data) l (Normal acc') = Normal configs).
    { subst acc'. destruct written; exact Hrun. }
    assert (Hacc' : forall k, k <> k0 -> acc' !! k = acc !! k).
    { intros k Hk. subst acc'. destruct written; [|reflexivity].
      apply lookup_insert_ne. congruence. }
    assert (Hk0' : acc' !! k0 = written).
    { subst acc'. destruct written; [apply lookup_insert_eq|].
      apply Hfresh. left. reflexivity. }
    destruct (IH acc' Hnd) as [Hin Hout]; [|exact Hrun'|].
    { intros k Hk. rewrite Hacc' by congruence. apply Hfresh. right. exact Hk. }
    split.
    + intros k types [Heq|Hk].
      * injection Heq as <- <-. rewrite (Hout k0 Hk0), Hk0'. exact Hbody.
      * apply Hin. exact Hk.
    + intros k Hk. simpl in Hk. rewrite (Hout k) by tauto.
      apply Hacc'. intros ->. apply Hk. left. reflexivity.
Qed.

Lemma fetchSetConfigs_entries (configs : gmap string LoadedConfig) :
  fetchSetConfigs data = Normal configs ->
  forall setCode,
    match boosters (boosterIndex data) !! setCode with
    | Some types => configOfSet data setCode types = Normal (configs !! setCode)
    | None => configs !! setCode = None
    end.
Proof.
  unfold fetchSetConfigs. intros Hrun setCode.
  destruct (fold_addConfig_spec _ ∅ configs
              (NoDup_fst_map_to_list (boosters (boosterIndex data)))
              (fun k _ => lookup_empty k) Hrun) as [Hin Hout].
  destruct (boosters (boosterIndex data) !! setCode) as [types|] eqn:Htypes.
  - apply Hin, list_elem_of_In, elem_of_map_to_list. exact Htypes.
  - rewrite Hout; [apply lookup_empty|].
    intros Hk. apply in_map_iff in Hk as ([k types] & Heq & Hk). simpl in Heq.
    subst k. apply list_elem_of_In, elem_of_map_to_list in Hk. congruence.
Qed.

Lemma configOfSet_fetchSetConfig (setCode : string) (types : list string) :
  boosters (boosterIndex data) !! setCode = Some types ->
  includes "collector" types = true \/
  loadBoosterFile data setCode "collector" = None ->
  fetchSetConfig data setCode = configOfSet data setCode types.
Proof.
  intros Htypes Hcollector. unfold fetchSetConfig, configOfSet. rewrite Htypes.
  destruct (if includes "play" types then Some "play"
            else if includes "draft" types then Some "draft" else None)
    as [playType|]; [|reflexivity]. cbv zeta.
  destruct (loadBoosterFile data setCode playType) as [playFile|];
    [|reflexivity].
  destruct (slots playFile) as [sl|]; [|reflexivity].
  unfold loadCollectorExclusive, collectorOfFile.
  destruct Hcollector as [->| ->].
  - destruct (loadBoosterFile data setCode "collector") as [file|];
      [|reflexivity].
    destruct (slots file) as [csl|]; [|reflexivity].
    destruct (0 <? length (flat_map slotCollectorRanges csl))%nat; reflexivity.
  - destruct (includes "collector" types); reflexivity.
Qed.

(** The loader of all configurations agrees with the loader of one: when
    [fetchSetConfigs] completes, then for every set for which the index
    lists a collector booster or no collector file is there,
    [fetchSetConfig] returns the entry [fetchSetConfigs] wrote for the
    set (or null when it wrote none); and it writes no entry for a set
    that the index does not list. *)
Theorem fetchSetConfigs_agrees (configs : gmap string LoadedConfig)
  (setCode : string) :
  fetchSetConfigs data = Normal configs ->
  (boosters (boosterIndex data) !! setCode = None ->
   configs !! setCode = None) /\
  (forall types,
     boosters (boosterIndex data) !! setCode = Some types ->
     includes "collector" types = true \/
     loadBoosterFile data setCode "collector" = None ->
     fetchSetConfig data setCode = Normal (configs !! setCode)).
Proof.
  intros Hrun. pose proof (fetchSetConfigs_entries configs Hrun setCode) as H.
  split.
  - intros Hnone. rewrite Hnone in H. exact H.
  - intros types Htypes Hcollector. rewrite Htypes in H.
    rewrite (configOfSet_fetchSetConfig setCode types Htypes Hcollector).
    exact H.
Qed.

End AllConfigsFacts.

Section AllConfigsExamples.
Import Js Classifier Sealed Config ConfigSpec AllConfigs AllConfigsSamples.

(** Where the two loaders part: a collector file that the index does not
    list is read by [fetchSetConfigs] and not by [fetchSetConfig]. *)
Lemma unlisted_collector_file_read_by_fetchSetConfigs :
  exists configs one all,
    fetchSetConfigs unlistedCollectorData = Normal configs /\
    configs !! "mkm" = Some all /\
    fetchSetConfig unlistedCollectorData "mkm" = Normal (Some one) /\
    collectorExclusive (configRanges one) = None /\
    collectorExclusive (configRanges all)
    = Some {| collectorNumbers := Some ["300-341"; "400"] |}.
Proof.
  eexists _, _, _. split; [vm_compute; reflexivity|].
  split; [vm_compute; reflexivity|].
  split; [vm_compute; reflexivity|]. split; reflexivity.
Qed.

Lemma fetchSetConfigs_agrees_witness :
  fetchSetConfig listedData "mkm"
  = Normal (listedConfigs !! "mkm").
Proof.
  apply (fetchSetConfigs_agrees listedData listedConfigs "mkm")
    with (types := ["play"; "collector"]).
  - vm_compute. reflexivity.
  - vm_compute. reflexivity.
  - left. reflexivity.
Defined.

End AllConfigsExamples.

(** ** Weekly blurb *)

Section LeagueFacts.
Import Js Acquire League.
Variable me : string.

Lemma sumCounts_bump (mode : string) (g : list (string * Z)) :
  sumCounts (bump mode g) = sumCounts g + 1.
Proof.
  unfold sumCounts. induction g as [|[m count] g IH]; simpl; [reflexivity|].
  destruct (String.eqb m mode); simpl; lia.
Qed.

Lemma bump_keys (mode : string) (g : list (string * Z)) :
  map fst (bump mode g)
  = if existsb (fun e => String.eqb (fst e) mode) g
    then map fst g else map fst g ++ [mode].
Proof.
  induction g as [|[m count] g IH]; simpl; [reflexivity|].
  destruct (String.eqb m mode); simpl; [reflexivity|].
  rewrite IH. destruct (existsb _ g); reflexivity.
Qed.

Lemma bump_distinct (mode : string) (g : list (string * Z)) :
  NoDup (map fst g) -> NoDup (map fst (bump mode g)).
Proof.
  intros Hnd. rewrite bump_keys.
  destruct (existsb (fun e => String.eqb (fst e) mode) g) eqn:Hseen;
    [exact Hnd|].
  apply NoDup_app. split; [exact Hnd|]. split; [|apply NoDup_singleton].
  intros k Hk Hk'. apply list_elem_of_In in Hk, Hk'. destruct Hk' as [<-|[]].
  apply in_map_iff in Hk as (e & He & Hin).
  assert (existsb (fun e => String.eqb (fst e) mode) g = true); [|congruence].
  apply existsb_exists. exists e. split; [exact Hin|].
  apply String.eqb_eq. exact He.
Qed.

Lemma bump_positive (mode : string) (g : list (string * Z)) :
  Forall (fun e => 1 <= snd e) g -> Forall (fun e => 1 <= snd e) (bump mode g).
Proof.
  induction g as [|[m count] g IH]; intros Hg; simpl.
  - constructor; [simpl; lia|constructor].
  - apply Forall_cons in Hg as [Hcount Hg]. simpl in Hcount.
    destruct (String.eqb m mode); constructor; simpl; auto; lia.
Qed.

Lemma played_cons (m : Match) (matches : list Match) :
  played (m :: matches) me
  = match findMe m me with Some _ => 1 | None => 0 end + played matches me.
Proof.
  unfold played. simpl. destruct (findMe m me) as [p|].
  - rewrite bool_decide_eq_true_2 by eauto. simpl length. lia.
  - rewrite bool_decide_eq_false_2 by (intros [? ?]; discriminate). lia.
Qed.

Lemma tally_from (matches : list Match) (t0 : Tally) :
  let t := fold_left (tallyMatch me) matches t0 in
  totalWins t + totalLosses t
  = totalWins t0 + totalLosses t0 + played matches me /\
  sumCounts (groups t) = sumCounts (groups t0) + played matches me /\
  totalWins t0 <= totalWins t /\ totalLosses t0 <= totalLosses t /\
  (NoDup (map fst (groups t0)) -> NoDup (map fst (groups t))) /\
  (Forall (fun e => 1 <= snd e) (groups t0) ->
   Forall (fun e => 1 <= snd e) (groups t)).
Proof.
  revert t0. induction matches as [|m matches IH]; intros t0; cbv zeta.
  - unfold played. simpl. repeat split; auto; lia.
  - simpl fold_left. rewrite played_cons.
    specialize (IH (tallyMatch me t0 m)). cbv zeta in IH.
    destruct IH as (Hrec & Hsum & Hw & Hl & Hnd & Hpos).
    unfold tallyMatch in *. destruct (findMe m me) as [p|].
    + simpl in *. rewrite sumCounts_bump in Hsum.
      repeat split.
      * destruct (win p); lia.
      * lia.
      * destruct (win p); lia.
      * destruct (win p); lia.
      * intros H. apply Hnd, bump_distinct. exact H.
      * intros H. apply Hpos, bump_positive. exact H.
    + repeat split; auto; lia.
Qed.

(** The loop of [buildBlurb] counts each match the player took part in
    once as a win or a loss and once under its queue label: the wins and
    losses add up to the number of those matches, and so do the counts
    of the groups, which have distinct labels and counts of at least
    1. *)
Theorem tally_counts_played_matches (matches : list Match) :
  totalWins (tally matches me) + totalLosses (tally matches me)
  = played matches me /\
  sumCounts (groups (tally matches me)) = played matches me /\
  0 <= totalWins (tally matches me) /\ 0 <= totalLosses (tally matches me) /\
  NoDup (map fst (groups (tally matches me))) /\
  Forall (fun e => 1 <= snd e) (groups (tally matches me)).
Proof.
  destruct (tally_from matches
              {| groups := []; totalWins := 0; totalLosses := 0 |})
    as (Hrec & Hsum & Hw & Hl & Hnd & Hpos).
  unfold tally. cbn [groups totalWins totalLosses] in *.
  change (sumCounts []) with 0 in Hsum.
  split; [lia|]. split; [lia|]. split; [lia|]. split; [lia|].
  split; [apply Hnd; constructor|apply Hpos; constructor].
Qed.

Lemma tally_without_me (matches : list Match) (t0 : Tally) :
  (forall m, In m matches -> findMe m me = None) ->
  fold_left (tallyMatch me) matches t0 = t0.
Proof.
  revert t0. induction matches as [|m matches IH]; intros t0 H; simpl;
    [reflexivity|].
  unfold tallyMatch at 2. rewrite (H m) by (left; reflexivity).
  apply IH. intros m' Hm'. apply H. right. exact Hm'.
Qed.

(** When there are matches but the player took part in none of them, the
    blurb is not the "no games" text: the empty list of parts is joined
    as if it had several elements, and the text reads [played  and
    undefined in the last week, went 0-0]. *)
Theorem buildBlurb_without_player (matches : list Match) :
  matches <> [] ->
  (forall m, In m matches -> findMe m me = None) ->
  buildBlurb matches me = "played  and undefined in the last week, went 0-0".
Proof.
  intros Hne Hnone. unfold buildBlurb, tally.
  rewrite (tally_without_me matches _ Hnone).
  destruct matches as [|m matches]; [congruence|]. reflexivity.
Qed.

End LeagueFacts.

Section LeagueExamples.
Import Js Acquire League LeagueSamples.

Lemma buildBlurb_without_player_witness :
  buildBlurb strangersWeek "me"
  = "played  and undefined in the last week, went 0-0".
Proof.
  apply (buildBlurb_without_player "me" strangersWeek).
  - discriminate.
  - intros m [<-|[<-|[]]]; reflexivity.
Defined.

End LeagueExamples.

(** ** Short legacy pools *)

Section LegacyLengthFacts.
Import Js Classifier Rng Sealed.

Lemma pushIfAny_length_any (arr : list Card) (st : Gen) :
  length (pool (pushIfAny arr st))
  = (length (pool st) + if (0 <? length arr)%nat then 1 else 0)%nat.
Proof.
  destruct arr as [|c arr].
  - unfold pushIfAny. simpl. lia.
  - rewrite pushIfAny_length by discriminate. simpl. lia.
Qed.

Lemma iter_pushIfAny_length_any (n : nat) (arr : list Card) (st : Gen) :
  length (pool (Nat.iter n (pushIfAny arr) st))
  = (length (pool st) + n * if (0 <? length arr)%nat then 1 else 0)%nat.
Proof.
  induction n as [|n IH]; simpl; [lia|].
  rewrite pushIfAny_length_any, IH. lia.
Qed.

Lemma rareSlot_length_any (chance : Q) (byRarity : ByRarity) (st : Gen) :
  (length (pool st) <= length (pool (rareSlot chance byRarity st))
   <= length (pool st) + 1)%nat /\
  (rare byRarity = [] -> mythic byRarity = [] ->
   length (pool (rareSlot chance byRarity st)) = length (pool st)).
Proof.
  rewrite rareSlot_unfold, pushIfAny_length_any. cbn [pool]. split.
  - destruct (0 <? length _)%nat; lia.
  - intros -> ->. destruct (_ && _); simpl; lia.
Qed.

Lemma legacyPack_length_any (chance : Q) (byRarity : ByRarity) (st : Gen) :
  let u := if (0 <? length (uncommon byRarity))%nat then 1%nat else 0%nat in
  let c := if (0 <? length (common byRarity))%nat then 1%nat else 0%nat in
  (length (pool st) + 3 * u + 10 * c
   <= length (pool (legacyPack chance byRarity st))
   <= length (pool st) + 1 + 3 * u + 10 * c)%nat /\
  (rare byRarity <> [] ->
   length (pool (legacyPack chance byRarity st))
   = (length (pool st) + 1 + 3 * u + 10 * c)%nat) /\
  (rare byRarity = [] -> mythic byRarity = [] ->
   length (pool (legacyPack chance byRarity st))
   = (length (pool st) + 3 * u + 10 * c)%nat).
Proof.
  cbv zeta. unfold legacyPack.
  rewrite !iter_pushIfAny_length_any.
  pose proof (rareSlot_length_any chance byRarity st) as [Hr Hnone].
  split; [lia|]. split.
  - intros Hrare. rewrite (rareSlot_length _ _ _ Hrare). lia.
  - intros Hrare Hmythic. rewrite (Hnone Hrare Hmythic). lia.
Qed.

(** The legacy generator never returns more than 84 cards, and returns
    fewer when a bucket is empty, the draws from it being skipped: with
    at least one rare in the catalogue the pool has six times 1, plus 3
    if there is an uncommon, plus 10 if there is a common; without any
    rare the rare-or-mythic draw may also be skipped; and an empty
    catalogue gives an empty pool. *)
Theorem legacy_pool_length (cards : list Card) (seed : option Seed)
  (ambient : nat -> Q) :
  let u := if (0 <? length (uncommon (groupByRarity cards)))%nat
           then 1%nat else 0%nat in
  let c := if (0 <? length (common (groupByRarity cards)))%nat
           then 1%nat else 0%nat in
  (6 * (3 * u + 10 * c)
   <= length (generateSealedPool cards seed ambient)
   <= 6 * (1 + 3 * u + 10 * c))%nat /\
  (rare (groupByRarity cards) <> [] ->
   length (generateSealedPool cards seed ambient)
   = (6 * (1 + 3 * u + 10 * c))%nat) /\
  (cards = [] -> generateSealedPool cards seed ambient = []).
Proof.
  cbv zeta. unfold generateSealedPool, generateSealedPoolWith. cbv zeta.
  set (b := groupByRarity cards).
  set (st0 := {| random := randomSource seed ambient; pool := [] |}).
  assert (Hiter : forall n,
    (n * (3 * (if (0 <? length (uncommon b))%nat then 1 else 0)
          + 10 * (if (0 <? length (common b))%nat then 1 else 0))
     <= length (pool (Nat.iter n (legacyPack (1 # 8) b) st0))
     <= n * (1 + 3 * (if (0 <? length (uncommon b))%nat then 1 else 0)
             + 10 * (if (0 <? length (common b))%nat then 1 else 0)))%nat /\
    (rare b <> [] ->
     length (pool (Nat.iter n (legacyPack (1 # 8) b) st0))
     = (n * (1 + 3 * (if (0 <? length (uncommon b))%nat then 1 else 0)
             + 10 * (if (0 <? length (common b))%nat then 1 else 0)))%nat) /\
    (rare b = [] -> mythic b = [] ->
     length (pool (Nat.iter n (legacyPack (1 # 8) b) st0))
     = (n * (3 * (if (0 <? length (uncommon b))%nat then 1 else 0)
             + 10 * (if (0 <? length (common b))%nat then 1 else 0)))%nat)).
  { induction n as [|n (IHle & IHeq & IHnone)];
      [simpl; split; [lia|split; reflexivity]|].
    change (Nat.iter (S n) ?f ?x) with (f (Nat.iter n f x)).
    destruct (legacyPack_length_any (1 # 8) b
                (Nat.iter n (legacyPack (1 # 8) b) st0)) as (Hle & Heq & Hnone).
    cbv zeta in Hle, Heq, Hnone. split; [lia|]. split.
    - intros Hrare. rewrite (Heq Hrare), (IHeq Hrare). lia.
    - intros Hrare Hmythic.
      rewrite (Hnone Hrare Hmythic), (IHnone Hrare Hmythic). lia. }
  destruct (Hiter 6%nat) as (Hle & Heq & Hnone).
  split; [exact Hle|]. split; [exact Heq|].
  intros Hcards. apply length_zero_iff_nil. subst b. rewrite Hnone.
  - rewrite Hcards. reflexivity.
  - rewrite Hcards. reflexivity.
  - rewrite Hcards. reflexivity.
Qed.

Lemma legacy_pool_length_witness :
  length (generateSealedPool
            [Samples.sampleCard "r1" "4" "rare";
             Samples.sampleCard "c1" "1" "common"] None Samples.zeros)
  = 66%nat.
Proof.
  destruct (legacy_pool_length
              [Samples.sampleCard "r1" "4" "rare";
               Samples.sampleCard "c1" "1" "common"] None Samples.zeros)
    as (_ & Hexact & _).
  apply Hexact. discriminate.
Defined.

End LegacyLengthFacts.
